(** * Python3-JsonEngine: tree transforms and batch orchestration

    A shallow embedding of [json_utils/threading_json_utils.py],
    [json_utils/asyncio_json_utils.py] and
    [json_utils/multiprocessing_json_utils.py].

    - A decoded JSON document is the inductive type [doc].  A Python [dict]
      is insertion ordered, and the traversals below depend on that order, so
      a mapping is an association list with the operations of a [dict]
      ([dict_get], [dict_set], [dict_del]).  Integers are Python integers
      ([Z]); a float is zero, [m·2^e], an infinity or a NaN.
    - The [while stack:] loops are functions with fuel; for each of them the
      fuel handed over by the entry point is shown to be enough.
    - A raised exception is [None] in the [option] monad.
    - Result maps whose iteration order the code leaves open (the batch-load
      result, the result of [diff_json], which iterates over a [set]) are
      [gmap]s; the object store used for the in-place operations is a [gmap]
      from locations to objects.
    - The file system and the codec are a [World]: the outcome of reading and
      decoding a path, and of encoding and writing a document to a path under
      the encoding and the keyword arguments a writer hands on; the three
      writers do not hand on the same.  The order in which the tasks of a
      thread pool complete is an argument of the thread-pool functions. *)

From Stdlib Require Import ZArith Ascii String List Permutation DecimalString.
From Stdlib Require DecimalNat.
From stdpp Require Import base option list strings gmap fin_maps fin_sets.

Set Warnings "-register-all,-clear-no-such-hyp".
Local Open Scope string_scope.
Local Open Scope list_scope.

(** ** Documents *)

(** A Python [float].  A finite value other than zero is [m·2^e], negated
    when [negative] is set.  [json] decodes [Infinity], [-Infinity] and
    [NaN] as well.  A NaN carries the identity of its float object: the
    comparison of the elements of a sequence or of the values of a mapping
    takes an object to be equal to itself, whatever [==] says of it, and
    [json] decodes every [NaN] to one and the same object. *)
Inductive pyfloat : Type :=
  | FZero (negative : bool)
  | FFinite (negative : bool) (m : positive) (e : Z)
  | FInfinity (negative : bool)
  | FNaN (obj : positive).

Inductive doc : Type :=
  | JNull
  | JBool (b : bool)
  | JInt (n : Z)
  | JFloat (x : pyfloat)
  | JStr (s : string)
  | JList (items : list doc)
  | JDict (entries : list (string * doc)).

(** Data as [normalize_keys_to_string] receives it: the keys of a mapping are
    of any hashable type [K], not yet strings. *)
Inductive raw (K : Type) : Type :=
  | RNull
  | RBool (b : bool)
  | RInt (n : Z)
  | RFloat (x : pyfloat)
  | RStr (s : string)
  | RList (items : list (raw K))
  | RDict (entries : list (K * raw K)).

Arguments RNull {K}.
Arguments RBool {K} b.
Arguments RInt {K} n.
Arguments RFloat {K} x.
Arguments RStr {K} s.
Arguments RList {K} items.
Arguments RDict {K} entries.

(** A mapping as the code sees it: string keys, in insertion order. *)
Abbreviation entries := (list (string * doc)).

Definition is_dict (d : doc) : bool :=
  match d with JDict _ => true | _ => false end.

Definition is_list (d : doc) : bool :=
  match d with JList _ => true | _ => false end.

(** Neither a mapping nor a sequence. *)
Definition is_scalar (d : doc) : bool := negb (is_dict d) && negb (is_list d).

(** ** The operations of a Python [dict] on an association list *)

Section Dict.
Context {A : Type}.

(** [m.get(k)] as an option: the first (and, in a well-formed mapping, only)
    entry under [k]. *)
Fixpoint dict_get (k : string) (m : list (string * A)) : option A :=
  match m with
  | [] => None
  | (k', v) :: m' => if String.eqb k k' then Some v else dict_get k m'
  end.

(** [k in m] *)
Definition dict_mem (k : string) (m : list (string * A)) : bool :=
  match dict_get k m with Some _ => true | None => false end.

(** [m[k] = v]: an existing key keeps its position, a new key goes last. *)
Fixpoint dict_set (k : string) (v : A) (m : list (string * A)) : list (string * A) :=
  match m with
  | [] => [(k, v)]
  | (k', v') :: m' =>
      if String.eqb k k' then (k', v) :: m' else (k', v') :: dict_set k v m'
  end.

(** [del m[k]] *)
Fixpoint dict_del (k : string) (m : list (string * A)) : list (string * A) :=
  match m with
  | [] => []
  | (k', v') :: m' =>
      if String.eqb k k' then m' else (k', v') :: dict_del k m'
  end.

Definition dict_keys (m : list (string * A)) : list string := map fst m.

(** [m.update(m2)] *)
Definition dict_update (m m2 : list (string * A)) : list (string * A) :=
  fold_left (fun acc kv => dict_set (fst kv) (snd kv) acc) m2 m.
End Dict.

(** Keys within one mapping are unique, at every level. *)
Fixpoint wf_doc (d : doc) : Prop :=
  match d with
  | JList l => (fix all (l : list doc) : Prop :=
                  match l with [] => True | x :: l' => wf_doc x /\ all l' end) l
  | JDict m => NoDup (dict_keys m) /\
               (fix all (m : entries) : Prop :=
                  match m with [] => True | (_, v) :: m' => wf_doc v /\ all m' end) m
  | _ => True
  end.

(** ** Python's [==] on documents

    [True == 1] and [False == 0] hold in Python, and a float is equal to the
    integer of the same value; a NaN is equal to nothing, itself included.
    Two mappings are equal when they have the same number of entries and
    every key of the first is a key of the second with an equal value,
    whatever the insertion order; two sequences when they have the same
    length and equal elements.  For the elements of a sequence and the
    values of a mapping, equal means: the same object, or [==]. *)

(** A number [n·2^e] against another one. *)
Definition dyadic_eqb (a b : Z * Z) : bool :=
  let e := Z.min a.2 b.2 in
  (a.1 * 2 ^ (a.2 - e) =? b.1 * 2 ^ (b.2 - e))%Z.

(** The value of a finite float as [n·2^e]. *)
Definition dyadic (x : pyfloat) : option (Z * Z) :=
  match x with
  | FZero _ => Some (0, 0)%Z
  | FFinite negative m e => Some (if negative then Z.neg m else Z.pos m, e)
  | _ => None
  end.

(** A float against an integer. *)
Definition float_eq_int (x : pyfloat) (n : Z) : bool :=
  match dyadic x with
  | Some a => dyadic_eqb a (n, 0%Z)
  | None => false
  end.

(** Two floats as elements: by value, and a NaN against the same object. *)
Definition float_eq_in (x y : pyfloat) : bool :=
  match x, y with
  | FInfinity a, FInfinity b => Bool.eqb a b
  | FNaN i, FNaN j => Pos.eqb i j
  | _, _ =>
      match dyadic x, dyadic y with
      | Some a, Some b => dyadic_eqb a b
      | _, _ => false
      end
  end.

(** [x is y or x == y]: how the elements of two sequences and the values of
    two mappings are compared. *)
Fixpoint py_eq_in (x y : doc) {struct x} : bool :=
  match x, y with
  | JNull, JNull => true
  | JBool a, JBool b => Bool.eqb a b
  | JBool a, JInt n => Z.eqb (Z.b2z a) n
  | JInt n, JBool a => Z.eqb n (Z.b2z a)
  | JInt a, JInt b => Z.eqb a b
  | JFloat a, JFloat b => float_eq_in a b
  | JFloat a, JInt n => float_eq_int a n
  | JInt n, JFloat a => float_eq_int a n
  | JFloat a, JBool b => float_eq_int a (Z.b2z b)
  | JBool b, JFloat a => float_eq_int a (Z.b2z b)
  | JStr a, JStr b => String.eqb a b
  | JList xs, JList ys =>
      (fix go (xs ys : list doc) : bool :=
         match xs, ys with
         | [], [] => true
         | x' :: xs', y' :: ys' => py_eq_in x' y' && go xs' ys'
         | _, _ => false
         end) xs ys
  | JDict m, JDict n =>
      Nat.eqb (length m) (length n) &&
      (fix go (m : entries) : bool :=
         match m with
         | [] => true
         | (k, v) :: m' =>
             match dict_get k n with
             | Some w => py_eq_in v w
             | None => false
             end && go m'
         end) m
  | _, _ => false
  end.

(** A NaN. *)
Definition is_nan (d : doc) : bool :=
  match d with
  | JFloat (FNaN _) => true
  | _ => false
  end.

(** [x == y]: a NaN is not equal to itself. *)
Definition py_eq (x y : doc) : bool :=
  if is_nan x then false else py_eq_in x y.

(** The number of nodes of a document: what a traversal has to visit. *)
Fixpoint doc_size (d : doc) : nat :=
  match d with
  | JList l => S ((fix sum (l : list doc) : nat :=
                     match l with [] => O | x :: l' => (doc_size x + sum l')%nat end) l)
  | JDict m => S ((fix sum (m : entries) : nat :=
                     match m with [] => O | (_, v) :: m' => (doc_size v + sum m')%nat end) m)
  | _ => 1%nat
  end.

(** ** Strings *)

(** [str(i)] for a sequence index. *)
Definition str_of_nat (i : nat) : string := NilEmpty.string_of_uint (Nat.to_uint i).

(** [s.split(sep)]: cut at every occurrence of [sep], found left to right.
    [split_go] returns the pieces of [s], the first of which is still open:
    the characters read before [s] belong to it.  [skip] counts the characters
    of an occurrence of [sep] that remain to be dropped.  An empty separator
    raises. *)
Fixpoint split_go (sep s : string) (skip : nat) : list string :=
  match s with
  | EmptyString => [EmptyString]
  | String c s' =>
      match skip with
      | S n => split_go sep s' n
      | O =>
          if String.prefix sep s
          then EmptyString :: split_go sep s' (Nat.pred (String.length sep))
          else match split_go sep s' O with
               | piece :: pieces => String c piece :: pieces
               | [] => [String c EmptyString]
               end
      end
  end.

Definition py_split (s sep : string) : option (list string) :=
  if String.eqb sep "" then None else Some (split_go sep s O).

(** ** The file system and codec boundary *)

(** Keyword arguments, as a caller gives them in [**kwargs] and as
    [json.dump] or [json.dumps] receives them: [encoding], [indent] and
    [ensure_ascii], each given or not, and the further keyword arguments of
    [json.dump] ([skipkeys], [sort_keys], [default], ...), of a type [O] the
    model leaves open. *)
Record keywords (O : Type) : Type := {
  kw_encoding : option doc;
  kw_indent : option doc;
  kw_ensure_ascii : option doc;
  kw_rest : O
}.

Arguments kw_encoding {O} _.
Arguments kw_indent {O} _.
Arguments kw_ensure_ascii {O} _.
Arguments kw_rest {O} _.

(** Further keyword arguments only. *)
Definition only {O} (rest : O) : keywords O :=
  {| kw_encoding := None; kw_indent := None; kw_ensure_ascii := None;
     kw_rest := rest |}.

(** What a single-file operation observes of its external collaborators:
    opening [path] for reading (with the encoding ["utf-8"], which the three
    readers share) and decoding its text either gives a document or raises;
    opening [path] for writing with [encoding] and writing [data] to it, as
    [json.dump] or [json.dumps] encodes it under the keyword arguments
    [kwargs], either completes or raises. *)
Record World : Type := {
  options : Type;
  read_json : string -> option doc;
  write_json : doc -> keywords options -> string -> doc -> bool;
  (** the empty string names no file: [open] raises [FileNotFoundError] on
      it *)
  write_json_empty :
    forall encoding kwargs data, write_json encoding kwargs "" data = false
}.

(** The truth value of a string: [if result:] *)
Definition truthy (s : string) : bool := negb (String.eqb s "").

(** ** [threading_json_utils.py] *)

Module JSONUtils.

(** [data[key] = value; return data] (the value returned; the effect on the
    caller's object is in [Store.update_json_key]). *)
Definition update_json_key (data : entries) (key : string) (value : doc) : entries :=
  dict_set key value data.

Definition remove_json_key (data : entries) (key : string) : entries :=
  if dict_mem key data then dict_del key data else data.

(** [result = dict1.copy(); result.update(dict2); return result] *)
Definition merge_json (dict1 dict2 : entries) : entries :=
  let result := dict1 in
  dict_update result dict2.

(** One pass of [for k, v in current.items()] in [search_nested_key]; the
    stack has its top at the head. *)
Definition search_items (search_key : string) (m : entries)
    (st : list doc * list doc) : list doc * list doc :=
  fold_left
    (fun '(stack, found) '(k, v) =>
       let found := if String.eqb k search_key then found ++ [v] else found in
       (v :: stack, found))
    m st.

(** [stack.extend(current)] *)
Definition stack_extend {A} (stack : list A) (l : list A) : list A :=
  fold_left (fun stack v => v :: stack) l stack.

Fixpoint search_loop (fuel : nat) (search_key : string)
    (stack found : list doc) : option (list doc) :=
  match stack with
  | [] => Some found
  | current :: stack =>
      match fuel with
      | O => None
      | S fuel =>
          match current with
          | JDict m =>
              let '(stack, found) := search_items search_key m (stack, found) in
              search_loop fuel search_key stack found
          | JList l => search_loop fuel search_key (stack_extend stack l) found
          | _ => search_loop fuel search_key stack found
          end
      end
  end.

Definition search_nested_key (data : doc) (search_key : string) : option (list doc) :=
  search_loop (doc_size data) search_key [data] [].

(** [f"{parent}{sep}{k}" if parent else k] *)
Definition new_key (parent sep k : string) : string :=
  if String.eqb parent "" then k else (parent ++ sep ++ k)%string.

(** [for k, v in current.items(): stack.append((v, new_key))] *)
Definition flatten_items (parent sep : string) (m : entries)
    (stack : list (doc * string)) : list (doc * string) :=
  fold_left (fun stack '(k, v) => (v, new_key parent sep k) :: stack) m stack.

(** [enumerate(current)] *)
Definition enumerate {A} (l : list A) : list (nat * A) :=
  combine (seq 0 (length l)) l.

(** [for i, v in enumerate(current): stack.append((v, new_key))] *)
Definition flatten_elems (parent sep : string) (l : list doc)
    (stack : list (doc * string)) : list (doc * string) :=
  fold_left (fun stack '(i, v) => (v, new_key parent sep (str_of_nat i)) :: stack)
    (enumerate l) stack.

Fixpoint flatten_loop (fuel : nat) (sep : string)
    (stack : list (doc * string)) (items : entries) : option entries :=
  match stack with
  | [] => Some items
  | (current, parent) :: stack =>
      match fuel with
      | O => None
      | S fuel =>
          match current with
          | JDict m => flatten_loop fuel sep (flatten_items parent sep m stack) items
          | JList l => flatten_loop fuel sep (flatten_elems parent sep l stack) items
          | _ => flatten_loop fuel sep stack (dict_set parent current items)
          end
      end
  end.

Definition flatten_json (data : doc) (parent_key sep : string) : option entries :=
  flatten_loop (doc_size data) sep [(data, parent_key)] [].

(** The walk of [unflatten_json] from [d] along [keys[:-1]], followed by
    [d[keys[-1]] = value].  The code moves a reference down the nested
    mappings and assigns through it; here every mapping on the way is
    rebuilt around its changed child.  Testing a key in, indexing or
    assigning into anything but a mapping with a string key raises. *)
Fixpoint set_path (d : doc) (keys : list string) (last_key : string)
    (value : doc) : option doc :=
  match d with
  | JDict m =>
      match keys with
      | [] => Some (JDict (dict_set last_key value m))
      | key :: keys =>
          let m := if dict_mem key m then m else dict_set key (JDict []) m in
          child ← dict_get key m;
          child' ← set_path child keys last_key value;
          Some (JDict (dict_set key child' m))
      end
  | _ => None
  end.

(** The body of [for compound_key, value in flat_data.items()]. *)
Definition unflatten_step (sep : string) (nested : doc)
    (item : string * doc) : option doc :=
  let '(compound_key, value) := item in
  keys ← py_split compound_key sep;
  last_key ← last keys;
  set_path nested (removelast keys) last_key value.

Definition unflatten_json (flat_data : entries) (sep : string) : option doc :=
  fold_left (fun nested item => nested ← nested; unflatten_step sep nested item)
    flat_data (Some (JDict [])).

(** [{str(k): normalize_keys_to_string(v) for k, v in data.items()}] for a
    mapping, [[normalize_keys_to_string(i) for i in data]] for a sequence,
    [data] itself otherwise.  [str] is Python's [str] on the keys.  The
    items of the comprehension are written one after the other: of two keys
    with the same string the first gives the position, the last the value. *)
Fixpoint normalize_keys_to_string {K} (str : K -> string) (data : raw K) : doc :=
  match data with
  | RDict m =>
      JDict ((fix go (m : list (K * raw K)) (acc : entries) : entries :=
                match m with
                | [] => acc
                | (k, v) :: m' =>
                    go m' (dict_set (str k) (normalize_keys_to_string str v) acc)
                end) m [])
  | RList l =>
      JList ((fix go (l : list (raw K)) : list doc :=
                match l with
                | [] => []
                | i :: l' => normalize_keys_to_string str i :: go l'
                end) l)
  | RNull => JNull
  | RBool b => JBool b
  | RInt n => JInt n
  | RFloat x => JFloat x
  | RStr s => JStr s
  end.

(** [d.get(key)]: [None] for a missing key. *)
Definition py_get (d : entries) (key : string) : doc :=
  default JNull (dict_get key d).

(** [set(dict1) | set(dict2)] *)
Definition key_union (dict1 dict2 : entries) : gset string :=
  list_to_set (dict_keys dict1) ∪ list_to_set (dict_keys dict2).

Definition diff_step (dict1 dict2 : entries) (key : string)
    (diff : gmap string doc) : gmap string doc :=
  if negb (py_eq (py_get dict1 key) (py_get dict2 key))
  then <[key := JDict [("old", py_get dict1 key); ("new", py_get dict2 key)]]> diff
  else diff.

(** The iteration order of a [set] is unspecified, and so is the insertion
    order of the result: the result is an unordered map. *)
Definition diff_json (dict1 dict2 : entries) : gmap string doc :=
  set_fold (diff_step dict1 dict2) ∅ (key_union dict1 dict2).

(** *** Concurrent methods *)

Definition load_json_from_file (w : World) (file_path : string) : option doc :=
  read_json w file_path.

(** [def save_json_to_file(data, file_path, indent=4, encoding="utf-8",
    ensure_ascii=False, **kwargs)]: a keyword argument of the call that names
    a parameter is bound to it, the others stay in [kwargs]; then
    [open(file_path, "w", encoding=encoding)] and
    [json.dump(data, f, indent=indent, ensure_ascii=ensure_ascii, **kwargs)]. *)
Definition save_json_to_file (w : World) (data : doc) (file_path : string)
    (kwargs : keywords (options w)) : option unit :=
  let indent := default (JInt 4) (kw_indent kwargs) in
  let encoding := default (JStr "utf-8") (kw_encoding kwargs) in
  let ensure_ascii := default (JBool false) (kw_ensure_ascii kwargs) in
  let kwargs :=
    {| kw_encoding := None; kw_indent := Some indent;
       kw_ensure_ascii := Some ensure_ascii; kw_rest := kw_rest kwargs |} in
  if write_json w encoding kwargs file_path data then Some tt else None.

(** [try: ... return path, data / except Exception: return path, None] *)
Definition _load_file_helper (w : World) (path : string) : string * doc :=
  match load_json_from_file w path with
  | Some data => (path, data)
  | None => (path, JNull)
  end.

(** [try: JSONUtils.save_json_to_file(data, path, **kwargs); return path /
    except Exception: return None] *)
Definition _save_file_helper (w : World) (path : string) (data : doc)
    (kwargs : keywords (options w)) : option string :=
  match save_json_to_file w data path kwargs with
  | Some _ => Some path
  | None => None
  end.

(** [as_completed(futures)] yields every future once, in the order in which
    they complete; [order] lists the indices of the futures in that order. *)
Definition as_completed {A} (futures : list A) (order : list nat) : list A :=
  omap (fun i => futures !! i) order.

(** [ThreadPoolExecutor(max_workers=...)] raises for a pool without workers. *)
Definition load_multiple_json_files (w : World) (file_paths : list string)
    (max_workers : Z) (order : list nat) : option (gmap string doc) :=
  if (max_workers <=? 0)%Z then None else
  let futures := map (_load_file_helper w) file_paths in
  Some (fold_left (fun results '(path, data) => <[path := data]> results)
          (as_completed futures order) ∅).

Definition save_multiple_json_files (w : World) (file_data_pairs : list (string * doc))
    (max_workers : Z) (kwargs : keywords (options w)) (order : list nat)
    : option (list string) :=
  if (max_workers <=? 0)%Z then None else
  let futures :=
    map (fun '(path, data) => _save_file_helper w path data kwargs) file_data_pairs in
  Some (fold_left
          (fun success_paths result =>
             match result with
             | Some r => if truthy r then success_paths ++ [r] else success_paths
             | None => success_paths
             end)
          (as_completed futures order) []).

(** [load_all_json_files_from_dir]: [scan directory recursive] is what
    [Path(directory).rglob("*.json")] (recursive) or [.glob("*.json")] finds,
    each path through [str]; the batch load runs with its default of 10
    workers. *)
Definition load_all_json_files_from_dir (w : World)
    (scan : string -> bool -> list string) (directory : string) (recursive : bool)
    (order : list nat) : option (gmap string doc) :=
  let paths := scan directory recursive in
  load_multiple_json_files w paths 10 order.

End JSONUtils.

(** ** [asyncio_json_utils.py] *)

Module JSONUtilsAsync.

Definition load_json_from_file (w : World) (file_path : string) : doc :=
  match read_json w file_path with
  | Some data => data
  | None => JNull
  end.

(** [async def save_json_to_file(data, file_path, encoding="utf-8",
    **kwargs)]: [json_str = json.dumps(data, **kwargs)], then
    [aiofiles.open(file_path, "w", encoding=encoding)] and
    [f.write(json_str)], all in [try: ... return file_path / except
    Exception: return None]. *)
Definition save_json_to_file (w : World) (data : doc) (file_path : string)
    (kwargs : keywords (options w)) : option string :=
  let encoding := default (JStr "utf-8") (kw_encoding kwargs) in
  let kwargs :=
    {| kw_encoding := None; kw_indent := kw_indent kwargs;
       kw_ensure_ascii := kw_ensure_ascii kwargs; kw_rest := kw_rest kwargs |} in
  if write_json w encoding kwargs file_path data then Some file_path else None.

(** [asyncio.gather] returns the results in the order of its awaitables. *)
Definition gather {A} (tasks : list A) : list A := tasks.

Definition load_multiple_json_files (w : World) (file_paths : list string)
    : gmap string doc :=
  let tasks := map (load_json_from_file w) file_paths in
  let results := gather tasks in
  fold_left (fun acc '(path, data) => <[path := data]> acc)
    (combine file_paths results) ∅.

Definition save_multiple_json_files (w : World)
    (file_data_pairs : list (string * doc)) (kwargs : keywords (options w))
    : list string :=
  let tasks :=
    map (fun '(path, data) => save_json_to_file w data path kwargs) file_data_pairs in
  let results := gather tasks in
  omap id results.

End JSONUtilsAsync.

(** ** [multiprocessing_json_utils.py] *)

Module JSONUtilsProcess.

Definition load_json_file (w : World) (path : string) : doc :=
  match read_json w path with
  | Some data => data
  | None => JNull
  end.

(** [path, data, kwargs = args], then [open(path, "w", encoding="utf-8")]
    and [json.dump(data, f, **kwargs)], in [try: ... return path / except
    Exception: return None]: every keyword argument goes to [json.dump], an
    [encoding] among them. *)
Definition save_json_file (w : World)
    (args : string * doc * keywords (options w)) : option string :=
  let '(path, data, kwargs) := args in
  if write_json w (JStr "utf-8") kwargs path data then Some path else None.

(** [Pool(processes=workers)] raises for fewer than one process;
    [pool.map] returns the results in the order of its inputs. *)
Definition pool_map {A B} (workers : Z) (f : A -> B) (xs : list A) : option (list B) :=
  if (workers <? 1)%Z then None else Some (map f xs).

Definition load_multiple_json_files (w : World) (file_paths : list string)
    (workers : Z) : option (gmap string doc) :=
  match pool_map workers (load_json_file w) file_paths with
  | Some results =>
      Some (fold_left (fun acc '(path, data) => <[path := data]> acc)
              (combine file_paths results) ∅)
  | None => None
  end.

Definition save_multiple_json_files (w : World)
    (file_data_pairs : list (string * doc)) (workers : Z)
    (kwargs : keywords (options w)) : option (list string) :=
  let task_args := map (fun '(path, data) => (path, data, kwargs)) file_data_pairs in
  match pool_map workers (save_json_file w) task_args with
  | Some results => Some (omap id results)
  | None => None
  end.

End JSONUtilsProcess.

(** ** Objects and references

    [update_json_key] and [remove_json_key] assign into the mapping they are
    given, [merge_json] copies first.  To tell the two apart a mapping is an
    object in a store, reached through a location; a value is a scalar or a
    reference to an object.  The arguments are typed [Dict[str, Any]]: a
    location that holds no mapping is outside the model ([None]). *)

Module Store.

Definition loc := positive.

Inductive value : Type :=
  | VNull
  | VBool (b : bool)
  | VInt (n : Z)
  | VStr (s : string)
  | VRef (l : loc).

Inductive object : Type :=
  | ODict (m : list (string * value))
  | OList (l : list value).

Abbreviation store := (gmap loc object).

(** A new object, at a location not in use. *)
Definition alloc (h : store) (o : object) : store * loc :=
  let l := fresh (dom h) in (<[l := o]> h, l).

Definition get_dict (h : store) (l : loc) : option (list (string * value)) :=
  match h !! l with
  | Some (ODict m) => Some m
  | _ => None
  end.

(** [data[key] = value; return data] *)
Definition update_json_key (h : store) (data : loc) (key : string) (v : value)
    : option (store * loc) :=
  m ← get_dict h data;
  Some (<[data := ODict (dict_set key v m)]> h, data).

(** [if key in data: del data[key]] then [return data] *)
Definition remove_json_key (h : store) (data : loc) (key : string)
    : option (store * loc) :=
  m ← get_dict h data;
  if dict_mem key m
  then Some (<[data := ODict (dict_del key m)]> h, data)
  else Some (h, data).

(** [result = dict1.copy(); result.update(dict2); return result] *)
Definition merge_json (h : store) (dict1 dict2 : loc) : option (store * loc) :=
  m1 ← get_dict h dict1;
  let '(h, result) := alloc h (ODict m1) in
  m2 ← get_dict h dict2;
  r ← get_dict h result;
  Some (<[result := ODict (dict_update r m2)]> h, result).

End Store.

(** * Notions used by the statements and their proofs *)

(** ** Induction over documents *)

Section DocInduction.
Variable P : doc -> Prop.
Hypothesis Hnull : P JNull.
Hypothesis Hbool : forall b, P (JBool b).
Hypothesis Hint : forall n, P (JInt n).
Hypothesis Hfloat : forall x, P (JFloat x).
Hypothesis Hstr : forall s, P (JStr s).
Hypothesis Hlist : forall l, Forall P l -> P (JList l).
Hypothesis Hdict : forall m, Forall (fun kv => P kv.2) m -> P (JDict m).

Fixpoint doc_nested_ind (d : doc) : P d :=
  match d with
  | JNull => Hnull
  | JBool b => Hbool b
  | JInt n => Hint n
  | JFloat x => Hfloat x
  | JStr s => Hstr s
  | JList l =>
      Hlist l ((fix all (l : list doc) : Forall P l :=
                  match l with
                  | [] => Forall_nil_2 P
                  | x :: l' => Forall_cons_2 P x l' (doc_nested_ind x) (all l')
                  end) l)
  | JDict m =>
      Hdict m ((fix all (m : entries) : Forall (fun kv => P kv.2) m :=
                  match m with
                  | [] => Forall_nil_2 _
                  | (k, v) :: m' =>
                      Forall_cons_2 (fun kv => P kv.2) (k, v) m' (doc_nested_ind v) (all m')
                  end) m)
  end.
End DocInduction.

(** ** Traversals: what is left to visit, what is found *)

(** The nodes a stack still holds: the fuel a traversal needs. *)
Definition stack_size (stack : list doc) : nat := sum_list_with doc_size stack.

(** The values an iteration over [m] appends to [found]. *)
Definition direct_hits (key : string) (m : entries) : list doc :=
  m ≫= (fun kv => if String.eqb kv.1 key then [kv.2] else []).

(** Every value stored under [key] in a mapping of [d], at any depth, each as
    often as it occurs; a value found this way is searched as well. *)
Fixpoint nested_values (key : string) (d : doc) : list doc :=
  match d with
  | JList l => (fix go (l : list doc) : list doc :=
                  match l with [] => [] | x :: l' => nested_values key x ++ go l' end) l
  | JDict m => (fix go (m : entries) : list doc :=
                  match m with
                  | [] => []
                  | (k, v) :: m' =>
                      (if String.eqb k key then [v] else []) ++ nested_values key v ++ go m'
                  end) m
  | _ => []
  end.

(** A direct child of a sequence or mapping node. *)
Inductive child : doc -> doc -> Prop :=
  | child_elem l x : x ∈ l -> child (JList l) x
  | child_value m k v : (k, v) ∈ m -> child (JDict m) v.

(** [value_under key d v]: [v] is stored under [key] in some mapping that is
    [d] itself or lies anywhere inside [d]. *)
Inductive value_under (key : string) : doc -> doc -> Prop :=
  | value_here m v : (key, v) ∈ m -> value_under key (JDict m) v
  | value_below d c v : child d c -> value_under key c v -> value_under key d v.

(** ** Batches: a small world, and what a batch reports *)

(** A small world: [files] lists the readable files with the document each
    decodes to, [unwritable] the paths that cannot be written. *)
Definition disk (files : entries) (unwritable : list string) : World :=
  {| options := unit;
     read_json := fun path => dict_get path files;
     write_json := fun _ _ path _ =>
       negb (String.eqb path "") && negb (bool_decide (path ∈ unwritable));
     write_json_empty := fun _ _ _ => eq_refl |}.

(** A world in which the documents in [unescaped_fails] (a string with a
    lone surrogate, say) can be written only escaped: a write to a path other
    than [""] completes unless the document is one of them and
    [ensure_ascii=False] is given. *)
Definition escaping_disk (unescaped_fails : doc -> bool) : World :=
  {| options := unit;
     read_json := fun _ => None;
     write_json := fun _ kwargs path data =>
       negb (String.eqb path "") &&
       negb (unescaped_fails data &&
             match kw_ensure_ascii kwargs with
             | Some (JBool false) => true
             | _ => false
             end);
     write_json_empty := fun _ _ _ => eq_refl |}.

(** The entry of a path that could not be read, and the entry of a path whose
    file holds [null]: Python's [None] in both cases. *)
Definition marked (results : gmap string doc) (path : string) : bool :=
  match results !! path with
  | Some JNull => true
  | _ => false
  end.

(** Reading or decoding [path] raises. *)
Definition failed (w : World) (path : string) : bool :=
  match read_json w path with
  | None => true
  | Some _ => false
  end.

(** [results[path] = data] *)
Definition insert_pair (acc : gmap string doc) (item : string * doc) : gmap string doc :=
  let '(path, data) := item in <[path := data]> acc.





(** ** Compound keys and leaves *)

(** A key free of the separator ["."]. *)
Fixpoint no_dot (s : string) : bool :=
  match s with
  | EmptyString => true
  | String c s' => negb (Ascii.eqb c ".") && no_dot s'
  end.

(** A segment of a compound key: not empty, no separator in it. *)
Definition segment (s : string) : bool := negb (String.eqb s "") && no_dot s.

(** [sep.join(p)] *)
Fixpoint join (sep : string) (p : list string) : string :=
  match p with
  | [] => ""
  | [k] => k
  | k :: p' => (k ++ sep ++ join sep p')%string
  end.

(** The key [flatten_json] builds for the node reached from a node with key
    [parent] along the keys [p]. *)
Definition path_key (sep parent : string) (p : list string) : string :=
  fold_left (fun acc k => JSONUtils.new_key acc sep k) p parent.

(** The paths [l] below the key [k]. *)
Definition under (k : string) (l : list (list string * doc)) : list (list string * doc) :=
  (fun pv => (k :: pv.1, pv.2)) <$> l.

(** The leaves of [d] (the values that are neither mappings nor sequences),
    each with the keys and indices that lead to it, in the order in which the
    loop of [flatten_json] reaches them: the last child first. *)
Fixpoint paths (d : doc) : list (list string * doc) :=
  match d with
  | JDict m =>
      (fix go (m : entries) : list (list string * doc) :=
         match m with
         | [] => []
         | (k, v) :: m' => go m' ++ under k (paths v)
         end) m
  | JList l =>
      (fix go (i : nat) (l : list doc) : list (list string * doc) :=
         match l with
         | [] => []
         | v :: l' => go (S i) l' ++ under (str_of_nat i) (paths v)
         end) 0%nat l
  | _ => [([], d)]
  end.

(** What the loop writes for a stack entry. *)
Definition emitted (sep : string) (e : doc * string) : list (string * doc) :=
  (fun pv => (path_key sep e.2 pv.1, pv.2)) <$> paths e.1.

(** [items[key] = value] *)
Definition set_item (items : entries) (kv : string * doc) : entries :=
  dict_set kv.1 kv.2 items.

(** The nodes the stack of [flatten_json] still holds. *)
Definition flat_size (stack : list (doc * string)) : nat := stack_size (stack.*1).

(** ** Insertions, and the documents and flat mappings that round-trip *)

(** One item of [unflatten_json], its compound key already split into [p]. *)
Definition put (d : doc) (p : list string) (v : doc) : option doc :=
  last_key ← last p; JSONUtils.set_path d (removelast p) last_key v.

(** The items one after the other; an exception ends the loop. *)
Definition put_all (l : list (list string * doc)) (d : option doc) : option doc :=
  fold_left (fun nested pv => nested ← nested; put nested pv.1 pv.2) l d.

(** A value below the root: a scalar, or a mapping that is not empty, whose
    keys are free of ["."] and whose values are such values again.  No
    sequence occurs. *)
Fixpoint rt_value (d : doc) : bool :=
  match d with
  | JDict m =>
      match m with [] => false | _ :: _ => true end &&
      (fix all (m : entries) : bool :=
         match m with
         | [] => true
         | (k, v) :: m' => no_dot k && rt_value v && all m'
         end) m
  | JList _ => false
  | _ => true
  end.

(** The entries of such a mapping. *)
Definition rt_entries (m : entries) : bool :=
  forallb (fun kv => no_dot kv.1 && rt_value kv.2) m.

(** A document at the root: a mapping (possibly empty) of such values, in
    which the key [""], if it occurs, is bound to a scalar.  ([flatten_json]
    takes an empty parent key for no parent key: below the key [""] of the
    root the keys start afresh.) *)
Definition rt_doc (d : doc) : bool :=
  match d with
  | JDict m =>
      rt_entries m &&
      forallb (fun kv => negb (String.eqb kv.1 "") || is_scalar kv.2) m
  | _ => false
  end.

(** The document with the entries of every mapping in reverse order: what
    [unflatten_json] rebuilds from the output of [flatten_json]. *)
Fixpoint mirror (d : doc) : doc :=
  match d with
  | JDict m =>
      JDict ((fix go (m : entries) : entries :=
                match m with
                | [] => []
                | (k, v) :: m' => go m' ++ [(k, mirror v)]
                end) m)
  | JList l =>
      JList ((fix go (l : list doc) : list doc :=
                match l with
                | [] => []
                | v :: l' => mirror v :: go l'
                end) l)
  | _ => d
  end.

(** The entries of a mirrored mapping. *)
Definition mirror_entries (m : entries) : entries :=
  reverse ((fun kv => (kv.1, mirror kv.2)) <$> m).

(** The flat mapping with one item per leaf, its key the path joined by
    ["."]. *)
Definition flat_rows (l : list (list string * doc)) : entries :=
  (fun pv => (join "." pv.1, pv.2)) <$> l.

(** The segments of a compound key. *)
Definition key_path (k : string) : list string := split_go "." k 0.

(** No path is a prefix of a later or earlier one. *)
Fixpoint prefix_free (ps : list (list string)) : bool :=
  match ps with
  | [] => true
  | p :: ps' =>
      forallb (fun q => negb (bool_decide (p `prefix_of` q)) &&
                        negb (bool_decide (q `prefix_of` p))) ps' &&
      prefix_free ps'
  end.

(** A path whose first key is not empty, unless that key is the whole path:
    the segments of a compound key that does not start with ["."]. *)
Definition rooted (p : list string) : bool :=
  match p with
  | k :: _ :: _ => negb (String.eqb k "")
  | _ => true
  end.

(** A flat mapping that survives the round trip: scalar values, no compound
    key that starts with ["."], and no compound key that continues another
    one. *)
Definition flat_ok (F : entries) : bool :=
  forallb (fun kv => is_scalar kv.2 && rooted (key_path kv.1)) F &&
  prefix_free (key_path <$> dict_keys F).

(** What the insertions keep: keys free of ["."], no sequence, no empty
    mapping below the root, unique keys. *)
Definition trie (m : entries) : Prop := rt_entries m = true /\ wf_doc (JDict m).

(** Neither path continues the other. *)
Definition apart (p q : list string) : Prop :=
  ~ p `prefix_of` q /\ ~ q `prefix_of` p.

(** ** Sequences as mappings *)

(** The entries that stand for the elements of a sequence: the index, as a
    string, with the element. *)
Definition indexed {A} (i : nat) (l : list A) : list (string * A) :=
  zip (str_of_nat <$> seq i (length l)) l.

(** The document with every sequence replaced by the mapping from the
    indices, as strings, to its elements. *)
Fixpoint as_mappings (d : doc) : doc :=
  match d with
  | JList l =>
      JDict ((fix go (i : nat) (l : list doc) : entries :=
                match l with
                | [] => []
                | v :: l' => (str_of_nat i, as_mappings v) :: go (S i) l'
                end) 0%nat l)
  | JDict m =>
      JDict ((fix go (m : entries) : entries :=
                match m with
                | [] => []
                | (k, v) :: m' => (k, as_mappings v) :: go m'
                end) m)
  | _ => d
  end.

(** A value below the root that may hold sequences: a scalar, a non-empty
    mapping whose keys are segments, or a non-empty sequence, of such values
    again. *)
Fixpoint seq_value (d : doc) : bool :=
  match d with
  | JDict m =>
      match m with [] => false | _ :: _ => true end &&
      (fix all (m : entries) : bool :=
         match m with
         | [] => true
         | (k, v) :: m' => segment k && seq_value v && all m'
         end) m
  | JList l =>
      match l with [] => false | _ :: _ => true end &&
      (fix all (l : list doc) : bool :=
         match l with
         | [] => true
         | v :: l' => seq_value v && all l'
         end) l
  | _ => true
  end.

(** A document at the root: a mapping of such values. *)
Definition seq_doc (d : doc) : bool :=
  match d with
  | JDict m => forallb (fun kv => segment kv.1 && seq_value kv.2) m
  | _ => false
  end.

(** A sequence occurs in the document. *)
Fixpoint has_list (d : doc) : bool :=
  match d with
  | JList _ => true
  | JDict m => (fix any (m : entries) : bool :=
                  match m with
                  | [] => false
                  | (_, v) :: m' => has_list v || any m'
                  end) m
  | _ => false
  end.

(** ** Lookups along a path *)

(** [d[k1][k2]...[kn]] for the keys of [p], through mappings only. *)
Fixpoint get_path (d : doc) (p : list string) : option doc :=
  match p with
  | [] => Some d
  | k :: p' =>
      match d with
      | JDict m => c ← dict_get k m; get_path c p'
      | _ => None
      end
  end.

(** The walk along [p] from [d] reaches something that is not a mapping
    while keys of [p] remain. *)
Fixpoint blocked (d : doc) (p : list string) : bool :=
  match p with
  | [] => false
  | k :: p' =>
      match d with
      | JDict m =>
          match dict_get k m with
          | Some c => blocked c p'
          | None => false
          end
      | _ => true
      end
  end.

(** The loop of [unflatten_json] over [flat_data], from the state [nested]
    (or from an exception already raised). *)
Definition unflatten_from (sep : string) (flat_data : entries)
    (nested : option doc) : option doc :=
  fold_left (fun nested item => nested ← nested; JSONUtils.unflatten_step sep nested item)
    flat_data nested.

(** ** Data whose keys are not yet strings *)

Section RawInduction.
Context {K : Type}.
Variable P : raw K -> Prop.
Hypothesis Hnull : P RNull.
Hypothesis Hbool : forall b, P (RBool b).
Hypothesis Hint : forall n, P (RInt n).
Hypothesis Hfloat : forall x, P (RFloat x).
Hypothesis Hstr : forall s, P (RStr s).
Hypothesis Hlist : forall l, Forall P l -> P (RList l).
Hypothesis Hdict : forall m, Forall (fun kv => P kv.2) m -> P (RDict m).

Fixpoint raw_nested_ind (r : raw K) : P r :=
  match r with
  | RNull => Hnull
  | RBool b => Hbool b
  | RInt n => Hint n
  | RFloat x => Hfloat x
  | RStr s => Hstr s
  | RList l =>
      Hlist l ((fix all (l : list (raw K)) : Forall P l :=
                  match l with
                  | [] => Forall_nil_2 P
                  | x :: l' => Forall_cons_2 P x l' (raw_nested_ind x) (all l')
                  end) l)
  | RDict m =>
      Hdict m ((fix all (m : list (K * raw K)) : Forall (fun kv => P kv.2) m :=
                  match m with
                  | [] => Forall_nil_2 _
                  | (k, v) :: m' =>
                      Forall_cons_2 (fun kv => P kv.2) (k, v) m' (raw_nested_ind v) (all m')
                  end) m)
  end.
End RawInduction.

(** A document, its keys strings already, as data for
    [normalize_keys_to_string]. *)
Fixpoint raw_of_doc (d : doc) : raw string :=
  match d with
  | JNull => RNull
  | JBool b => RBool b
  | JInt n => RInt n
  | JFloat x => RFloat x
  | JStr s => RStr s
  | JList l => RList ((fix go (l : list doc) : list (raw string) :=
                         match l with [] => [] | x :: l' => raw_of_doc x :: go l' end) l)
  | JDict m => RDict ((fix go (m : entries) : list (string * raw string) :=
                         match m with
                         | [] => []
                         | (k, v) :: m' => (k, raw_of_doc v) :: go m'
                         end) m)
  end.

(** The items of the comprehension of [normalize_keys_to_string], in the
    order in which they are written. *)
Definition normalized_items {K} (str : K -> string) (m : list (K * raw K)) : entries :=
  (fun kv => (str kv.1, JSONUtils.normalize_keys_to_string str kv.2)) <$> m.

(** * Proofs *)

(** ** Sizes and fuel *)

Lemma doc_size_list l : doc_size (JList l) = S (stack_size l).
Proof. reflexivity. Qed.

Lemma doc_size_dict m : doc_size (JDict m) = S (stack_size (m.*2)).
Proof.
  unfold stack_size. simpl. f_equal.
  induction m as [|[k v] m IH]; simpl; [done|]. f_equal. exact IH.
Qed.

Lemma stack_size_app s1 s2 : stack_size (s1 ++ s2) = (stack_size s1 + stack_size s2)%nat.
Proof. apply sum_list_with_app. Qed.

Lemma stack_size_reverse s : stack_size (reverse s) = stack_size s.
Proof. apply sum_list_with_reverse. Qed.

(** ** [search_nested_key] *)

Lemma search_items_spec key m stack found :
  JSONUtils.search_items key m (stack, found)
  = (reverse (m.*2) ++ stack, found ++ direct_hits key m).
Proof.
  unfold JSONUtils.search_items, direct_hits.
  revert stack found. induction m as [|[k v] m IH]; intros stack found; simpl.
  - by rewrite app_nil_r.
  - rewrite IH. f_equal.
    + by rewrite reverse_cons, <- app_assoc.
    + destruct (String.eqb k key); simpl; [|done]. by rewrite <- app_assoc.
Qed.

Lemma stack_extend_spec {A} (stack l : list A) :
  JSONUtils.stack_extend stack l = reverse l ++ stack.
Proof.
  unfold JSONUtils.stack_extend. revert stack.
  induction l as [|x l IH]; intros stack; simpl; [done|].
  by rewrite IH, reverse_cons, <- app_assoc.
Qed.

Lemma nested_values_list key l :
  nested_values key (JList l) = l ≫= nested_values key.
Proof. simpl. induction l as [|x l IH]; simpl; [done|]. by rewrite IH. Qed.

Lemma nested_values_dict key m :
  nested_values key (JDict m) ≡ₚ direct_hits key m ++ (m.*2 ≫= nested_values key).
Proof.
  simpl. unfold direct_hits.
  induction m as [|[k v] m IH]; simpl; [done|].
  rewrite IH. rewrite <- !app_assoc. f_equiv.
  apply Permutation_app_swap_app.
Qed.

Lemma bind_reverse_perm {A B} (f : A -> list B) (l : list A) :
  reverse l ≫= f ≡ₚ l ≫= f.
Proof. by rewrite reverse_Permutation. Qed.

Lemma search_loop_spec key fuel stack found :
  (stack_size stack <= fuel)%nat ->
  exists r, JSONUtils.search_loop fuel key stack found = Some r /\
            r ≡ₚ found ++ (stack ≫= nested_values key).
Proof.
  revert stack found. induction fuel as [|fuel IH]; intros stack found Hfuel.
  - destruct stack as [|d stack].
    + exists found. simpl. by rewrite app_nil_r.
    + exfalso. unfold stack_size in Hfuel. simpl in Hfuel.
      destruct d; simpl in Hfuel; lia.
  - destruct stack as [|d stack].
    { exists found. simpl. by rewrite app_nil_r. }
    assert (Hsz : stack_size (d :: stack) = (doc_size d + stack_size stack)%nat) by done.
    destruct d as [| b | n | x | s | l | m];
      try (destruct (IH stack found) as (r & Hr & Hp);
           [rewrite Hsz in Hfuel; simpl in Hfuel; lia|];
           exists r; split; [exact Hr|]; by rewrite Hp).
    + cbn [JSONUtils.search_loop]. rewrite stack_extend_spec.
      destruct (IH (reverse l ++ stack) found) as (r & Hr & Hp).
      { rewrite Hsz, doc_size_list in Hfuel.
        rewrite stack_size_app, stack_size_reverse. lia. }
      exists r. split; [exact Hr|].
      rewrite Hp, bind_app, bind_reverse_perm, bind_cons.
      by rewrite nested_values_list.
    + cbn [JSONUtils.search_loop]. rewrite search_items_spec.
      destruct (IH (reverse (m.*2) ++ stack) (found ++ direct_hits key m)) as (r & Hr & Hp).
      { rewrite Hsz, doc_size_dict in Hfuel.
        rewrite stack_size_app, stack_size_reverse. lia. }
      exists r. split; [exact Hr|].
      rewrite Hp, bind_app, bind_reverse_perm, bind_cons.
      rewrite nested_values_dict. by rewrite <- !app_assoc.
Qed.

Lemma search_nested_key_spec data key :
  exists found, JSONUtils.search_nested_key data key = Some found /\
                found ≡ₚ nested_values key data.
Proof.
  destruct (search_loop_spec key (doc_size data) [data] []) as (r & Hr & Hp).
  { unfold stack_size. simpl. lia. }
  exists r. split; [exact Hr|].
  rewrite Hp. simpl. by rewrite app_nil_r.
Qed.

Lemma elem_of_direct_hits key m v : v ∈ direct_hits key m <-> (key, v) ∈ m.
Proof.
  unfold direct_hits. rewrite list_elem_of_bind. split.
  - intros ([k w] & Hin & Hm). simpl in Hin.
    destruct (String.eqb k key) eqn:E; [|by apply elem_of_nil in Hin].
    apply list_elem_of_singleton in Hin. apply String.eqb_eq in E. by subst.
  - intros Hm. exists (key, v). split; [|done]. simpl.
    rewrite String.eqb_refl. by apply list_elem_of_singleton.
Qed.

Lemma nested_values_child key d c v :
  child d c -> v ∈ nested_values key c -> v ∈ nested_values key d.
Proof.
  intros Hc Hv. destruct Hc as [l x Hx | m k x Hx].
  - rewrite nested_values_list. apply list_elem_of_bind. eauto.
  - rewrite nested_values_dict. apply elem_of_app. right.
    apply list_elem_of_bind. exists x. split; [done|].
    apply list_elem_of_fmap. by exists (k, x).
Qed.

Lemma elem_of_nested_values key d v :
  v ∈ nested_values key d <-> value_under key d v.
Proof.
  split.
  - revert v. induction d as [| | | | | l IH | m IH] using doc_nested_ind;
      intros v Hv; try (by apply elem_of_nil in Hv).
    + rewrite nested_values_list in Hv.
      apply list_elem_of_bind in Hv as (x & Hv & Hx).
      rewrite Forall_forall in IH.
      eapply value_below; [by apply child_elem|]. by apply IH.
    + rewrite nested_values_dict in Hv.
      apply elem_of_app in Hv as [Hv | Hv].
      * apply value_here. by apply elem_of_direct_hits.
      * apply list_elem_of_bind in Hv as (x & Hv & Hx).
        apply list_elem_of_fmap in Hx as ([k x'] & -> & Hx).
        rewrite Forall_forall in IH.
        eapply value_below; [by eapply child_value|]. by apply (IH (k, x')).
  - induction 1 as [m v Hm | d c v Hc _ IH].
    + rewrite nested_values_dict. apply elem_of_app. left.
      by apply elem_of_direct_hits.
    + by eapply nested_values_child.
Qed.

Lemma value_under_trans key d v w :
  value_under key d v -> value_under key v w -> value_under key d w.
Proof.
  induction 1 as [m v Hm | d c v Hc _ IH]; intros Hw.
  - eapply value_below; [by eapply child_value|done].
  - eapply value_below; [done|]. by apply IH.
Qed.

(** C8: on the document [{"a": {"b": {"target": 1}}, "target": 2}] the search
    for ["target"] returns a list that, as a multiset, is [{1, 2}]; the same
    holds when the two top-level entries come in the other order. *)
Theorem search_nested_key_scenario :
  (exists found,
     JSONUtils.search_nested_key
       (JDict [("a", JDict [("b", JDict [("target", JInt 1)])]); ("target", JInt 2)])
       "target" = Some found /\ found ≡ₚ [JInt 1; JInt 2]) /\
  (exists found,
     JSONUtils.search_nested_key
       (JDict [("target", JInt 2); ("a", JDict [("b", JDict [("target", JInt 1)])])])
       "target" = Some found /\ found ≡ₚ [JInt 1; JInt 2]).
Proof.
  split.
  - exists [JInt 2; JInt 1]. split; [reflexivity|]. apply Permutation_swap.
  - exists [JInt 2; JInt 1]. split; [reflexivity|]. apply Permutation_swap.
Qed.

(** C10: a value found under the search key is searched itself.  Searching
    ["target"] in [{"target": {"target": 1}}] returns the inner mapping and
    [1]; in general the search returns a list, its elements are the values
    stored under the key anywhere in the document, and with a value it
    contains every value stored under the key inside that value. *)
Theorem search_nested_key_descends_into_matches :
  JSONUtils.search_nested_key (JDict [("target", JDict [("target", JInt 1)])]) "target"
    = Some [JDict [("target", JInt 1)]; JInt 1] /\
  forall data key,
    exists found,
      JSONUtils.search_nested_key data key = Some found /\
      (forall v, v ∈ found <-> value_under key data v) /\
      (forall v w, v ∈ found -> value_under key v w -> w ∈ found).
Proof.
  split; [reflexivity|].
  intros data key.
  destruct (search_nested_key_spec data key) as (found & Hf & Hp).
  exists found. split; [exact Hf|]. split.
  - intros v. rewrite Hp. apply elem_of_nested_values.
  - intros v w Hv Hw. rewrite Hp in *. apply elem_of_nested_values.
    apply elem_of_nested_values in Hv. by eapply value_under_trans.
Qed.

(** ** The [dict] operations *)

Section DictFacts.
Context {A : Type}.
Implicit Types (m : list (string * A)) (k : string) (v : A).

Lemma dict_get_set_eq k v m : dict_get k (dict_set k v m) = Some v.
Proof.
  induction m as [|[k' v'] m IH]; simpl.
  - by rewrite String.eqb_refl.
  - destruct (String.eqb k k') eqn:E; simpl; rewrite E; [done|exact IH].
Qed.

Lemma dict_get_set_ne k k' v m :
  k <> k' -> dict_get k' (dict_set k v m) = dict_get k' m.
Proof.
  intros Hne. induction m as [|[k0 v0] m IH]; simpl.
  - apply String.eqb_neq in Hne. rewrite String.eqb_sym in Hne. by rewrite Hne.
  - destruct (String.eqb k k0) eqn:E; simpl.
    + apply String.eqb_eq in E. subst k0.
      destruct (String.eqb k' k) eqn:E'; [|done].
      apply String.eqb_eq in E'. congruence.
    + by rewrite IH.
Qed.

Lemma dict_get_set k k' v m :
  dict_get k' (dict_set k v m) = if String.eqb k k' then Some v else dict_get k' m.
Proof.
  destruct (String.eqb k k') eqn:E.
  - apply String.eqb_eq in E. subst. apply dict_get_set_eq.
  - apply String.eqb_neq in E. by apply dict_get_set_ne.
Qed.

Lemma dict_get_None k m : dict_get k m = None <-> k ∉ dict_keys m.
Proof.
  induction m as [|[k' v'] m IH]; simpl.
  - split; [intros _; apply not_elem_of_nil|done].
  - rewrite not_elem_of_cons. destruct (String.eqb k k') eqn:E.
    + apply String.eqb_eq in E. split; [done|]. intros [Hne _]. done.
    + apply String.eqb_neq in E. rewrite IH. tauto.
Qed.

Lemma dict_get_is_Some k m : is_Some (dict_get k m) <-> k ∈ dict_keys m.
Proof.
  rewrite <- not_eq_None_Some, dict_get_None.
  split; [apply dec_stable | auto].
Qed.

Lemma dict_get_elem_of k v m : dict_get k m = Some v -> (k, v) ∈ m.
Proof.
  induction m as [|[k' v'] m IH]; simpl; [done|].
  destruct (String.eqb k k') eqn:E.
  - apply String.eqb_eq in E. intros [= ->]. subst. apply list_elem_of_here.
  - intros H. apply list_elem_of_further. auto.
Qed.

Lemma elem_of_dict_get k v m :
  NoDup (dict_keys m) -> (k, v) ∈ m -> dict_get k m = Some v.
Proof.
  induction m as [|[k' v'] m IH]; simpl; intros Hnd Hin.
  - by apply elem_of_nil in Hin.
  - apply NoDup_cons in Hnd as [Hk Hnd].
    apply elem_of_cons in Hin as [[= -> ->] | Hin].
    + by rewrite String.eqb_refl.
    + destruct (String.eqb k k') eqn:E; [|auto].
      apply String.eqb_eq in E. subst k'. exfalso. apply Hk.
      apply list_elem_of_fmap. by exists (k, v).
Qed.

Lemma dict_mem_true k m : dict_mem k m = true <-> k ∈ dict_keys m.
Proof.
  unfold dict_mem. rewrite <- dict_get_is_Some.
  destruct (dict_get k m); split; try done.
Qed.

Lemma dict_mem_false k m : dict_mem k m = false <-> k ∉ dict_keys m.
Proof. rewrite <- dict_mem_true. by destruct (dict_mem k m). Qed.

Lemma dict_keys_set k v m :
  dict_keys (dict_set k v m)
  = if dict_mem k m then dict_keys m else dict_keys m ++ [k].
Proof.
  unfold dict_mem. induction m as [|[k' v'] m IH]; simpl; [done|].
  destruct (String.eqb k k') eqn:E; simpl; [done|].
  rewrite IH. by destruct (dict_get k m).
Qed.

Lemma dict_set_fresh k v m : k ∉ dict_keys m -> dict_set k v m = m ++ [(k, v)].
Proof.
  induction m as [|[k' v'] m IH]; simpl; [done|].
  rewrite not_elem_of_cons. intros [Hne Hk].
  apply String.eqb_neq in Hne. rewrite Hne. by rewrite IH.
Qed.

Lemma elem_of_dict_keys_set k k' v m :
  k' ∈ dict_keys (dict_set k v m) <-> k' = k \/ k' ∈ dict_keys m.
Proof.
  rewrite dict_keys_set. destruct (dict_mem k m) eqn:E.
  - apply dict_mem_true in E. split; [auto|]. by intros [-> | ?].
  - rewrite elem_of_app, list_elem_of_singleton. tauto.
Qed.

Lemma NoDup_dict_keys_set k v m :
  NoDup (dict_keys m) -> NoDup (dict_keys (dict_set k v m)).
Proof.
  intros Hnd. rewrite dict_keys_set. destruct (dict_mem k m) eqn:E; [done|].
  apply dict_mem_false in E. apply NoDup_app. split; [done|]. split.
  - intros x Hx ->%list_elem_of_singleton. done.
  - apply NoDup_singleton.
Qed.

Lemma length_dict_set k v m :
  length (dict_set k v m) = if dict_mem k m then length m else S (length m).
Proof.
  rewrite <- !(length_fmap fst). change (fst <$> ?x) with (dict_keys x).
  rewrite dict_keys_set. destruct (dict_mem k m); [done|].
  rewrite length_app. simpl. lia.
Qed.

(** [m.update(m2)] *)
Lemma dict_get_update k m m2 :
  NoDup (dict_keys m2) ->
  dict_get k (dict_update m m2)
  = match dict_get k m2 with Some v => Some v | None => dict_get k m end.
Proof.
  unfold dict_update. revert m.
  induction m2 as [|[k' v'] m2 IH]; intros m Hnd; simpl; [done|].
  apply NoDup_cons in Hnd as [Hk Hnd]. rewrite IH by done.
  destruct (dict_get k m2) as [w|] eqn:Hw.
  - destruct (String.eqb k k') eqn:E; [|done].
    apply String.eqb_eq in E. subst k'. exfalso. apply Hk.
    apply dict_get_is_Some. by eexists.
  - rewrite dict_get_set, (String.eqb_sym k' k). by destruct (String.eqb k k').
Qed.

Lemma elem_of_dict_keys_update k m m2 :
  k ∈ dict_keys (dict_update m m2) <-> k ∈ dict_keys m \/ k ∈ dict_keys m2.
Proof.
  unfold dict_update. revert m.
  induction m2 as [|[k' v'] m2 IH]; intros m; simpl.
  - rewrite elem_of_nil. tauto.
  - rewrite IH, elem_of_dict_keys_set, elem_of_cons. tauto.
Qed.

Lemma NoDup_dict_keys_update m m2 :
  NoDup (dict_keys m) -> NoDup (dict_keys (dict_update m m2)).
Proof.
  unfold dict_update. revert m.
  induction m2 as [|[k' v'] m2 IH]; intros m Hnd; simpl; [done|].
  apply IH. by apply NoDup_dict_keys_set.
Qed.
End DictFacts.

(** ** [merge_json] *)

(** C5: the keys of [merge_json a b] are the keys of [a] together with those
    of [b]; a key of [b] has its value from [b], any other key of [a] its
    value from [a]; the result is again a mapping with unique keys. *)
Theorem merge_json_spec (a b : entries) :
  NoDup (dict_keys a) -> NoDup (dict_keys b) ->
  NoDup (dict_keys (JSONUtils.merge_json a b)) /\
  (forall k, k ∈ dict_keys (JSONUtils.merge_json a b)
             <-> k ∈ dict_keys a \/ k ∈ dict_keys b) /\
  (forall k, k ∈ dict_keys b ->
             dict_get k (JSONUtils.merge_json a b) = dict_get k b) /\
  (forall k, k ∈ dict_keys a -> k ∉ dict_keys b ->
             dict_get k (JSONUtils.merge_json a b) = dict_get k a).
Proof.
  intros Ha Hb. unfold JSONUtils.merge_json. cbv zeta.
  split; [by apply NoDup_dict_keys_update|].
  split; [intros k; apply elem_of_dict_keys_update|].
  split.
  - intros k Hk. rewrite dict_get_update by done.
    apply dict_get_is_Some in Hk as [v ->]. done.
  - intros k _ Hk. rewrite dict_get_update by done.
    apply dict_get_None in Hk. by rewrite Hk.
Qed.

Lemma merge_json_spec_witness :
  let a := [("x", JInt 1); ("n", JDict [("p", JInt 1)])] in
  let b := [("x", JInt 2); ("y", JInt 3); ("n", JDict [("q", JInt 2)])] in
  JSONUtils.merge_json a b
    = [("x", JInt 2); ("n", JDict [("q", JInt 2)]); ("y", JInt 3)] /\
  NoDup (dict_keys (JSONUtils.merge_json a b)) /\
  (forall k, k ∈ dict_keys (JSONUtils.merge_json a b)
             <-> k ∈ dict_keys a \/ k ∈ dict_keys b) /\
  (forall k, k ∈ dict_keys b ->
             dict_get k (JSONUtils.merge_json a b) = dict_get k b) /\
  (forall k, k ∈ dict_keys a -> k ∉ dict_keys b ->
             dict_get k (JSONUtils.merge_json a b) = dict_get k a).
Proof.
  intros a b. split; [reflexivity|].
  apply (merge_json_spec a b); apply (bool_decide_unpack _); vm_compute; reflexivity.
Defined.

(** ** The store: what [merge_json] leaves alone *)

Lemma alloc_fresh (h : gmap Store.loc Store.object) (o : Store.object) :
  h !! (Store.alloc h o).2 = None.
Proof. unfold Store.alloc. simpl. apply not_elem_of_dom, is_fresh. Qed.

Lemma get_dict_Some (h : gmap Store.loc Store.object) l m :
  Store.get_dict h l = Some m <-> h !! l = Some (Store.ODict m).
Proof.
  unfold Store.get_dict. destruct (h !! l) as [[m'|l']|]; split; congruence.
Qed.

(** C9: [merge_json] on two mappings [a] and [b] of the store returns a
    location that was not in use, holding the merged entries; every object
    that was in the store before the call, [a] and [b] among them, is the same
    after it.  [update_json_key] and [remove_json_key] return the location
    they were given, with its entries changed. *)
Theorem merge_json_leaves_inputs_unchanged
    (h : gmap Store.loc Store.object) (a b : Store.loc)
    (ma mb : list (string * Store.value)) :
  Store.get_dict h a = Some ma -> Store.get_dict h b = Some mb ->
  (exists h' r,
     Store.merge_json h a b = Some (h', r) /\
     h !! r = None /\
     (forall l, is_Some (h !! l) -> h' !! l = h !! l) /\
     Store.get_dict h' a = Some ma /\
     Store.get_dict h' b = Some mb /\
     Store.get_dict h' r = Some (dict_update ma mb)) /\
  (forall key v,
     exists h', Store.update_json_key h a key v = Some (h', a) /\
                Store.get_dict h' a = Some (dict_set key v ma)) /\
  (forall key,
     exists h', Store.remove_json_key h a key = Some (h', a) /\
                Store.get_dict h' a
                = Some (if dict_mem key ma then dict_del key ma else ma)).
Proof.
  intros Ha Hb. split; [|split].
  - pose proof (alloc_fresh h (Store.ODict ma)) as Hfresh.
    unfold Store.merge_json, Store.alloc in *. rewrite Ha. simpl in *.
    set (r := fresh (dom h)) in *.
    set (h1 := <[r := Store.ODict ma]> h).
    assert (Hh1 : h1 = <[r := Store.ODict ma]> h) by done.
    assert (Hra : r <> a).
    { intros Heq. apply get_dict_Some in Ha. congruence. }
    assert (Hrb : r <> b).
    { intros Heq. apply get_dict_Some in Hb. congruence. }
    assert (Hb1 : Store.get_dict h1 b = Some mb).
    { apply get_dict_Some. rewrite Hh1, lookup_insert_ne by done.
      by apply get_dict_Some. }
    assert (Hr1 : Store.get_dict h1 r = Some ma).
    { apply get_dict_Some. by rewrite Hh1, lookup_insert_eq. }
    clearbody h1.
    rewrite Hb1. simpl. rewrite Hr1. simpl.
    eexists _, r. split; [reflexivity|]. split; [exact Hfresh|].
    split; [|split; [|split]].
    + intros l [o Ho]. rewrite lookup_insert_ne by congruence.
      rewrite Hh1. rewrite lookup_insert_ne by congruence. done.
    + apply get_dict_Some. rewrite lookup_insert_ne by done.
      rewrite Hh1, lookup_insert_ne by done. by apply get_dict_Some.
    + apply get_dict_Some. rewrite lookup_insert_ne by done.
      rewrite Hh1, lookup_insert_ne by done. by apply get_dict_Some.
    + apply get_dict_Some. by rewrite lookup_insert_eq.
  - intros key v. unfold Store.update_json_key. rewrite Ha. simpl.
    eexists. split; [reflexivity|].
    apply get_dict_Some. by rewrite lookup_insert_eq.
  - intros key. unfold Store.remove_json_key. rewrite Ha. simpl.
    destruct (dict_mem key ma); eexists; (split; [reflexivity|]).
    + apply get_dict_Some. by rewrite lookup_insert_eq.
    + exact Ha.
Qed.

Lemma merge_json_leaves_inputs_unchanged_witness :
  let h : gmap Store.loc Store.object :=
    {[ 1%positive := Store.ODict [("x", Store.VInt 1); ("n", Store.VRef 3%positive)];
       2%positive := Store.ODict [("x", Store.VInt 2); ("y", Store.VInt 3)];
       3%positive := Store.ODict [("p", Store.VInt 1)] ]} in
  exists h' r,
    Store.merge_json h 1%positive 2%positive = Some (h', r) /\
    h !! r = None /\
    Store.get_dict h' 1%positive
      = Some [("x", Store.VInt 1); ("n", Store.VRef 3%positive)] /\
    Store.get_dict h' 2%positive = Some [("x", Store.VInt 2); ("y", Store.VInt 3)] /\
    Store.get_dict h' r
      = Some [("x", Store.VInt 2); ("n", Store.VRef 3%positive); ("y", Store.VInt 3)].
Proof.
  intros h.
  destruct (merge_json_leaves_inputs_unchanged h 1%positive 2%positive
              [("x", Store.VInt 1); ("n", Store.VRef 3%positive)]
              [("x", Store.VInt 2); ("y", Store.VInt 3)])
    as [(h' & r & Hm & Hfresh & _ & Ha & Hb & Hr) _].
  - vm_compute. reflexivity.
  - vm_compute. reflexivity.
  - exists h', r. repeat split; assumption.
Defined.

(** ** [diff_json] *)

Lemma py_get_absent {a : entries} {k : string} :
  k ∉ dict_keys a -> JSONUtils.py_get a k = JNull.
Proof. intros Hk. unfold JSONUtils.py_get. apply dict_get_None in Hk. by rewrite Hk. Qed.

Lemma diff_fold_lookup (a b : entries) (ks : list string) (k : string) :
  foldr (JSONUtils.diff_step a b) ∅ ks !! k
  = if bool_decide (k ∈ ks) && negb (py_eq (JSONUtils.py_get a k) (JSONUtils.py_get b k))
    then Some (JDict [("old", JSONUtils.py_get a k); ("new", JSONUtils.py_get b k)])
    else None.
Proof.
  induction ks as [|k' ks IH]; simpl.
  - by rewrite lookup_empty.
  - unfold JSONUtils.diff_step at 1.
    destruct (decide (k = k')) as [<- | Hne].
    + rewrite bool_decide_true by apply list_elem_of_here. simpl.
      destruct (py_eq _ _) eqn:E; simpl.
      * rewrite IH. simpl. by rewrite andb_false_r.
      * by rewrite lookup_insert_eq.
    + assert (Hdec : bool_decide (k ∈ k' :: ks) = bool_decide (k ∈ ks)).
      { apply bool_decide_ext. rewrite elem_of_cons. tauto. }
      rewrite Hdec.
      destruct (negb (py_eq (JSONUtils.py_get a k') (JSONUtils.py_get b k'))).
      * rewrite lookup_insert_ne by done. exact IH.
      * exact IH.
Qed.

Lemma elem_of_key_union (a b : entries) (k : string) :
  k ∈ JSONUtils.key_union a b <-> k ∈ dict_keys a \/ k ∈ dict_keys b.
Proof. unfold JSONUtils.key_union. set_solver. Qed.

(** C4, as the code has it: [diff_json a b] has an entry exactly for the keys
    under which [a.get(k) != b.get(k)], and that entry is
    [{"old": a.get(k), "new": b.get(k)}], a missing key reading as null.  A
    key of either mapping whose two values are equal has no entry. *)
Theorem diff_json_spec (a b : entries) (k : string) :
  JSONUtils.diff_json a b !! k
  = if py_eq (JSONUtils.py_get a k) (JSONUtils.py_get b k)
    then None
    else Some (JDict [("old", JSONUtils.py_get a k); ("new", JSONUtils.py_get b k)]).
Proof.
  unfold JSONUtils.diff_json, set_fold. simpl. rewrite diff_fold_lookup.
  destruct (py_eq _ _) eqn:E; simpl; [by rewrite andb_false_r|].
  rewrite andb_true_r, bool_decide_true; [done|].
  apply elem_of_elements, elem_of_key_union.
  destruct (decide (k ∈ dict_keys a)) as [|Ha]; [by left|].
  destruct (decide (k ∈ dict_keys b)) as [|Hb]; [by right|].
  rewrite (py_get_absent Ha), (py_get_absent Hb) in E. done.
Qed.

(** C4 as stated fails: ["x"] is a key of both mappings and ["y"] a key of
    the first only, and neither has an entry in the difference. *)
Lemma diff_json_omits_equal_values :
  "x" ∈ JSONUtils.key_union [("x", JInt 1); ("y", JNull)] [("x", JInt 1)] /\
  "y" ∈ JSONUtils.key_union [("x", JInt 1); ("y", JNull)] [("x", JInt 1)] /\
  JSONUtils.diff_json [("x", JInt 1); ("y", JNull)] [("x", JInt 1)] !! "x" = None /\
  JSONUtils.diff_json [("x", JInt 1); ("y", JNull)] [("x", JInt 1)] !! "y" = None /\
  ~ (forall k, k ∈ JSONUtils.key_union [("x", JInt 1); ("y", JNull)] [("x", JInt 1)] ->
       JSONUtils.diff_json [("x", JInt 1); ("y", JNull)] [("x", JInt 1)] !! k
       = Some (JDict [("old", JSONUtils.py_get [("x", JInt 1); ("y", JNull)] k);
                      ("new", JSONUtils.py_get [("x", JInt 1)] k)])).
Proof.
  assert (Hx : "x" ∈ JSONUtils.key_union [("x", JInt 1); ("y", JNull)] [("x", JInt 1)]).
  { apply elem_of_key_union. left. simpl. apply list_elem_of_here. }
  assert (Hy : "y" ∈ JSONUtils.key_union [("x", JInt 1); ("y", JNull)] [("x", JInt 1)]).
  { apply elem_of_key_union. left. simpl. apply list_elem_of_further, list_elem_of_here. }
  split; [exact Hx|]. split; [exact Hy|].
  split; [vm_compute; reflexivity|]. split; [vm_compute; reflexivity|].
  intros H. specialize (H "x" Hx). vm_compute in H. discriminate H.
Qed.

(** ** Batch loads *)

Lemma fold_insert_lookup (g : string -> doc) (l : list string)
    (acc : gmap string doc) (p : string) :
  fold_left insert_pair ((fun q => (q, g q)) <$> l) acc !! p
  = if bool_decide (p ∈ l) then Some (g p) else acc !! p.
Proof.
  revert acc. induction l as [|q l IH]; intros acc; simpl; [done|].
  rewrite IH. destruct (decide (p = q)) as [-> | Hne].
  - rewrite (bool_decide_true (q ∈ q :: l)) by apply list_elem_of_here.
    rewrite lookup_insert_eq. by destruct (bool_decide (q ∈ l)).
  - rewrite lookup_insert_ne by done.
    apply (f_equal (fun (b : bool) => if b then Some (g p) else acc !! p)).
    apply bool_decide_ext. rewrite elem_of_cons. tauto.
Qed.

Lemma fold_insert_dom (g : string -> doc) (l : list string) (acc : gmap string doc) :
  dom (fold_left insert_pair ((fun q => (q, g q)) <$> l) acc)
  = list_to_set l ∪ dom acc.
Proof.
  revert acc. induction l as [|q l IH]; intros acc; simpl.
  - set_solver.
  - rewrite IH, dom_insert_L. set_solver.
Qed.

Lemma combine_fmap {A B} (f : A -> B) (l : list A) :
  combine l (map f l) = (fun x => (x, f x)) <$> l.
Proof. induction l as [|x l IH]; simpl; [done|]. by rewrite IH. Qed.

Lemma async_load_unfold (w : World) (file_paths : list string) :
  JSONUtilsAsync.load_multiple_json_files w file_paths
  = fold_left insert_pair
      ((fun q => (q, JSONUtilsAsync.load_json_from_file w q)) <$> file_paths) ∅.
Proof.
  unfold JSONUtilsAsync.load_multiple_json_files, JSONUtilsAsync.gather.
  cbv zeta. by rewrite combine_fmap.
Qed.

Lemma async_load_lookup (w : World) (file_paths : list string) (p : string) :
  JSONUtilsAsync.load_multiple_json_files w file_paths !! p
  = if bool_decide (p ∈ file_paths)
    then Some (JSONUtilsAsync.load_json_from_file w p) else None.
Proof. by rewrite async_load_unfold, fold_insert_lookup, lookup_empty. Qed.

Lemma async_load_size (w : World) (file_paths : list string) :
  NoDup file_paths ->
  size (JSONUtilsAsync.load_multiple_json_files w file_paths) = length file_paths.
Proof.
  intros Hnd. rewrite <- size_dom, async_load_unfold, fold_insert_dom.
  rewrite dom_empty_L, (right_id_L ∅ (∪)). by apply size_list_to_set.
Qed.

(** Every future is yielded once: for a completion order that lists every
    index once, [as_completed] is a rearrangement of the futures. *)
Lemma omap_fmap_compose {A B C} (f : B -> option C) (g : A -> B) (l : list A) :
  omap f (g <$> l) = omap (fun x => f (g x)) l.
Proof.
  induction l as [|x l IH]; simpl; [done|].
  destruct (f (g x)); [f_equal|]; exact IH.
Qed.

Lemma as_completed_seq {A} (futures : list A) :
  JSONUtils.as_completed futures (seq 0 (length futures)) = futures.
Proof.
  unfold JSONUtils.as_completed.
  induction futures as [|x l IH]; [done|].
  cbn [length seq omap list_omap lookup list_lookup]. f_equal.
  rewrite <- fmap_S_seq, omap_fmap_compose. exact IH.
Qed.

Lemma as_completed_perm {A} (futures : list A) (order : list nat) :
  order ≡ₚ seq 0 (length futures) ->
  JSONUtils.as_completed futures order ≡ₚ futures.
Proof.
  intros Hp. rewrite <- (as_completed_seq futures) at 2.
  unfold JSONUtils.as_completed. by rewrite Hp.
Qed.

Lemma as_completed_fmap {A B} (f : A -> B) (l : list A) (order : list nat) :
  JSONUtils.as_completed (f <$> l) order = f <$> JSONUtils.as_completed l order.
Proof.
  unfold JSONUtils.as_completed.
  induction order as [|i order IH]; [done|].
  cbn [omap list_omap]. rewrite list_lookup_fmap.
  destruct (l !! i); cbn [fmap option_fmap option_map list_fmap]; [f_equal|]; exact IH.
Qed.

Lemma thread_load_eq (w : World) (file_paths : list string)
    (max_workers : Z) (order : list nat) :
  (0 < max_workers)%Z -> order ≡ₚ seq 0 (length file_paths) ->
  JSONUtils.load_multiple_json_files w file_paths max_workers order
  = Some (JSONUtilsAsync.load_multiple_json_files w file_paths).
Proof.
  intros Hw Hp. unfold JSONUtils.load_multiple_json_files.
  destruct (Z.leb_spec max_workers 0) as [Hle|_]; [lia|].
  f_equal. cbv zeta. apply map_eq. intros p.
  rewrite async_load_lookup.
  assert (Hh : map (JSONUtils._load_file_helper w) file_paths
               = (fun q => (q, JSONUtilsAsync.load_json_from_file w q)) <$> file_paths).
  { apply map_ext. intros q.
    unfold JSONUtils._load_file_helper, JSONUtils.load_json_from_file,
      JSONUtilsAsync.load_json_from_file.
    by destruct (read_json w q). }
  rewrite Hh, as_completed_fmap.
  change (fun (results : gmap string doc) '(path, data) => <[path:=data]> results)
    with insert_pair.
  rewrite fold_insert_lookup. rewrite lookup_empty.
  apply (f_equal (fun (b : bool) =>
                    if b then Some (JSONUtilsAsync.load_json_from_file w p) else None)).
  apply bool_decide_ext. by rewrite (as_completed_perm file_paths order Hp).
Qed.

Lemma process_load_eq (w : World) (file_paths : list string) (workers : Z) :
  (1 <= workers)%Z ->
  JSONUtilsProcess.load_multiple_json_files w file_paths workers
  = Some (JSONUtilsAsync.load_multiple_json_files w file_paths).
Proof.
  intros Hw. unfold JSONUtilsProcess.load_multiple_json_files, JSONUtilsProcess.pool_map.
  destruct (Z.ltb_spec workers 1) as [Hlt|_]; [lia|].
  reflexivity.
Qed.

Lemma async_load_entry (w : World) (file_paths : list string) (p : string) :
  p ∈ file_paths ->
  JSONUtilsAsync.load_multiple_json_files w file_paths !! p
  = Some (default JNull (read_json w p)).
Proof.
  intros Hp. rewrite async_load_lookup, bool_decide_true by done.
  unfold JSONUtilsAsync.load_json_from_file. by destruct (read_json w p).
Qed.

Lemma marked_iff_failed (w : World) (file_paths l : list string) :
  (forall p, p ∈ l -> p ∈ file_paths /\ read_json w p <> Some JNull) ->
  length (filter (marked (JSONUtilsAsync.load_multiple_json_files w file_paths)) l)
  = length (filter (failed w) l).
Proof.
  induction l as [|p l IH]; intros Hl; [done|].
  assert (Hp : p ∈ file_paths /\ read_json w p <> Some JNull)
    by (apply Hl, list_elem_of_here).
  destruct Hp as [Hp Hnull].
  assert (IH' : length (filter (marked (JSONUtilsAsync.load_multiple_json_files w file_paths)) l)
                = length (filter (failed w) l)).
  { apply IH. intros q Hq. by apply Hl, list_elem_of_further. }
  assert (Hm : marked (JSONUtilsAsync.load_multiple_json_files w file_paths) p
               = failed w p).
  { unfold marked, failed. rewrite async_load_entry by done.
    by destruct (read_json w p) as [[]|]. }
  destruct (failed w p) eqn:Hf.
  - rewrite (filter_cons_True (marked _)) by (apply Is_true_true_2, Hm).
    rewrite (filter_cons_True (failed w)) by (apply Is_true_true_2, Hf).
    simpl. by rewrite IH'.
  - rewrite (filter_cons_False (marked _)) by (apply Is_true_false_2, Hm).
    rewrite (filter_cons_False (failed w)) by (apply Is_true_false_2, Hf).
    exact IH'.
Qed.

(** C3, as the code has it: for pairwise distinct paths the three strategies
    return the same map; it has one entry per path; a path that cannot be read
    or decoded has the entry [None], every other path has the document its
    file decodes to; and when no file holds [null], the paths with the entry
    [None] are as many as the paths that failed. *)
Theorem batch_load_result (w : World) (file_paths : list string)
    (max_workers workers : Z) (order : list nat) :
  NoDup file_paths ->
  (0 < max_workers)%Z -> (1 <= workers)%Z ->
  order ≡ₚ seq 0 (length file_paths) ->
  JSONUtils.load_multiple_json_files w file_paths max_workers order
    = Some (JSONUtilsAsync.load_multiple_json_files w file_paths) /\
  JSONUtilsProcess.load_multiple_json_files w file_paths workers
    = Some (JSONUtilsAsync.load_multiple_json_files w file_paths) /\
  size (JSONUtilsAsync.load_multiple_json_files w file_paths) = length file_paths /\
  (forall p, p ∈ file_paths -> read_json w p = None ->
     JSONUtilsAsync.load_multiple_json_files w file_paths !! p = Some JNull) /\
  (forall p d, p ∈ file_paths -> read_json w p = Some d ->
     JSONUtilsAsync.load_multiple_json_files w file_paths !! p = Some d) /\
  ((forall p, p ∈ file_paths -> read_json w p <> Some JNull) ->
   length (filter (marked (JSONUtilsAsync.load_multiple_json_files w file_paths)) file_paths)
   = length (filter (failed w) file_paths)).
Proof.
  intros Hnd Hmw Hwk Hord.
  split; [by apply thread_load_eq|].
  split; [by apply process_load_eq|].
  split; [by apply async_load_size|].
  split; [|split].
  - intros p Hp Hr. by rewrite async_load_entry, Hr.
  - intros p d Hp Hr. by rewrite async_load_entry, Hr.
  - intros Hnull. apply marked_iff_failed. intros p Hp. split; [done|]. by apply Hnull.
Qed.

Lemma batch_load_result_witness :
  let w := disk [("a.json", JDict [("k", JInt 1)]); ("b.json", JList []);
                 ("n.json", JNull)] [] in
  let paths := ["a.json"; "missing.json"; "b.json"] in
  let more := ["n.json"; "missing.json"; "a.json"] in
  (size (JSONUtilsAsync.load_multiple_json_files w paths) = 3%nat /\
   JSONUtils.load_multiple_json_files w paths 10 [2; 0; 1]%nat
     = Some (JSONUtilsAsync.load_multiple_json_files w paths) /\
   length (filter (marked (JSONUtilsAsync.load_multiple_json_files w paths)) paths)
     = 1%nat) /\
  (size (JSONUtilsAsync.load_multiple_json_files w more) = 3%nat /\
   JSONUtilsAsync.load_multiple_json_files w more !! "n.json" = Some JNull /\
   JSONUtilsAsync.load_multiple_json_files w more !! "missing.json" = Some JNull /\
   JSONUtilsAsync.load_multiple_json_files w more !! "a.json"
     = Some (JDict [("k", JInt 1)])).
Proof.
  intros w paths more.
  assert (Hord : [2; 0; 1]%nat ≡ₚ seq 0 3).
  { simpl. rewrite (Permutation_swap 0%nat 2%nat [1%nat]).
    apply perm_skip, Permutation_swap. }
  split.
  - assert (Hnd : NoDup paths) by (apply (bool_decide_unpack _); vm_compute; reflexivity).
    assert (Hnull : forall p, p ∈ paths -> read_json w p <> Some JNull).
    { intros p Hp. unfold paths in Hp. rewrite !elem_of_cons, elem_of_nil in Hp.
      destruct Hp as [-> | [-> | [-> | []]]]; vm_compute; discriminate. }
    destruct (batch_load_result w paths 10 4 [2; 0; 1]%nat Hnd
                ltac:(lia) ltac:(lia) Hord) as (Ht & _ & Hs & _ & _ & Hc).
    split; [exact Hs|]. split; [exact Ht|]. rewrite (Hc Hnull). vm_compute. reflexivity.
  - assert (Hnd : NoDup more) by (apply (bool_decide_unpack _); vm_compute; reflexivity).
    destruct (batch_load_result w more 10 4 [2; 0; 1]%nat Hnd
                ltac:(lia) ltac:(lia) Hord) as (_ & _ & Hs & Hfail & Hdoc & _).
    split; [exact Hs|]. split; [|split].
    + apply (Hdoc "n.json" JNull); [|reflexivity].
      apply (bool_decide_unpack _). vm_compute. reflexivity.
    + apply (Hfail "missing.json"); [|reflexivity].
      apply (bool_decide_unpack _). vm_compute. reflexivity.
    + apply (Hdoc "a.json"); [|reflexivity].
      apply (bool_decide_unpack _). vm_compute. reflexivity.
Defined.

(** C3 as stated fails on a path given twice (two paths, one entry) and on a
    file that holds [null] (no failure, one entry [None]). *)
Lemma batch_load_result_counterexample :
  (length ["a.json"; "a.json"] = 2%nat /\
   length (filter (failed (disk [("a.json", JInt 1)] [])) ["a.json"; "a.json"]) = 0%nat /\
   size (JSONUtilsAsync.load_multiple_json_files
           (disk [("a.json", JInt 1)] []) ["a.json"; "a.json"]) = 1%nat) /\
  (length (filter (failed (disk [("n.json", JNull)] [])) ["n.json"]) = 0%nat /\
   length (filter (marked (JSONUtilsAsync.load_multiple_json_files
                             (disk [("n.json", JNull)] []) ["n.json"])) ["n.json"])
   = 1%nat).
Proof. vm_compute. repeat split; reflexivity. Qed.

(** C2, as the code has it: the entry of a path is the document its file
    decodes to, or [None] when reading or decoding fails, in all three
    strategies; so the entry is [None] exactly when the read failed or the
    file holds [null], and a document other than [null] is never mistaken for
    a failure. *)
Theorem batch_load_marker (w : World) (file_paths : list string)
    (max_workers workers : Z) (order : list nat) (p : string) :
  p ∈ file_paths ->
  (0 < max_workers)%Z -> (1 <= workers)%Z ->
  order ≡ₚ seq 0 (length file_paths) ->
  JSONUtils.load_multiple_json_files w file_paths max_workers order
    = Some (JSONUtilsAsync.load_multiple_json_files w file_paths) /\
  JSONUtilsProcess.load_multiple_json_files w file_paths workers
    = Some (JSONUtilsAsync.load_multiple_json_files w file_paths) /\
  (forall d, read_json w p = Some d ->
     JSONUtilsAsync.load_multiple_json_files w file_paths !! p = Some d) /\
  (JSONUtilsAsync.load_multiple_json_files w file_paths !! p = Some JNull
   <-> read_json w p = None \/ read_json w p = Some JNull).
Proof.
  intros Hp Hmw Hwk Hord.
  split; [by apply thread_load_eq|].
  split; [by apply process_load_eq|].
  rewrite async_load_entry by done. split.
  - by intros d ->.
  - destruct (read_json w p) as [d|]; simpl.
    + split; [intros [= ->]; by right | by intros [? | [= ->]]].
    + split; [by left | done].
Qed.

Lemma batch_load_marker_witness :
  let w := disk [("a.json", JDict [("k", JInt 1)])] [] in
  JSONUtilsAsync.load_multiple_json_files w ["a.json"; "missing.json"] !! "a.json"
    = Some (JDict [("k", JInt 1)]) /\
  JSONUtilsProcess.load_multiple_json_files w ["a.json"; "missing.json"] 4
    = Some (JSONUtilsAsync.load_multiple_json_files w ["a.json"; "missing.json"]).
Proof.
  intros w.
  destruct (batch_load_marker w ["a.json"; "missing.json"] 10 4 [1; 0]%nat "a.json")
    as (_ & Hpr & Hd & _).
  - apply list_elem_of_here.
  - lia.
  - lia.
  - simpl. apply Permutation_swap.
  - split; [|exact Hpr]. apply Hd. reflexivity.
Defined.

(** C2 as stated fails: a file that holds [null] and a file that is missing
    give the same entry, in each of the three strategies. *)
Lemma absence_marker_counterexample :
  read_json (disk [("n.json", JNull)] []) "n.json" = Some JNull /\
  read_json (disk [] []) "n.json" = None /\
  JSONUtilsAsync.load_multiple_json_files (disk [("n.json", JNull)] []) ["n.json"] !! "n.json"
    = Some JNull /\
  JSONUtilsAsync.load_multiple_json_files (disk [] []) ["n.json"] !! "n.json"
    = Some JNull /\
  (JSONUtils.load_multiple_json_files (disk [("n.json", JNull)] []) ["n.json"] 10 [0%nat]
   ≫= fun r => r !! "n.json") = Some JNull /\
  (JSONUtils.load_multiple_json_files (disk [] []) ["n.json"] 10 [0%nat]
   ≫= fun r => r !! "n.json") = Some JNull /\
  (JSONUtilsProcess.load_multiple_json_files (disk [("n.json", JNull)] []) ["n.json"] 4
   ≫= fun r => r !! "n.json") = Some JNull /\
  (JSONUtilsProcess.load_multiple_json_files (disk [] []) ["n.json"] 4
   ≫= fun r => r !! "n.json") = Some JNull.
Proof. vm_compute. repeat split; reflexivity. Qed.

(** ** Batch saves *)












(** The writers are not the same: with no keyword argument given, the
    thread pool writes with [ensure_ascii=False] and fails on a document
    that can only be written escaped, which the other two write. *)
Lemma writers_differ :
  let w := escaping_disk (fun d => match d with JStr _ => true | _ => false end) in
  let pairs := [("s.json", JStr "s")] in
  JSONUtils.save_multiple_json_files w pairs 10 (only tt) [0%nat] = Some [] /\
  JSONUtilsAsync.save_multiple_json_files w pairs (only tt) = ["s.json"] /\
  JSONUtilsProcess.save_multiple_json_files w pairs 4 (only tt) = Some ["s.json"].
Proof. vm_compute. repeat split; reflexivity. Qed.






(** ** Compound keys: joining and splitting *)

Lemma append_cons c (s t : string) : (String c s ++ t)%string = String c (s ++ t).
Proof. reflexivity. Qed.

Lemma string_app_assoc (s t u : string) : ((s ++ t) ++ u = s ++ t ++ u)%string.
Proof. induction s as [|c s IH]; [done|]. by rewrite !append_cons, IH. Qed.

Lemma split_go_nonempty sep s skip : split_go sep s skip <> [].
Proof.
  revert skip. induction s as [|c s IH]; intros skip; cbn [split_go]; [done|].
  destruct skip; [|apply IH].
  destruct (String.prefix sep (String c s)); [done|].
  by destruct (split_go sep s 0).
Qed.

Lemma prefix_dot c s : String.prefix "." (String c s) = Ascii.eqb c ".".
Proof.
  change (String.prefix "." (String c s))
    with (if Ascii.ascii_dec "." c then String.prefix "" s else false).
  destruct (Ascii.ascii_dec "." c) as [<- | Hne].
  - by destruct s.
  - symmetry. apply Ascii.eqb_neq. congruence.
Qed.

Lemma split_go_dot_cons c s :
  split_go "." (String c s) 0
  = if Ascii.eqb c "." then "" :: split_go "." s 0
    else match split_go "." s 0 with
         | piece :: pieces => String c piece :: pieces
         | [] => [String c ""]
         end.
Proof. cbn [split_go]. by rewrite prefix_dot. Qed.

Lemma split_go_no_dot s : no_dot s = true -> split_go "." s 0 = [s].
Proof.
  induction s as [|c s IH]; [done|].
  cbn [no_dot]. intros [Hc Hs]%andb_true_iff.
  rewrite split_go_dot_cons, IH by done.
  apply negb_true_iff in Hc. by rewrite Hc.
Qed.

Lemma split_go_app s t :
  no_dot s = true ->
  split_go "." (s ++ "." ++ t) 0 = s :: split_go "." t 0.
Proof.
  induction s as [|c s IH]; intros Hs.
  - change ("" ++ "." ++ t)%string with (String "." t).
    by rewrite split_go_dot_cons.
  - cbn [no_dot] in Hs. apply andb_true_iff in Hs as [Hc Hs].
    change (String c s ++ "." ++ t)%string with (String c (s ++ "." ++ t)).
    rewrite split_go_dot_cons, IH by done.
    apply negb_true_iff in Hc. by rewrite Hc.
Qed.

(** Splitting the join of separator-free segments gives the segments back. *)
Lemma split_join p :
  p <> [] -> Forall (fun k => no_dot k = true) p ->
  py_split (join "." p) "." = Some p.
Proof.
  intros Hne Hp. unfold py_split. simpl. f_equal.
  induction p as [|k p IH]; [done|].
  apply Forall_cons in Hp as [Hk Hp].
  destruct p as [|k' p].
  - by apply split_go_no_dot.
  - cbn [join]. rewrite split_go_app by done. f_equal. by apply IH.
Qed.

(** Joining the pieces of a split gives the string back. *)
Lemma join_split s : join "." (split_go "." s 0) = s.
Proof.
  induction s as [|c s IH]; [done|].
  rewrite split_go_dot_cons.
  pose proof (split_go_nonempty "." s 0) as Hne.
  destruct (Ascii.eqb c ".") eqn:Hc.
  - apply Ascii.eqb_eq in Hc. subst c.
    destruct (split_go "." s 0) as [|piece pieces]; [done|].
    cbn [join]. cbn [join] in IH. by rewrite IH.
  - destruct (split_go "." s 0) as [|piece pieces]; [done|].
    destruct pieces as [|piece' pieces]; cbn [join] in *.
    + by rewrite IH.
    + rewrite append_cons. by rewrite IH.
Qed.

Lemma segment_nonempty k : segment k = true -> k <> "".
Proof.
  unfold segment. intros [Hk _]%andb_true_iff.
  apply negb_true_iff in Hk. by apply String.eqb_neq.
Qed.

Lemma segment_no_dot k : segment k = true -> no_dot k = true.
Proof. unfold segment. by intros [_ Hk]%andb_true_iff. Qed.

Lemma join_inj p q :
  p <> [] -> q <> [] ->
  Forall (fun k => no_dot k = true) p -> Forall (fun k => no_dot k = true) q ->
  join "." p = join "." q -> p = q.
Proof.
  intros Hp Hq Fp Fq Heq.
  assert (Hsp : py_split (join "." p) "." = Some p) by (by apply split_join).
  assert (Hsq : py_split (join "." q) "." = Some q) by (by apply split_join).
  rewrite Heq in Hsp. congruence.
Qed.

(** ** [flatten_json] as a list of leaves *)

Lemma paths_dict m :
  paths (JDict m) = reverse m ≫= (fun kv => under kv.1 (paths kv.2)).
Proof.
  cbn [paths]. induction m as [|[k v] m IH]; [done|].
  rewrite reverse_cons, bind_app, IH. cbn. by rewrite app_nil_r.
Qed.

Lemma paths_list l :
  paths (JList l)
  = reverse (JSONUtils.enumerate l) ≫= (fun iv => under (str_of_nat iv.1) (paths iv.2)).
Proof.
  cbn [paths]. unfold JSONUtils.enumerate. generalize 0%nat as i.
  induction l as [|v l IH]; intros i; [done|].
  cbn [length seq combine]. rewrite reverse_cons, bind_app, IH. cbn.
  by rewrite app_nil_r.
Qed.

Lemma flatten_items_spec parent sep m stack :
  JSONUtils.flatten_items parent sep m stack
  = reverse ((fun kv => (kv.2, JSONUtils.new_key parent sep kv.1)) <$> m) ++ stack.
Proof.
  unfold JSONUtils.flatten_items. revert stack.
  induction m as [|[k v] m IH]; intros stack; [done|].
  cbn [fold_left fmap list_fmap]. rewrite IH, reverse_cons, <- app_assoc. done.
Qed.

Lemma flatten_elems_spec parent sep l stack :
  JSONUtils.flatten_elems parent sep l stack
  = reverse ((fun iv : nat * doc =>
                (iv.2, JSONUtils.new_key parent sep (str_of_nat iv.1)))
             <$> JSONUtils.enumerate l) ++ stack.
Proof.
  unfold JSONUtils.flatten_elems. generalize (JSONUtils.enumerate l) as il.
  intros il. revert stack.
  induction il as [|[i v] il IH]; intros stack; [done|].
  cbn [fold_left fmap list_fmap]. rewrite IH, reverse_cons, <- app_assoc. done.
Qed.

Lemma emitted_children {A} sep parent (seg : A -> string) (val : A -> doc) (l : list A) :
  ((fun x => (val x, JSONUtils.new_key parent sep (seg x))) <$> l) ≫= emitted sep
  = (fun pv => (path_key sep parent pv.1, pv.2))
    <$> (l ≫= (fun x => under (seg x) (paths (val x)))).
Proof.
  induction l as [|x l IH]; [done|].
  cbn [fmap list_fmap]. rewrite !bind_cons, fmap_app, IH. f_equal.
  unfold emitted, under. cbn [fst snd].
  rewrite <- list_fmap_compose. by apply list_fmap_ext.
Qed.

Lemma emitted_dict sep parent m :
  emitted sep (JDict m, parent)
  = reverse ((fun kv => (kv.2, JSONUtils.new_key parent sep kv.1)) <$> m) ≫= emitted sep.
Proof.
  rewrite <- fmap_reverse, emitted_children.
  unfold emitted. cbn [fst snd]. by rewrite paths_dict.
Qed.

Lemma emitted_list sep parent l :
  emitted sep (JList l, parent)
  = reverse ((fun iv : nat * doc =>
                (iv.2, JSONUtils.new_key parent sep (str_of_nat iv.1)))
             <$> JSONUtils.enumerate l) ≫= emitted sep.
Proof.
  rewrite <- fmap_reverse, emitted_children.
  unfold emitted. cbn [fst snd]. by rewrite paths_list.
Qed.

Lemma enumerate_values {A B} (f : nat -> B) (l : list A) :
  ((fun iv : nat * A => (iv.2, f iv.1)) <$> JSONUtils.enumerate l).*1 = l.
Proof.
  unfold JSONUtils.enumerate. generalize 0%nat as i.
  induction l as [|v l IH]; intros i; [done|].
  cbn. f_equal. apply IH.
Qed.

Lemma flatten_loop_spec sep fuel stack items :
  (flat_size stack <= fuel)%nat ->
  JSONUtils.flatten_loop fuel sep stack items
  = Some (fold_left set_item (stack ≫= emitted sep) items).
Proof.
  unfold flat_size.
  revert stack items. induction fuel as [|fuel IH]; intros stack items Hfuel.
  - destruct stack as [|[d parent] stack]; [done|].
    exfalso. unfold stack_size in Hfuel. cbn in Hfuel. destruct d; cbn in Hfuel; lia.
  - destruct stack as [|[d parent] stack]; [done|].
    assert (Hsz : stack_size (((d, parent) :: stack).*1)
                  = (doc_size d + stack_size (stack.*1))%nat) by done.
    rewrite Hsz in Hfuel. rewrite bind_cons.
    destruct d as [| b | n | x | s | l | m]; cbn [JSONUtils.flatten_loop];
      try (rewrite IH by (cbn in Hfuel; lia); done).
    + rewrite flatten_elems_spec, IH.
      * by rewrite bind_app, emitted_list.
      * rewrite doc_size_list in Hfuel.
        rewrite fmap_app, stack_size_app, fmap_reverse, stack_size_reverse.
        rewrite (enumerate_values
                   (fun i => JSONUtils.new_key parent sep (str_of_nat i)) l).
        lia.
    + rewrite flatten_items_spec, IH.
      * by rewrite bind_app, emitted_dict.
      * rewrite doc_size_dict in Hfuel.
        rewrite fmap_app, stack_size_app, fmap_reverse, stack_size_reverse.
        rewrite <- list_fmap_compose.
        assert (Hen : (fst ∘ (fun kv : string * doc =>
                         (kv.2, JSONUtils.new_key parent sep kv.1))) <$> m = m.*2).
        { by apply list_fmap_ext. }
        rewrite Hen. lia.
Qed.

(** [flatten_json] returns, and what it returns is the leaves written one
    after the other into an empty mapping. *)
Lemma flatten_json_spec d parent sep :
  JSONUtils.flatten_json d parent sep
  = Some (fold_left set_item (emitted sep (d, parent)) []).
Proof.
  unfold JSONUtils.flatten_json. rewrite flatten_loop_spec.
  - cbn. by rewrite app_nil_r.
  - unfold flat_size, stack_size. cbn. lia.
Qed.

Lemma set_items_fresh (l acc : entries) :
  NoDup ((acc ++ l).*1) -> fold_left set_item l acc = acc ++ l.
Proof.
  revert acc. induction l as [|[k v] l IH]; intros acc Hnd.
  - by rewrite app_nil_r.
  - cbn [fold_left]. unfold set_item at 2. cbn [fst snd].
    assert (Hk : k ∉ dict_keys acc).
    { rewrite fmap_app in Hnd. apply NoDup_app in Hnd as (_ & Hd & _).
      intros Hin. apply (Hd k Hin). cbn. apply list_elem_of_here. }
    rewrite dict_set_fresh by done.
    rewrite IH; rewrite <- app_assoc; done.
Qed.

(** ** [unflatten_json] as a sequence of insertions *)

Lemma put_single m k v : put (JDict m) [k] v = Some (JDict (dict_set k v m)).
Proof. reflexivity. Qed.

Lemma put_cons m k p v :
  p <> [] ->
  put (JDict m) (k :: p) v
  = (let m' := if dict_mem k m then m else dict_set k (JDict []) m in
     child ← dict_get k m';
     child' ← put child p v;
     Some (JDict (dict_set k child' m'))).
Proof.
  intros Hp. destruct p as [|k' p]; [done|].
  unfold put. change (last (k :: k' :: p)) with (last (k' :: p)).
  change (removelast (k :: k' :: p)) with (k :: removelast (k' :: p)).
  destruct (last (k' :: p)) as [lk|] eqn:Hl; cbn [mbind option_bind].
  - reflexivity.
  - cbv zeta. destruct (dict_get k _); reflexivity.
Qed.

Lemma put_all_None l : put_all l None = None.
Proof. induction l as [|pv l IH]; [done|]. exact IH. Qed.

Lemma put_all_app l1 l2 d : put_all (l1 ++ l2) d = put_all l2 (put_all l1 d).
Proof. apply fold_left_app. Qed.

Lemma put_all_cons p v l d :
  put_all ((p, v) :: l) (Some d) = put_all l (put d p v).
Proof. reflexivity. Qed.

Lemma unflatten_step_join nested p v :
  p <> [] -> Forall (fun k => no_dot k = true) p ->
  JSONUtils.unflatten_step "." nested (join "." p, v) = put nested p v.
Proof.
  intros Hne Hp. unfold JSONUtils.unflatten_step.
  by rewrite split_join.
Qed.

Lemma unflatten_fold_join (l : list (list string * doc)) (nested : option doc) :
  Forall (fun pv => pv.1 <> [] /\ Forall (fun k => no_dot k = true) pv.1) l ->
  fold_left (fun nested item => nested ← nested; JSONUtils.unflatten_step "." nested item)
    ((fun pv => (join "." pv.1, pv.2)) <$> l) nested
  = put_all l nested.
Proof.
  revert nested. induction l as [|[p v] l IH]; intros nested Hl; [done|].
  apply Forall_cons in Hl as [[Hne Hp] Hl].
  cbn [fmap list_fmap fold_left put_all]. cbn [fst snd].
  fold (put_all l). rewrite IH by done. f_equal.
  destruct nested as [d|]; [|done]. cbn [mbind option_bind].
  by apply unflatten_step_join.
Qed.

Lemma unflatten_json_join (l : list (list string * doc)) :
  Forall (fun pv => pv.1 <> [] /\ Forall (fun k => no_dot k = true) pv.1) l ->
  JSONUtils.unflatten_json ((fun pv => (join "." pv.1, pv.2)) <$> l) "."
  = put_all l (Some (JDict [])).
Proof. apply unflatten_fold_join. Qed.

(** Entries at the end of a mapping. *)
Lemma dict_get_snoc {A} k (v : A) acc :
  k ∉ dict_keys acc -> dict_get k (acc ++ [(k, v)]) = Some v.
Proof.
  intros Hk. rewrite <- (dict_set_fresh k v acc) by done. apply dict_get_set_eq.
Qed.

Lemma dict_set_snoc {A} k (v v' : A) acc :
  k ∉ dict_keys acc -> dict_set k v' (acc ++ [(k, v)]) = acc ++ [(k, v')].
Proof.
  induction acc as [|[k0 v0] acc IH]; cbn.
  - intros _. by rewrite String.eqb_refl.
  - rewrite not_elem_of_cons. intros [Hne Hk].
    apply String.eqb_neq in Hne. rewrite Hne. by rewrite IH.
Qed.

Lemma dict_mem_snoc {A} k (v : A) acc : dict_mem k (acc ++ [(k, v)]) = true.
Proof.
  apply dict_mem_true. unfold dict_keys. rewrite map_app.
  apply elem_of_app. right. apply list_elem_of_here.
Qed.

(** Insertions below a key that is the last entry only touch that entry. *)
Lemma put_all_under k acc c (L : list (list string * doc)) :
  k ∉ dict_keys acc -> Forall (fun pv => pv.1 <> []) L ->
  put_all (under k L) (Some (JDict (acc ++ [(k, c)])))
  = c' ← put_all L (Some c); Some (JDict (acc ++ [(k, c')])).
Proof.
  intros Hk. revert c. induction L as [|[p v] L IH]; intros c HL; [done|].
  apply Forall_cons in HL as [Hp HL]. cbn [fst] in Hp.
  unfold under. cbn [fmap list_fmap fst snd]. fold (under k L).
  rewrite !put_all_cons, put_cons by done. cbv zeta.
  rewrite dict_mem_snoc, dict_get_snoc by done. cbn [mbind option_bind].
  destruct (put c p v) as [c1|]; cbn [mbind option_bind].
  - rewrite dict_set_snoc by done. by apply IH.
  - by rewrite !put_all_None.
Qed.

(** The first insertion below a new key creates its mapping. *)
Lemma put_all_under_new k acc (L : list (list string * doc)) :
  k ∉ dict_keys acc -> L <> [] -> Forall (fun pv => pv.1 <> []) L ->
  put_all (under k L) (Some (JDict acc))
  = c' ← put_all L (Some (JDict [])); Some (JDict (acc ++ [(k, c')])).
Proof.
  intros Hk Hne HL. rewrite <- (put_all_under k acc (JDict []) L Hk HL).
  destruct L as [|[p v] L]; [done|].
  apply Forall_cons in HL as [Hp HL]. cbn [fst] in Hp.
  unfold under. cbn [fmap list_fmap fst snd].
  rewrite !put_all_cons. f_equal. rewrite !put_cons by done. cbv zeta.
  apply dict_mem_false in Hk. rewrite Hk.
  apply dict_mem_false in Hk. rewrite dict_set_fresh by done.
  by rewrite dict_mem_snoc.
Qed.

(** ** Documents that survive the round trip *)

Lemma rt_value_dict m :
  rt_value (JDict m) = match m with [] => false | _ :: _ => true end && rt_entries m.
Proof.
  cbn [rt_value]. f_equal. unfold rt_entries.
  induction m as [|[k v] m IH]; [done|]. cbn [forallb fst snd]. by rewrite IH.
Qed.

Lemma rt_entries_cons k v m :
  rt_entries ((k, v) :: m) = no_dot k && rt_value v && rt_entries m.
Proof. reflexivity. Qed.

Lemma mirror_dict m : mirror (JDict m) = JDict (mirror_entries m).
Proof.
  cbn [mirror]. f_equal. unfold mirror_entries.
  induction m as [|[k v] m IH]; [done|].
  cbn [fmap list_fmap fst snd]. by rewrite reverse_cons, IH.
Qed.

Lemma mirror_list l : mirror (JList l) = JList (mirror <$> l).
Proof. reflexivity. Qed.

Lemma mirror_entries_cons k v m :
  mirror_entries ((k, v) :: m) = mirror_entries m ++ [(k, mirror v)].
Proof. unfold mirror_entries. cbn [fmap list_fmap fst snd]. by rewrite reverse_cons. Qed.

Lemma dict_keys_mirror_entries m : dict_keys (mirror_entries m) = reverse (dict_keys m).
Proof.
  unfold mirror_entries, dict_keys.
  change (map fst ?l) with (fst <$> l).
  rewrite fmap_reverse, <- list_fmap_compose. done.
Qed.

Lemma wf_doc_dict m :
  wf_doc (JDict m) <-> NoDup (dict_keys m) /\ Forall (fun kv => wf_doc kv.2) m.
Proof.
  cbn [wf_doc]. apply and_iff_compat_l.
  induction m as [|[k v] m IH]; [by split|].
  rewrite Forall_cons, <- IH. done.
Qed.

Lemma wf_doc_list l : wf_doc (JList l) <-> Forall wf_doc l.
Proof.
  cbn [wf_doc]. induction l as [|v l IH]; [by split|].
  rewrite Forall_cons, <- IH. done.
Qed.

Lemma paths_dict_cons k v m :
  paths (JDict ((k, v) :: m)) = paths (JDict m) ++ under k (paths v).
Proof. reflexivity. Qed.

Lemma paths_scalar d : is_scalar d = true -> paths d = [([], d)].
Proof. by destruct d. Qed.

Lemma mirror_scalar d : is_scalar d = true -> mirror d = d.
Proof. by destruct d. Qed.

(** Every leaf of a mapping lies below one of its keys. *)
Lemma paths_dict_head m p v :
  (p, v) ∈ paths (JDict m) -> exists k p', p = k :: p' /\ k ∈ dict_keys m.
Proof.
  induction m as [|[k0 v0] m IH]; [by intros ?%elem_of_nil|].
  rewrite paths_dict_cons, elem_of_app. intros [Hin | Hin].
  - destruct (IH Hin) as (k & p' & -> & Hk). exists k, p'. split; [done|].
    cbn. by apply list_elem_of_further.
  - unfold under in Hin. apply list_elem_of_fmap in Hin as ([p' v'] & [= -> ->] & _).
    exists k0, p'. split; [done|]. cbn. apply list_elem_of_here.
Qed.

Lemma paths_dict_nonempty_path m :
  Forall (fun pv => pv.1 <> []) (paths (JDict m)).
Proof.
  apply Forall_forall. intros [p v] Hin.
  destruct (paths_dict_head m p v Hin) as (k & p' & -> & _). done.
Qed.

(** A value below the root has a leaf. *)
Lemma paths_nonempty d : rt_value d = true -> paths d <> [].
Proof.
  induction d as [| | | | | l IH | m IH] using doc_nested_ind; intros Hrt; try done.
  rewrite rt_value_dict in Hrt. destruct m as [|[k v] m]; [done|].
  rewrite rt_entries_cons in Hrt. cbn [andb] in Hrt.
  apply andb_true_iff in Hrt as [Hkv _]. apply andb_true_iff in Hkv as [_ Hv].
  apply Forall_cons in IH as [IHv _]. cbn [snd] in IHv.
  rewrite paths_dict_cons. intros Heq. apply app_eq_nil in Heq as [_ Heq].
  apply fmap_nil_inv in Heq. by apply IHv.
Qed.

(** The shape of a value below the root. *)
Lemma rt_value_cases v :
  rt_value v = true ->
  is_scalar v = true \/ exists mv, v = JDict mv /\ mv <> [] /\ rt_entries mv = true.
Proof.
  destruct v as [| | | | | l | mv]; try (by left); try done.
  rewrite rt_value_dict. intros [Hne Hrt]%andb_true_iff.
  right. exists mv. split; [done|]. split; [|done]. by destruct mv.
Qed.

(** Inserting the leaves of the entries [m] into a mapping that has none of
    their keys appends the entries, mirrored. *)
Lemma put_all_paths_entries m acc :
  Forall (fun kv => forall mv, kv.2 = JDict mv -> rt_entries mv = true -> wf_doc kv.2 ->
            put_all (paths kv.2) (Some (JDict [])) = Some (mirror kv.2)) m ->
  rt_entries m = true -> NoDup (dict_keys m) -> Forall (fun kv => wf_doc kv.2) m ->
  (forall k, k ∈ dict_keys m -> k ∉ dict_keys acc) ->
  put_all (paths (JDict m)) (Some (JDict acc)) = Some (JDict (acc ++ mirror_entries m)).
Proof.
  induction m as [|[k v] m IHm]; intros IH Hrt Hnd Hwf Hacc.
  - cbn. by rewrite app_nil_r.
  - apply Forall_cons in IH as [IHv IH]. cbn [snd] in IHv.
    rewrite rt_entries_cons in Hrt.
    apply andb_true_iff in Hrt as [[Hk Hv]%andb_true_iff Hrt].
    cbn [dict_keys map fst] in Hnd. apply NoDup_cons in Hnd as [Hkm Hnd].
    apply Forall_cons in Hwf as [Hwv Hwf]. cbn [snd] in Hwv.
    rewrite paths_dict_cons, put_all_app, mirror_entries_cons.
    rewrite IHm; try done.
    2:{ intros k' Hk'. apply Hacc. cbn. by apply list_elem_of_further. }
    assert (Hfresh : k ∉ dict_keys (acc ++ mirror_entries m)).
    { unfold dict_keys at 1. rewrite map_app. fold (dict_keys acc).
      fold (dict_keys (mirror_entries m)). rewrite dict_keys_mirror_entries.
      rewrite not_elem_of_app, elem_of_reverse. split; [|done].
      apply Hacc. cbn. apply list_elem_of_here. }
    rewrite app_assoc.
    destruct (rt_value_cases v Hv) as [Hs | (mv & -> & Hne & Hmv)].
    + rewrite (paths_scalar v Hs), (mirror_scalar v Hs).
      change (under k [([], v)]) with [([k], v)].
      rewrite put_all_cons, put_single. cbn [put_all fold_left].
      by rewrite dict_set_fresh.
    + rewrite put_all_under_new; try done.
      * by rewrite (IHv mv eq_refl Hmv Hwv).
      * apply paths_nonempty. rewrite rt_value_dict, Hmv. by destruct mv.
      * apply paths_dict_nonempty_path.
Qed.

Lemma put_all_paths_mirror d m :
  d = JDict m -> rt_entries m = true -> wf_doc d ->
  put_all (paths d) (Some (JDict [])) = Some (mirror d).
Proof.
  revert m. induction d as [| | | | | l IH | m' IH] using doc_nested_ind;
    intros m Hd Hrt Hwf; try done.
  injection Hd as ->. apply wf_doc_dict in Hwf as [Hnd Hwf].
  rewrite mirror_dict. apply (put_all_paths_entries m []); try done.
  intros k _. apply not_elem_of_nil.
Qed.

(** The keys on the way to a leaf are free of the separator. *)
Lemma paths_entries_segments m :
  Forall (fun kv => rt_value kv.2 = true ->
            Forall (fun pv => Forall (fun k => no_dot k = true) pv.1) (paths kv.2)) m ->
  rt_entries m = true ->
  Forall (fun pv => Forall (fun k => no_dot k = true) pv.1) (paths (JDict m)).
Proof.
  induction m as [|[k v] m IHm]; intros IH Hrt; [by apply Forall_nil|].
  apply Forall_cons in IH as [IHv IH]. cbn [snd] in IHv.
  rewrite rt_entries_cons in Hrt.
  apply andb_true_iff in Hrt as [[Hk Hv]%andb_true_iff Hrt].
  rewrite paths_dict_cons. apply Forall_app. split; [by apply IHm|].
  unfold under. apply Forall_fmap. eapply Forall_impl; [by apply IHv|].
  intros [p x] Hp. cbn. by apply Forall_cons.
Qed.

Lemma paths_segments d :
  rt_value d = true ->
  Forall (fun pv => Forall (fun k => no_dot k = true) pv.1) (paths d).
Proof.
  induction d as [| | | | | l IH | m IH] using doc_nested_ind; intros Hrt;
    try (by apply Forall_cons_2; [apply Forall_nil_2 | apply Forall_nil_2]);
    try done.
  rewrite rt_value_dict in Hrt. apply andb_true_iff in Hrt as [_ Hrt].
  by apply paths_entries_segments.
Qed.

(** Different leaves have different paths. *)
Lemma paths_entries_NoDup m :
  Forall (fun kv => rt_value kv.2 = true -> wf_doc kv.2 -> NoDup (paths kv.2).*1) m ->
  rt_entries m = true -> NoDup (dict_keys m) -> Forall (fun kv => wf_doc kv.2) m ->
  NoDup (paths (JDict m)).*1.
Proof.
  induction m as [|[k v] m IHm]; intros IH Hrt Hnd Hwf; [by apply NoDup_nil|].
  apply Forall_cons in IH as [IHv IH]. cbn [snd] in IHv.
  rewrite rt_entries_cons in Hrt.
  apply andb_true_iff in Hrt as [[Hk Hv]%andb_true_iff Hrt].
  cbn [dict_keys map fst] in Hnd. apply NoDup_cons in Hnd as [Hkm Hnd].
  apply Forall_cons in Hwf as [Hwv Hwf]. cbn [snd] in Hwv.
  rewrite paths_dict_cons, fmap_app. apply NoDup_app. split; [by apply IHm|]. split.
  - intros p Hp Hp'.
    apply list_elem_of_fmap in Hp as ([p0 x] & -> & Hp).
    destruct (paths_dict_head m p0 x Hp) as (k' & p' & Heq & Hk'). cbn in Hp'.
    unfold under in Hp'. rewrite <- list_fmap_compose in Hp'.
    apply list_elem_of_fmap in Hp' as ([q y] & Hq & _). cbn in Hq.
    rewrite Heq in Hq. injection Hq as -> _. done.
  - unfold under. rewrite <- list_fmap_compose.
    change (fst ∘ (fun pv : list string * doc => (k :: pv.1, pv.2)))
      with ((cons k) ∘ (@fst (list string) doc)).
    rewrite list_fmap_compose. apply NoDup_fmap_2; [|by apply IHv].
    intros p q. congruence.
Qed.

Lemma paths_NoDup d : rt_value d = true -> wf_doc d -> NoDup (paths d).*1.
Proof.
  induction d as [| | | | | l IH | m IH] using doc_nested_ind; intros Hrt Hwf;
    try (by apply NoDup_singleton); try done.
  rewrite rt_value_dict in Hrt. apply andb_true_iff in Hrt as [_ Hrt].
  apply wf_doc_dict in Hwf as [Hnd Hwf].
  apply paths_entries_NoDup; try done.
Qed.

(** ** Python equality *)

Lemma dyadic_eqb_refl a : dyadic_eqb a a = true.
Proof. unfold dyadic_eqb. apply Z.eqb_refl. Qed.

Lemma dyadic_eqb_sym a b : dyadic_eqb a b = dyadic_eqb b a.
Proof. unfold dyadic_eqb. rewrite (Z.min_comm b.2 a.2). apply Z.eqb_sym. Qed.

Lemma float_eq_in_refl x : float_eq_in x x = true.
Proof.
  destruct x as [s|s m e|s|i]; cbn.
  - apply dyadic_eqb_refl.
  - apply dyadic_eqb_refl.
  - by destruct s.
  - apply Pos.eqb_refl.
Qed.

Lemma float_eq_in_sym x y : float_eq_in x y = float_eq_in y x.
Proof.
  destruct x as [s|s m e|s|i], y as [s'|s' m' e'|s'|i']; cbn; try done;
    try apply dyadic_eqb_sym.
  - by destruct s, s'.
  - apply Pos.eqb_sym.
Qed.

Lemma py_eq_dict_in m y : py_eq (JDict m) y = py_eq_in (JDict m) y.
Proof. reflexivity. Qed.

Lemma py_eq_not_nan x y : is_nan x = false -> py_eq x y = py_eq_in x y.
Proof. unfold py_eq. by intros ->. Qed.

Lemma py_eq_nan x y : is_nan x = true -> py_eq x y = false.
Proof. unfold py_eq. by intros ->. Qed.

Lemma py_eq_in_dict m n :
  py_eq_in (JDict m) (JDict n)
  = Nat.eqb (length m) (length n) &&
    forallb (fun kv => match dict_get kv.1 n with
                       | Some w => py_eq_in kv.2 w
                       | None => false
                       end) m.
Proof.
  cbn [py_eq_in]. f_equal. induction m as [|[k v] m IH]; [done|].
  cbn [forallb fst snd]. by rewrite IH.
Qed.

Lemma py_eq_in_dict_intro m n :
  length m = length n ->
  (forall k v, (k, v) ∈ m -> exists w, dict_get k n = Some w /\ py_eq_in v w = true) ->
  py_eq_in (JDict m) (JDict n) = true.
Proof.
  intros Hlen Hall. rewrite py_eq_in_dict, Hlen, Nat.eqb_refl. cbn [andb].
  apply forallb_forall. intros [k v] Hin. cbn [fst snd].
  apply list_elem_of_In in Hin. destruct (Hall k v Hin) as (w & -> & Hw). exact Hw.
Qed.

Lemma py_eq_in_list_intro (l l' : list doc) :
  Forall2 (fun x y => py_eq_in x y = true) l l' -> py_eq_in (JList l) (JList l') = true.
Proof.
  cbn [py_eq_in]. induction 1 as [|x y l l' Hxy _ IH]; [done|].
  by rewrite Hxy, IH.
Qed.

Lemma py_eq_in_scalar_refl d : is_scalar d = true -> py_eq_in d d = true.
Proof.
  destruct d as [| b | n | x | s | |]; try done; intros _; cbn.
  - by destruct b.
  - apply Z.eqb_refl.
  - apply float_eq_in_refl.
  - apply String.eqb_refl.
Qed.

Lemma py_eq_in_mirror d : wf_doc d -> py_eq_in (mirror d) d = true.
Proof.
  induction d as [| b | n | x | s | l IH | m IH] using doc_nested_ind; intros Hwf;
    try (by apply py_eq_in_scalar_refl).
  - rewrite mirror_list. apply py_eq_in_list_intro. apply wf_doc_list in Hwf.
    induction l as [|x l IHl]; [constructor|].
    apply Forall_cons in IH as [Hx IH]. apply Forall_cons in Hwf as [Hwx Hwf].
    cbn. constructor; [by apply Hx | by apply IHl].
  - rewrite mirror_dict. apply wf_doc_dict in Hwf as [Hnd Hwf].
    apply py_eq_in_dict_intro.
    + unfold mirror_entries. by rewrite length_reverse, length_fmap.
    + intros k v' Hin. unfold mirror_entries in Hin.
      apply elem_of_reverse, list_elem_of_fmap in Hin as ([k0 v0] & [= -> ->] & Hin).
      exists v0. split; [by apply elem_of_dict_get|]. cbn [snd].
      rewrite Forall_forall in IH. rewrite Forall_forall in Hwf.
      by apply (IH (k0, v0) Hin), (Hwf (k0, v0) Hin).
Qed.

Lemma py_eq_mirror d : is_dict d = true -> wf_doc d -> py_eq (mirror d) d = true.
Proof.
  destruct d as [| | | | | |m]; try done. intros _ Hwf.
  rewrite mirror_dict, py_eq_dict_in, <- mirror_dict. by apply py_eq_in_mirror.
Qed.

(** ** [unflatten_json] after [flatten_json] *)

Lemma elem_of_paths_dict m q' x :
  (q', x) ∈ paths (JDict m)
  <-> exists k c q, q' = k :: q /\ (k, c) ∈ m /\ (q, x) ∈ paths c.
Proof.
  rewrite paths_dict, list_elem_of_bind. split.
  - intros ([k c] & Hin & Hm). rewrite elem_of_reverse in Hm.
    unfold under in Hin. cbn [fst snd] in Hin.
    apply list_elem_of_fmap in Hin as ([q y] & [= -> ->] & Hq).
    exists k, c, q. done.
  - intros (k & c & q & -> & Hm & Hq). exists (k, c). split.
    + unfold under. cbn [fst snd]. apply list_elem_of_fmap. by exists (q, x).
    + by rewrite elem_of_reverse.
Qed.

Lemma rt_doc_dict m :
  rt_doc (JDict m) = true
  <-> rt_entries m = true /\ Forall (fun kv => kv.1 = "" -> is_scalar kv.2 = true) m.
Proof.
  cbn [rt_doc]. rewrite andb_true_iff. apply and_iff_compat_l.
  rewrite forallb_forall, Forall_forall. split.
  - intros H kv Hin Hk. apply list_elem_of_In, H in Hin. rewrite Hk in Hin. exact Hin.
  - intros H kv Hin. apply list_elem_of_In in Hin.
    destruct (String.eqb kv.1 "") eqn:E; [|done].
    apply String.eqb_eq in E. exact (H kv Hin E).
Qed.

Lemma rt_doc_cases d :
  rt_doc d = true -> d = JDict [] \/ (is_dict d = true /\ rt_value d = true).
Proof.
  destruct d as [| | | | | l | m]; try done. intros [Hrt _]%rt_doc_dict.
  destruct m as [|kv m]; [by left|]. right. split; [done|].
  by rewrite rt_value_dict, Hrt.
Qed.

(** The paths of such a document start with a key that is not empty, or are
    that key alone. *)
Lemma rt_doc_paths_rooted m :
  rt_doc (JDict m) = true -> Forall (fun pv => rooted pv.1 = true) (paths (JDict m)).
Proof.
  intros [_ Hroot]%rt_doc_dict. apply Forall_forall. intros [p x] Hin.
  apply elem_of_paths_dict in Hin as (k & c & q & -> & Hkc & Hq). cbn [fst].
  destruct q as [|k' q]; [done|]. cbn [rooted].
  destruct (String.eqb k "") eqn:E; [|done]. apply String.eqb_eq in E.
  rewrite Forall_forall in Hroot. pose proof (Hroot (k, c) Hkc E) as Hc. cbn [snd] in Hc.
  rewrite (paths_scalar c Hc) in Hq. by apply list_elem_of_singleton in Hq.
Qed.

Lemma rt_paths_valid d :
  is_dict d = true -> rt_value d = true ->
  Forall (fun pv => pv.1 <> [] /\ Forall (fun k => no_dot k = true) pv.1) (paths d).
Proof.
  intros Hd Hrt. destruct d as [| | | | | |m]; try done.
  apply Forall_and. split; [apply paths_dict_nonempty_path|by apply paths_segments].
Qed.

(** The joined paths of the leaves are pairwise different. *)
Lemma flat_rows_paths_NoDup d :
  is_dict d = true -> rt_value d = true -> wf_doc d ->
  NoDup (dict_keys (flat_rows (paths d))).
Proof.
  intros Hd Hrt Hwf. pose proof (rt_paths_valid d Hd Hrt) as Hvalid.
  unfold dict_keys, flat_rows. change (map fst ?l) with (fst <$> l).
  rewrite <- list_fmap_compose.
  change (fst ∘ (fun pv : list string * doc => (join "." pv.1, pv.2)))
    with (join "." ∘ (@fst (list string) doc)).
  rewrite list_fmap_compose. apply NoDup_fmap_2_strong; [|by apply paths_NoDup].
  intros p q Hp Hq Heq.
  apply list_elem_of_fmap in Hp as ([p0 x] & -> & Hp).
  apply list_elem_of_fmap in Hq as ([q0 y] & -> & Hq).
  rewrite Forall_forall in Hvalid.
  destruct (Hvalid _ Hp) as [Hp1 Hp2]. destruct (Hvalid _ Hq) as [Hq1 Hq2].
  by apply join_inj.
Qed.

(** Under a parent key that is not empty the keys are joined as they are. *)
Lemma path_key_parent sep parent p :
  parent <> "" -> p <> [] ->
  path_key sep parent p = (parent ++ sep ++ join sep p)%string.
Proof.
  unfold path_key. revert parent.
  induction p as [|k p IH]; intros parent Hparent Hne; [done|].
  cbn [fold_left].
  assert (Hnk : JSONUtils.new_key parent sep k = (parent ++ sep ++ k)%string).
  { unfold JSONUtils.new_key. apply String.eqb_neq in Hparent. by rewrite Hparent. }
  destruct p as [|k' p]; [exact Hnk|].
  rewrite IH; [|rewrite Hnk; destruct parent; [done|by rewrite append_cons]|done].
  rewrite Hnk. cbn [join]. by rewrite !string_app_assoc.
Qed.

(** With no parent key, a path that starts with a key that is not empty, or
    is one key, is joined as it is. *)
Lemma path_key_rooted p :
  p <> [] -> rooted p = true -> path_key "." "" p = join "." p.
Proof.
  destruct p as [|k [|k' p]]; [done|done|]. intros _ Hk. cbn [rooted] in Hk.
  apply negb_true_iff, String.eqb_neq in Hk.
  change (path_key "." "" (k :: k' :: p)) with (path_key "." k (k' :: p)).
  by rewrite path_key_parent.
Qed.

(** On a mapping whose keys are free of ["."], without sequences and empty
    mappings, whose paths are rooted, [flatten_json] returns the leaves, each
    under the join of the keys that lead to it. *)
Lemma flatten_json_rooted m :
  trie m -> Forall (fun pv => rooted pv.1 = true) (paths (JDict m)) ->
  JSONUtils.flatten_json (JDict m) "" "." = Some (flat_rows (paths (JDict m))).
Proof.
  intros [Hrt Hwf] Hrooted. destruct m as [|kv m]; [done|].
  assert (Hv : rt_value (JDict (kv :: m)) = true) by (by rewrite rt_value_dict, Hrt).
  rewrite flatten_json_spec. f_equal.
  pose proof (rt_paths_valid (JDict (kv :: m)) eq_refl Hv) as Hvalid.
  assert (Hrows : emitted "." (JDict (kv :: m), "") = flat_rows (paths (JDict (kv :: m)))).
  { unfold emitted, flat_rows. cbn [fst snd]. apply Forall_fmap_ext.
    rewrite Forall_forall in Hvalid. rewrite Forall_forall in Hrooted.
    apply Forall_forall. intros [p v] Hin.
    destruct (Hvalid _ Hin) as [Hne _]. pose proof (Hrooted _ Hin) as Hr.
    cbn [fst snd] in *. f_equal. by apply path_key_rooted. }
  rewrite Hrows. rewrite set_items_fresh; [done|].
  rewrite app_nil_l. by apply flat_rows_paths_NoDup.
Qed.

Lemma flatten_json_rt d :
  rt_doc d = true -> wf_doc d ->
  JSONUtils.flatten_json d "" "." = Some (flat_rows (paths d)).
Proof.
  intros Hrt Hwf. destruct d as [| | | | | |m]; try done.
  apply flatten_json_rooted; [|by apply rt_doc_paths_rooted].
  split; [|done]. by apply rt_doc_dict in Hrt as [? _].
Qed.

Lemma unflatten_json_rows (l : list (list string * doc)) :
  Forall (fun pv => pv.1 <> [] /\ Forall (fun k => no_dot k = true) pv.1) l ->
  JSONUtils.unflatten_json (flat_rows l) "." = put_all l (Some (JDict [])).
Proof.
  intros Hl. by apply unflatten_json_join.
Qed.

(** ** [flatten_json] after [unflatten_json] *)

Lemma split_go_no_dot_pieces s : Forall (fun k => no_dot k = true) (split_go "." s 0).
Proof.
  induction s as [|c s IH]; [by apply Forall_singleton|].
  rewrite split_go_dot_cons. pose proof (split_go_nonempty "." s 0) as Hne.
  destruct (Ascii.eqb c ".") eqn:Hc.
  - by apply Forall_cons_2.
  - destruct (split_go "." s 0) as [|piece pieces]; [done|].
    apply Forall_cons in IH as [Hp IH]. apply Forall_cons_2; [|done].
    cbn [no_dot]. by rewrite Hc, Hp.
Qed.

Lemma paths_dict_app m1 m2 :
  paths (JDict (m1 ++ m2)) = paths (JDict m2) ++ paths (JDict m1).
Proof. by rewrite !paths_dict, reverse_app, bind_app. Qed.

Lemma paths_dict_middle m1 k c m2 :
  paths (JDict (m1 ++ (k, c) :: m2))
  = paths (JDict m2) ++ under k (paths c) ++ paths (JDict m1).
Proof.
  rewrite paths_dict_app. change ((k, c) :: m2) with ([(k, c)] ++ m2).
  rewrite paths_dict_app, <- app_assoc. reflexivity.
Qed.

Lemma dict_get_split {A} k (c : A) m :
  dict_get k m = Some c ->
  exists m1 m2, m = m1 ++ (k, c) :: m2 /\ k ∉ dict_keys m1.
Proof.
  induction m as [|[k0 v0] m IH]; [done|]. cbn [dict_get].
  destruct (String.eqb k k0) eqn:E.
  - apply String.eqb_eq in E. subst k0. intros [= ->].
    exists [], m. split; [done|]. apply not_elem_of_nil.
  - intros Hget. destruct (IH Hget) as (m1 & m2 & -> & Hk).
    exists ((k0, v0) :: m1), m2. split; [done|].
    cbn. apply not_elem_of_cons. split; [|done]. by apply String.eqb_neq.
Qed.

Lemma dict_set_middle {A} k (c c' : A) m1 m2 :
  k ∉ dict_keys m1 ->
  dict_set k c' (m1 ++ (k, c) :: m2) = m1 ++ (k, c') :: m2.
Proof.
  induction m1 as [|[k0 v0] m1 IH]; cbn.
  - intros _. by rewrite String.eqb_refl.
  - rewrite not_elem_of_cons. intros [Hne Hk].
    apply String.eqb_neq in Hne. rewrite Hne. by rewrite IH.
Qed.

Lemma rt_entries_app m1 m2 :
  rt_entries (m1 ++ m2) = rt_entries m1 && rt_entries m2.
Proof. apply forallb_app. Qed.

Lemma trie_nil : trie [].
Proof. split; [done|]. apply wf_doc_dict. split; [apply NoDup_nil_2|apply Forall_nil_2]. Qed.

Lemma rt_value_trie m : m <> [] -> trie m -> rt_value (JDict m) = true.
Proof. intros Hne [Hrt _]. rewrite rt_value_dict, Hrt. by destruct m. Qed.

Lemma scalar_rt_value v : is_scalar v = true -> rt_value v = true.
Proof. by destruct v. Qed.

Lemma scalar_wf v : is_scalar v = true -> wf_doc v.
Proof. by destruct v. Qed.

(** A new last entry. *)
Lemma trie_snoc m k x :
  trie m -> k ∉ dict_keys m -> no_dot k = true -> rt_value x = true -> wf_doc x ->
  trie (m ++ [(k, x)]).
Proof.
  intros [Hrt Hwf] Hk Hseg Hx Hwx. apply wf_doc_dict in Hwf as [Hnd Hwf]. split.
  - rewrite rt_entries_app, Hrt, rt_entries_cons, Hseg, Hx. done.
  - apply wf_doc_dict. split.
    + unfold dict_keys. rewrite map_app. apply NoDup_app. split; [done|]. split.
      * intros k' Hk' ->%list_elem_of_singleton. done.
      * apply NoDup_singleton.
    + apply Forall_app. split; [done|]. by apply Forall_singleton.
Qed.

(** A changed entry. *)
Lemma trie_middle m1 k c c' m2 :
  trie (m1 ++ (k, c) :: m2) -> rt_value c' = true -> wf_doc c' ->
  trie (m1 ++ (k, c') :: m2).
Proof.
  intros [Hrt Hwf] Hc Hwc. apply wf_doc_dict in Hwf as [Hnd Hwf]. split.
  - rewrite rt_entries_app, rt_entries_cons in *.
    apply andb_true_iff in Hrt as [H1 [[Hk _]%andb_true_iff H2]%andb_true_iff].
    by rewrite H1, Hk, Hc, H2.
  - apply wf_doc_dict. split.
    + unfold dict_keys in *. rewrite map_app in *. exact Hnd.
    + apply Forall_app in Hwf as [Hw1 Hw2]. apply Forall_cons in Hw2 as [_ Hw2].
      apply Forall_app. split; [done|]. by apply Forall_cons_2.
Qed.

Lemma trie_entry m1 k c m2 :
  trie (m1 ++ (k, c) :: m2) -> no_dot k = true /\ rt_value c = true /\ wf_doc c.
Proof.
  intros [Hrt Hwf]. apply wf_doc_dict in Hwf as [_ Hwf].
  rewrite rt_entries_app, rt_entries_cons in Hrt.
  apply andb_true_iff in Hrt as [_ [[Hk Hc]%andb_true_iff _]%andb_true_iff].
  apply Forall_app in Hwf as [_ Hwf]. apply Forall_cons in Hwf as [Hwc _].
  done.
Qed.

(** Inserting a scalar at a path that is apart from the path of every leaf
    adds one leaf and keeps the others. *)
Lemma put_trie p :
  forall m v,
    trie m -> p <> [] -> Forall (fun k => no_dot k = true) p -> is_scalar v = true ->
    (forall q x, (q, x) ∈ paths (JDict m) -> apart p q) ->
    exists m', put (JDict m) p v = Some (JDict m') /\ m' <> [] /\ trie m' /\
               paths (JDict m') ≡ₚ (p, v) :: paths (JDict m).
Proof.
  induction p as [|k p IH]; intros m v Ht Hne Hseg Hv Hap; [done|].
  apply Forall_cons in Hseg as [Hk Hseg].
  destruct (dict_get k m) as [c|] eqn:Hget.
  - destruct (dict_get_split k c m Hget) as (m1 & m2 & -> & Hk1).
    destruct (trie_entry _ _ _ _ Ht) as (_ & Hc & Hwc).
    assert (Hin : (k, c) ∈ m1 ++ (k, c) :: m2).
    { apply elem_of_app. right. apply list_elem_of_here. }
    assert (Hmem : dict_mem k (m1 ++ (k, c) :: m2) = true).
    { unfold dict_mem. by rewrite Hget. }
    destruct (rt_value_cases c Hc) as [Hs | (mc & -> & Hmc & Hrtc)].
    + exfalso. destruct (Hap [k] c) as [_ Hn].
      * apply elem_of_paths_dict. exists k, c, []. split; [done|]. split; [done|].
        rewrite paths_scalar by done. apply list_elem_of_here.
      * apply Hn. apply prefix_cons, prefix_nil.
    + destruct p as [|k' p'].
      * exfalso. pose proof (paths_nonempty (JDict mc) Hc) as Hpne.
        destruct (paths (JDict mc)) as [|[q x] l] eqn:Hp; [done|].
        destruct (Hap (k :: q) x) as [Hn _].
        -- apply elem_of_paths_dict. exists k, (JDict mc), q.
           split; [done|]. split; [done|]. rewrite Hp. apply list_elem_of_here.
        -- apply Hn. apply prefix_cons, prefix_nil.
      * destruct (IH mc v) as (mc' & Hput & Hne' & Ht' & Hperm); try done.
        { intros q x Hq. destruct (Hap (k :: q) x) as [Hn1 Hn2].
          { apply elem_of_paths_dict. by exists k, (JDict mc), q. }
          split; intros Hpre; [apply Hn1 | apply Hn2]; by apply prefix_cons. }
        exists (m1 ++ (k, JDict mc') :: m2).
        split.
        { rewrite put_cons by done. cbv zeta. rewrite Hmem, Hget.
          cbn [mbind option_bind]. rewrite Hput. cbn [mbind option_bind].
          by rewrite dict_set_middle. }
        split; [by destruct m1|].
        split.
        { eapply trie_middle; [exact Ht|by apply rt_value_trie|apply Ht']. }
        rewrite !paths_dict_middle. unfold under. rewrite Hperm.
        cbn [fmap list_fmap fst snd].
        rewrite (Permutation_middle _ (_ ++ _)). done.
  - assert (Hk1 : k ∉ dict_keys m) by (by apply dict_get_None).
    destruct p as [|k' p'].
    + exists (m ++ [(k, v)]).
      split; [by rewrite put_single, dict_set_fresh|].
      split; [by destruct m|].
      split; [by apply trie_snoc; auto using scalar_rt_value, scalar_wf|].
      rewrite paths_dict_app, paths_dict_cons, (paths_scalar v Hv). done.
    + destruct (IH [] v trie_nil) as (mc' & Hput & Hne' & Ht' & Hperm); try done.
      { intros q x Hq. by apply elem_of_nil in Hq. }
      exists (m ++ [(k, JDict mc')]).
      split.
      { rewrite put_cons by done. cbv zeta.
        assert (Hmem : dict_mem k m = false) by (by apply dict_mem_false).
        rewrite Hmem, dict_set_fresh, dict_get_snoc by done.
        cbn [mbind option_bind]. rewrite Hput. cbn [mbind option_bind].
        by rewrite dict_set_snoc. }
      split; [by destruct m|].
      split.
      { apply trie_snoc; try done; [by apply rt_value_trie|apply Ht']. }
      rewrite paths_dict_app, paths_dict_cons. unfold under. rewrite Hperm. done.
Qed.

Lemma prefix_free_cons p ps :
  prefix_free (p :: ps) = true <-> Forall (apart p) ps /\ prefix_free ps = true.
Proof.
  cbn [prefix_free]. rewrite andb_true_iff. apply and_iff_compat_r.
  rewrite forallb_forall, Forall_forall. apply forall_proper. intros q.
  rewrite <- list_elem_of_In, andb_true_iff, !negb_true_iff, !bool_decide_eq_false.
  done.
Qed.

(** Inserting scalars at paths none of which continues another. *)
Lemma put_all_trie (P : list (list string * doc)) :
  forall m,
    trie m ->
    Forall (fun pv => pv.1 <> [] /\ Forall (fun k => no_dot k = true) pv.1 /\
                      is_scalar pv.2 = true) P ->
    prefix_free (P.*1) = true ->
    (forall q x pv, (q, x) ∈ paths (JDict m) -> pv ∈ P -> apart pv.1 q) ->
    exists m', put_all P (Some (JDict m)) = Some (JDict m') /\ trie m' /\
               paths (JDict m') ≡ₚ P ++ paths (JDict m).
Proof.
  induction P as [|[p v] P IH]; intros m Ht Hvalid Hfree Hap.
  - exists m. done.
  - apply Forall_cons in Hvalid as [(Hne & Hseg & Hv) Hvalid]. cbn [fst snd] in *.
    cbn [fmap list_fmap fst] in Hfree. apply prefix_free_cons in Hfree as [Hp Hfree].
    destruct (put_trie p m v Ht Hne Hseg Hv) as (m1 & Hput & _ & Ht1 & Hperm).
    { intros q x Hq. apply (Hap q x (p, v) Hq), list_elem_of_here. }
    destruct (IH m1 Ht1 Hvalid Hfree) as (m' & Hall & Ht' & Hperm').
    { intros q x pv Hq Hpv. rewrite Hperm in Hq.
      apply elem_of_cons in Hq as [[= -> ->] | Hq].
      - rewrite Forall_forall in Hp. destruct (Hp pv.1) as [H1 H2].
        + by apply list_elem_of_fmap_2.
        + by split.
      - apply (Hap q x pv Hq). by apply list_elem_of_further. }
    exists m'. split; [by rewrite put_all_cons, Hput|]. split; [done|].
    rewrite Hperm', Hperm. by rewrite <- Permutation_middle.
Qed.

Lemma py_eq_in_perm (F' F : entries) :
  F' ≡ₚ F -> NoDup (dict_keys F) -> Forall (fun kv => is_scalar kv.2 = true) F ->
  py_eq_in (JDict F') (JDict F) = true.
Proof.
  intros Hperm Hnd Hs. apply py_eq_in_dict_intro; [by rewrite Hperm|].
  intros k v Hin. rewrite Hperm in Hin. exists v.
  split; [by apply elem_of_dict_get|]. apply py_eq_in_scalar_refl.
  rewrite Forall_forall in Hs. apply (Hs (k, v) Hin).
Qed.

(** C1, as the code has it, with the separator ["."].  For a flat mapping
    [F] with scalar values, none of whose compound keys starts with ["."] and
    none of whose compound keys continues another one,
    [flatten_json(unflatten_json(F)) == F].  For a document [D] that is a
    mapping with unique keys, without sequences and without an empty mapping
    below the root, whose keys are free of ["."] and in which the key [""] of
    the root, if there is one, is bound to a scalar,
    [unflatten_json(flatten_json(D)) == D].  Both calls return in each case. *)
Theorem flatten_unflatten_roundtrip (F : entries) (D : doc) :
  flat_ok F = true -> rt_doc D = true -> wf_doc D ->
  (exists U F',
     JSONUtils.unflatten_json F "." = Some U /\
     JSONUtils.flatten_json U "" "." = Some F' /\
     py_eq (JDict F') (JDict F) = true) /\
  (exists F' U,
     JSONUtils.flatten_json D "" "." = Some F' /\
     JSONUtils.unflatten_json F' "." = Some U /\
     py_eq U D = true).
Proof.
  intros HF0 Hrt Hwf. split.
  - clear D Hrt Hwf.
    unfold flat_ok in HF0. apply andb_true_iff in HF0 as [Hvals Hfree].
    set (P := (fun kv : string * doc => (key_path kv.1, kv.2)) <$> F).
    assert (HF : flat_rows P = F).
    { unfold flat_rows, P. rewrite <- list_fmap_compose.
      rewrite <- (list_fmap_id F) at 2. apply list_fmap_ext.
      intros i [k v] _. cbn. by rewrite join_split. }
    assert (Hscalar : Forall (fun kv : string * doc => is_scalar kv.2 = true) F).
    { apply Forall_forall. intros kv Hin. rewrite forallb_forall in Hvals.
      apply list_elem_of_In, Hvals in Hin. by apply andb_true_iff in Hin as [? _]. }
    assert (Hvalid : Forall (fun pv : list string * doc =>
                      pv.1 <> [] /\ Forall (fun k => no_dot k = true) pv.1 /\
                      is_scalar pv.2 = true) P).
    { unfold P. apply Forall_fmap, Forall_forall. intros [k v] Hin.
      rewrite forallb_forall in Hvals. apply list_elem_of_In, Hvals in Hin.
      cbn [fst snd] in *. apply andb_true_iff in Hin as [Hv _].
      split; [apply split_go_nonempty|]. split; [|done].
      apply split_go_no_dot_pieces. }
    assert (Hrooted : Forall (fun pv : list string * doc => rooted pv.1 = true) P).
    { unfold P. apply Forall_fmap, Forall_forall. intros [k v] Hin.
      rewrite forallb_forall in Hvals. apply list_elem_of_In, Hvals in Hin.
      cbn [fst snd] in *. by apply andb_true_iff in Hin as [_ ?]. }
    assert (Hfree' : prefix_free (P.*1) = true).
    { unfold P. rewrite <- list_fmap_compose.
      unfold dict_keys in Hfree. change (map fst F) with (fst <$> F) in Hfree.
      by rewrite <- list_fmap_compose in Hfree. }
    destruct (put_all_trie P [] trie_nil Hvalid Hfree') as (m' & Hput & Htrie & Hperm).
    { intros q x pv Hq. by apply elem_of_nil in Hq. }
    rewrite app_nil_r in Hperm.
    assert (Hrows : flat_rows (paths (JDict m')) ≡ₚ F).
    { rewrite <- HF. unfold flat_rows. by rewrite Hperm. }
    exists (JDict m'), (flat_rows (paths (JDict m'))).
    split.
    { rewrite <- HF. rewrite unflatten_json_rows; [done|].
      eapply Forall_impl; [exact Hvalid|]. by intros pv (? & ? & _). }
    split; [apply flatten_json_rooted; [done|by rewrite Hperm]|].
    apply py_eq_in_perm; [done| |done].
    assert (Hkeys : dict_keys (flat_rows (paths (JDict m'))) ≡ₚ dict_keys F).
    { unfold dict_keys. change (map fst ?l) with (fst <$> l). by rewrite Hrows. }
    rewrite <- Hkeys. destruct Htrie as [Hrt Hwf].
    destruct m' as [|kv m']; [apply NoDup_nil_2|].
    apply flat_rows_paths_NoDup; [done| |done].
    by rewrite rt_value_dict, Hrt.
  - clear F HF0.
    exists (flat_rows (paths D)), (mirror D).
    split; [by apply flatten_json_rt|].
    split; [|apply py_eq_mirror; [by destruct D|done]].
    destruct (rt_doc_cases D Hrt) as [-> | [Hd Hv]]; [done|].
    rewrite unflatten_json_rows by (by apply rt_paths_valid).
    destruct D as [| | | | | |m]; try done.
    apply (put_all_paths_mirror (JDict m) m); [done| |done].
    rewrite rt_value_dict in Hv. by apply andb_true_iff in Hv as [_ Hv].
Qed.

Lemma flatten_unflatten_roundtrip_witness :
  let F := [("car.type", JStr "sedan"); ("car.engine.power", JInt 300);
            ("", JNull); ("a.", JInt 1); ("b..c", JFloat (FNaN 1))] in
  let D := JDict [("car", JDict [("type", JStr "sedan");
                                 ("engine", JDict [("power", JInt 300)])]);
                  ("", JInt 1);
                  ("a", JDict [("", JInt 1); ("b", JDict [("", JNull)])])] in
  JSONUtils.flatten_json D "" "."
    = Some [("a.b.", JNull); ("a.", JInt 1); ("", JInt 1);
            ("car.engine.power", JInt 300); ("car.type", JStr "sedan")] /\
  (exists U F',
     JSONUtils.unflatten_json F "." = Some U /\
     JSONUtils.flatten_json U "" "." = Some F' /\
     py_eq (JDict F') (JDict F) = true) /\
  (exists F' U,
     JSONUtils.flatten_json D "" "." = Some F' /\
     JSONUtils.unflatten_json F' "." = Some U /\
     py_eq U D = true).
Proof.
  intros F D. split; [reflexivity|].
  apply (flatten_unflatten_roundtrip F D).
  - vm_compute. reflexivity.
  - vm_compute. reflexivity.
  - simpl. repeat split; apply (bool_decide_unpack _); vm_compute; reflexivity.
Defined.

(** C1 as stated fails.  The compound key ["a.b"] continues the key ["a"]:
    in one order the later item replaces the mapping built for the earlier
    one, in the other order the walk reaches a number and raises.  An empty
    mapping below the root has no leaf (nor has one that is a value of the
    flat mapping), and a key with a ["."] in it is split on the way back.  A
    compound key that starts with ["."] loses its empty first segment, and so
    does a leaf below the key [""] of the root: [flatten_json] takes the
    empty key of the parent for no parent key. *)
Lemma roundtrip_counterexample :
  (JSONUtils.unflatten_json [("a.b", JInt 1); ("a", JInt 2)] "."
     ≫= fun U => JSONUtils.flatten_json U "" ".") = Some [("a", JInt 2)] /\
  py_eq (JDict [("a", JInt 2)]) (JDict [("a.b", JInt 1); ("a", JInt 2)]) = false /\
  JSONUtils.unflatten_json [("a", JInt 1); ("a.b", JInt 2)] "." = None /\
  (JSONUtils.flatten_json (JDict [("a", JDict [])]) "" "."
     ≫= fun F => JSONUtils.unflatten_json F ".") = Some (JDict []) /\
  py_eq (JDict []) (JDict [("a", JDict [])]) = false /\
  (JSONUtils.flatten_json (JDict [("a.b", JInt 1)]) "" "."
     ≫= fun F => JSONUtils.unflatten_json F ".") = Some (JDict [("a", JDict [("b", JInt 1)])]) /\
  py_eq (JDict [("a", JDict [("b", JInt 1)])]) (JDict [("a.b", JInt 1)]) = false /\
  (JSONUtils.unflatten_json [(".a", JInt 1)] "."
     ≫= fun U => JSONUtils.flatten_json U "" ".") = Some [("a", JInt 1)] /\
  py_eq (JDict [("a", JInt 1)]) (JDict [(".a", JInt 1)]) = false /\
  (JSONUtils.flatten_json (JDict [("", JDict [("a", JInt 1)])]) "" "."
     ≫= fun F => JSONUtils.unflatten_json F ".") = Some (JDict [("a", JInt 1)]) /\
  py_eq (JDict [("a", JInt 1)]) (JDict [("", JDict [("a", JInt 1)])]) = false /\
  (JSONUtils.unflatten_json [("a", JDict [])] "."
     ≫= fun U => JSONUtils.flatten_json U "" ".") = Some [].
Proof. vm_compute. repeat split; reflexivity. Qed.

(** * Further properties *)

(** ** Keys: update and removal *)

Section DictRemoval.
Context {A : Type}.
Implicit Types (m : list (string * A)) (k : string) (v : A).

Lemma dict_del_absent k m : k ∉ dict_keys m -> dict_del k m = m.
Proof.
  induction m as [|[k' v'] m IH]; [done|]. cbn.
  rewrite not_elem_of_cons. intros [Hne Hk].
  apply String.eqb_neq in Hne. rewrite Hne. by rewrite IH.
Qed.

Lemma dict_get_del_ne k k' m : k <> k' -> dict_get k' (dict_del k m) = dict_get k' m.
Proof.
  intros Hne. induction m as [|[k0 v0] m IH]; [done|]. cbn.
  destruct (String.eqb k k0) eqn:E.
  - apply String.eqb_eq in E. subst k0.
    destruct (String.eqb k' k) eqn:E'; [|done].
    apply String.eqb_eq in E'. congruence.
  - cbn. by rewrite IH.
Qed.

Lemma dict_keys_del k m : dict_keys (dict_del k m) `sublist_of` dict_keys m.
Proof.
  induction m as [|[k0 v0] m IH]; [done|]. cbn.
  destruct (String.eqb k k0); [by apply sublist_cons|]. cbn. by apply sublist_skip.
Qed.

Lemma dict_get_del_eq k m : NoDup (dict_keys m) -> dict_get k (dict_del k m) = None.
Proof.
  induction m as [|[k0 v0] m IH]; [done|]. cbn. intros [Hk0 Hnd]%NoDup_cons.
  destruct (String.eqb k k0) eqn:E.
  - apply String.eqb_eq in E. subst k0. by apply dict_get_None.
  - cbn. rewrite E. by apply IH.
Qed.

Lemma dict_del_set_fresh k v m : k ∉ dict_keys m -> dict_del k (dict_set k v m) = m.
Proof.
  induction m as [|[k' v'] m IH]; cbn.
  - intros _. by rewrite String.eqb_refl.
  - rewrite not_elem_of_cons. intros [Hne Hk].
    apply String.eqb_neq in Hne. rewrite Hne. cbn. rewrite Hne. by rewrite IH.
Qed.

Lemma dict_set_set k v v' m : dict_set k v' (dict_set k v m) = dict_set k v' m.
Proof.
  induction m as [|[k0 v0] m IH]; cbn.
  - by rewrite String.eqb_refl.
  - destruct (String.eqb k k0) eqn:E; cbn; rewrite E; [done|]. by rewrite IH.
Qed.
End DictRemoval.

(** X1: [update_json_key] binds the key to the value and leaves every other
    key as it was; a key already present keeps its place in the order of the
    keys, a new key goes last; keys stay unique; writing the same key again
    replaces the first write. *)
Theorem update_json_key_spec (data : entries) (key : string) (value : doc) :
  NoDup (dict_keys data) ->
  dict_get key (JSONUtils.update_json_key data key value) = Some value /\
  (forall k, k <> key ->
     dict_get k (JSONUtils.update_json_key data key value) = dict_get k data) /\
  dict_keys (JSONUtils.update_json_key data key value)
    = (if dict_mem key data then dict_keys data else dict_keys data ++ [key]) /\
  NoDup (dict_keys (JSONUtils.update_json_key data key value)) /\
  (forall value',
     JSONUtils.update_json_key (JSONUtils.update_json_key data key value) key value'
     = JSONUtils.update_json_key data key value').
Proof.
  intros Hnd. unfold JSONUtils.update_json_key.
  split; [apply dict_get_set_eq|].
  split; [intros k Hk; by apply dict_get_set_ne|].
  split; [apply dict_keys_set|].
  split; [by apply NoDup_dict_keys_set|].
  intros value'. apply dict_set_set.
Qed.

Lemma update_json_key_spec_witness :
  JSONUtils.update_json_key [("a", JInt 1); ("b", JInt 2)] "a" (JInt 7)
    = [("a", JInt 7); ("b", JInt 2)] /\
  dict_get "a" (JSONUtils.update_json_key [("a", JInt 1); ("b", JInt 2)] "a" (JInt 7))
    = Some (JInt 7).
Proof.
  split; [reflexivity|].
  apply (update_json_key_spec [("a", JInt 1); ("b", JInt 2)] "a" (JInt 7)).
  apply (bool_decide_unpack _). vm_compute. reflexivity.
Defined.

(** X2: [remove_json_key] on a mapping with unique keys leaves no value
    under the key, keeps every other key with its value, keeps the keys
    unique and in order, and returns the mapping itself when the key is not
    in it. *)
Theorem remove_json_key_spec (data : entries) (key : string) :
  NoDup (dict_keys data) ->
  dict_get key (JSONUtils.remove_json_key data key) = None /\
  (forall k, k <> key ->
     dict_get k (JSONUtils.remove_json_key data key) = dict_get k data) /\
  dict_keys (JSONUtils.remove_json_key data key) `sublist_of` dict_keys data /\
  NoDup (dict_keys (JSONUtils.remove_json_key data key)) /\
  (key ∉ dict_keys data -> JSONUtils.remove_json_key data key = data).
Proof.
  intros Hnd. unfold JSONUtils.remove_json_key.
  destruct (dict_mem key data) eqn:Hmem.
  - split; [by apply dict_get_del_eq|].
    split; [intros k Hk; by apply dict_get_del_ne|].
    split; [apply dict_keys_del|].
    split; [exact (sublist_NoDup _ _ Hnd (dict_keys_del key data))|].
    intros Hk. by apply dict_del_absent.
  - apply dict_mem_false in Hmem.
    split; [by apply dict_get_None|]. split; [done|]. split; [done|]. done.
Qed.

Lemma remove_json_key_spec_witness :
  JSONUtils.remove_json_key [("a", JInt 1); ("b", JInt 2)] "a" = [("b", JInt 2)] /\
  dict_get "a" (JSONUtils.remove_json_key [("a", JInt 1); ("b", JInt 2)] "a") = None.
Proof.
  split; [reflexivity|].
  apply (remove_json_key_spec [("a", JInt 1); ("b", JInt 2)] "a").
  apply (bool_decide_unpack _). vm_compute. reflexivity.
Defined.

(** X3: adding a key that was not in the mapping and removing it again gives
    the mapping back. *)
Theorem remove_after_update (data : entries) (key : string) (value : doc) :
  key ∉ dict_keys data ->
  JSONUtils.remove_json_key (JSONUtils.update_json_key data key value) key = data.
Proof.
  intros Hk. unfold JSONUtils.remove_json_key, JSONUtils.update_json_key.
  assert (Hmem : dict_mem key (dict_set key value data) = true).
  { unfold dict_mem. by rewrite dict_get_set_eq. }
  rewrite Hmem. by apply dict_del_set_fresh.
Qed.

Lemma remove_after_update_witness :
  JSONUtils.remove_json_key (JSONUtils.update_json_key [("a", JInt 1)] "b" (JInt 2)) "b"
  = [("a", JInt 1)].
Proof.
  apply (remove_after_update [("a", JInt 1)] "b" (JInt 2)).
  apply (bool_decide_unpack _). vm_compute. reflexivity.
Defined.

(** ** Merging *)

Lemma dict_set_same {A} k (v : A) m : dict_get k m = Some v -> dict_set k v m = m.
Proof.
  induction m as [|[k0 v0] m IH]; [done|]. cbn.
  destruct (String.eqb k k0) eqn:E.
  - apply String.eqb_eq in E. subst k0. by intros [= ->].
  - intros H. by rewrite IH.
Qed.

Lemma dict_update_fresh {A} (m acc : list (string * A)) :
  NoDup (dict_keys (acc ++ m)) -> dict_update acc m = acc ++ m.
Proof.
  unfold dict_update. revert acc. induction m as [|[k v] m IH]; intros acc Hnd.
  - by rewrite app_nil_r.
  - cbn [fold_left fst snd].
    assert (Hk : k ∉ dict_keys acc).
    { unfold dict_keys in Hnd. rewrite map_app in Hnd.
      apply NoDup_app in Hnd as (_ & Hd & _).
      intros Hin. apply (Hd k Hin). cbn. apply list_elem_of_here. }
    rewrite dict_set_fresh by done.
    rewrite IH; rewrite <- app_assoc; done.
Qed.

Lemma dict_update_same {A} (m l : list (string * A)) :
  (forall k v, (k, v) ∈ l -> dict_get k m = Some v) -> dict_update m l = m.
Proof.
  unfold dict_update. induction l as [|[k v] l IH]; intros Hl; [done|].
  cbn [fold_left fst snd]. rewrite dict_set_same.
  - apply IH. intros k' v' Hin. apply Hl. by apply list_elem_of_further.
  - apply Hl. apply list_elem_of_here.
Qed.

Lemma dict_set_comm {A} k k1 (v v1 : A) m :
  k <> k1 -> k ∈ dict_keys m ->
  dict_set k v (dict_set k1 v1 m) = dict_set k1 v1 (dict_set k v m).
Proof.
  intros Hne. induction m as [|[k0 v0] m IH]; [by intros ?%elem_of_nil|].
  cbn [dict_keys map fst]. intros Hin.
  cbn [dict_set].
  destruct (String.eqb k1 k0) eqn:E1, (String.eqb k k0) eqn:E; cbn [dict_set];
    rewrite ?E, ?E1; try done.
  - apply String.eqb_eq in E1, E. congruence.
  - f_equal. apply IH. apply elem_of_cons in Hin as [-> | Hin]; [|done].
    by rewrite String.eqb_refl in E.
Qed.

Lemma dict_update_cons {A} (a : list (string * A)) k v n :
  dict_update a ((k, v) :: n) = dict_update (dict_set k v a) n.
Proof. reflexivity. Qed.

Lemma dict_set_update_present {A} k (v : A) a n :
  k ∈ dict_keys a -> k ∉ dict_keys n ->
  dict_set k v (dict_update a n) = dict_update (dict_set k v a) n.
Proof.
  revert a. induction n as [|[k1 v1] n IH]; intros a Ha Hn; [done|].
  cbn [dict_keys map fst] in Hn. apply not_elem_of_cons in Hn as [Hne Hn].
  rewrite !dict_update_cons, IH; [|apply elem_of_dict_keys_set; by right|done].
  by rewrite dict_set_comm.
Qed.

Lemma dict_update_set {A} k (v : A) a n :
  NoDup (dict_keys n) ->
  dict_update a (dict_set k v n) = dict_set k v (dict_update a n).
Proof.
  revert a. induction n as [|[k0 v0] n IH]; intros a Hnd; [done|].
  cbn [dict_keys map fst] in Hnd. apply NoDup_cons in Hnd as [Hk0 Hnd].
  cbn [dict_set]. destruct (String.eqb k k0) eqn:E.
  - apply String.eqb_eq in E. subst k0. rewrite !dict_update_cons.
    rewrite dict_set_update_present; [|apply elem_of_dict_keys_set; by left|done].
    by rewrite dict_set_set.
  - rewrite !dict_update_cons. by apply IH.
Qed.

Lemma dict_update_assoc {A} (a b c : list (string * A)) :
  NoDup (dict_keys b) ->
  dict_update (dict_update a b) c = dict_update a (dict_update b c).
Proof.
  revert b. induction c as [|[k v] c IH]; intros b Hb; [done|].
  rewrite !dict_update_cons, <- IH by (by apply NoDup_dict_keys_set).
  by rewrite dict_update_set.
Qed.

(** X4: merging with the empty mapping on either side gives the other
    mapping, and merging a mapping with itself gives it back: same entries,
    same order. *)
Theorem merge_json_neutral (a : entries) :
  NoDup (dict_keys a) ->
  JSONUtils.merge_json a [] = a /\
  JSONUtils.merge_json [] a = a /\
  JSONUtils.merge_json a a = a.
Proof.
  intros Hnd. unfold JSONUtils.merge_json. cbv zeta.
  split; [done|]. split.
  - by rewrite dict_update_fresh.
  - apply dict_update_same. intros k v Hin. by apply elem_of_dict_get.
Qed.

Lemma merge_json_neutral_witness :
  JSONUtils.merge_json [] [("x", JInt 1); ("y", JInt 2)] = [("x", JInt 1); ("y", JInt 2)].
Proof.
  apply (merge_json_neutral [("x", JInt 1); ("y", JInt 2)]).
  apply (bool_decide_unpack _). vm_compute. reflexivity.
Defined.

(** X5: merging is associative: merging [c] into the merge of [a] and [b]
    gives the same mapping, entries and order, as merging into [a] the merge
    of [b] and [c]. *)
Theorem merge_json_assoc (a b c : entries) :
  NoDup (dict_keys b) ->
  JSONUtils.merge_json (JSONUtils.merge_json a b) c
  = JSONUtils.merge_json a (JSONUtils.merge_json b c).
Proof.
  intros Hb. unfold JSONUtils.merge_json. cbv zeta. by apply dict_update_assoc.
Qed.

Lemma merge_json_assoc_witness :
  JSONUtils.merge_json (JSONUtils.merge_json [("x", JInt 1)] [("y", JInt 2); ("x", JInt 3)])
    [("y", JInt 4); ("z", JInt 5)]
  = JSONUtils.merge_json [("x", JInt 1)]
      (JSONUtils.merge_json [("y", JInt 2); ("x", JInt 3)] [("y", JInt 4); ("z", JInt 5)]).
Proof.
  apply (merge_json_assoc [("x", JInt 1)] [("y", JInt 2); ("x", JInt 3)]
           [("y", JInt 4); ("z", JInt 5)]).
  apply (bool_decide_unpack _). vm_compute. reflexivity.
Defined.

(** ** Python equality is an equivalence on well-formed documents *)

Lemma py_eq_in_list_inv (l l' : list doc) :
  py_eq_in (JList l) (JList l') = true -> Forall2 (fun x y => py_eq_in x y = true) l l'.
Proof.
  cbn [py_eq_in]. revert l'. induction l as [|x l IH]; intros [|y l'] H;
    try discriminate H.
  - constructor.
  - apply andb_true_iff in H as [Hxy Hl]. constructor; [done|by apply IH].
Qed.

Lemma py_eq_in_dict_inv m n :
  py_eq_in (JDict m) (JDict n) = true ->
  length m = length n /\
  forall k v, (k, v) ∈ m -> exists w, dict_get k n = Some w /\ py_eq_in v w = true.
Proof.
  rewrite py_eq_in_dict. intros [Hlen Hall]%andb_true_iff.
  split; [by apply Nat.eqb_eq|].
  intros k v Hin. rewrite forallb_forall in Hall.
  apply list_elem_of_In, Hall in Hin. cbn [fst snd] in Hin.
  destruct (dict_get k n) as [w|]; [|done]. by exists w.
Qed.

Lemma py_eq_in_refl d : wf_doc d -> py_eq_in d d = true.
Proof.
  induction d as [| b | n | x | s | l IH | m IH] using doc_nested_ind; intros Hwf;
    try (by apply py_eq_in_scalar_refl).
  - apply py_eq_in_list_intro. apply wf_doc_list in Hwf.
    induction l as [|x l IHl]; [constructor|].
    apply Forall_cons in IH as [Hx IH]. apply Forall_cons in Hwf as [Hwx Hwf].
    constructor; [by apply Hx | by apply IHl].
  - apply wf_doc_dict in Hwf as [Hnd Hwf]. apply py_eq_in_dict_intro; [done|].
    intros k v Hin. exists v. split; [by apply elem_of_dict_get|].
    rewrite Forall_forall in IH. rewrite Forall_forall in Hwf.
    by apply (IH (k, v) Hin), (Hwf (k, v) Hin).
Qed.

Lemma py_eq_in_sym_1 x :
  wf_doc x -> forall y, wf_doc y -> py_eq_in x y = true -> py_eq_in y x = true.
Proof.
  induction x as [| a | n | fx | s | l IH | m IH] using doc_nested_ind;
    intros Hwx y Hwy Hxy.
  - by destruct y.
  - destruct y as [| b | n | fy | | |]; cbn in *; try done.
    + by destruct a, b.
    + by rewrite Z.eqb_sym.
  - destruct y as [| b | n' | fy | | |]; cbn in *; try done; by rewrite Z.eqb_sym.
  - destruct y as [| b | n' | fy | | |]; cbn in *; try done.
    by rewrite float_eq_in_sym.
  - destruct y as [| | | | s' | |]; cbn in *; try done. by rewrite String.eqb_sym.
  - destruct y as [| | | | | l' |]; try done.
    apply py_eq_in_list_inv in Hxy. apply py_eq_in_list_intro.
    apply wf_doc_list in Hwx. apply wf_doc_list in Hwy.
    induction Hxy as [|x y l l' Hxy _ IHl]; [constructor|].
    apply Forall_cons in IH as [Hx IH]. apply Forall_cons in Hwx as [Hwx1 Hwx].
    apply Forall_cons in Hwy as [Hwy1 Hwy].
    constructor; [by apply Hx | by apply IHl].
  - destruct y as [| | | | | | n]; try done.
    apply py_eq_in_dict_inv in Hxy as [Hlen Hall].
    apply wf_doc_dict in Hwx as [Hndm Hwm]. apply wf_doc_dict in Hwy as [Hndn Hwn].
    rewrite Forall_forall in IH. rewrite Forall_forall in Hwm.
    rewrite Forall_forall in Hwn.
    assert (Hkeys : dict_keys m ≡ₚ dict_keys n).
    { apply submseteq_length_Permutation.
      - apply NoDup_submseteq; [done|]. intros k Hk.
        apply dict_get_is_Some in Hk as [v Hv]. apply dict_get_elem_of in Hv.
        destruct (Hall k v Hv) as (w & Hw & _). apply dict_get_is_Some. by eexists.
      - unfold dict_keys. rewrite !length_map. lia. }
    apply py_eq_in_dict_intro; [done|].
    intros k w Hin.
    assert (Hk : k ∈ dict_keys m).
    { rewrite Hkeys. apply list_elem_of_fmap. by exists (k, w). }
    apply dict_get_is_Some in Hk as [v Hv]. exists v. split; [done|].
    pose proof (dict_get_elem_of _ _ _ Hv) as Hvin.
    destruct (Hall k v Hvin) as (w' & Hw' & Heq).
    rewrite (elem_of_dict_get k w n Hndn Hin) in Hw'. injection Hw' as <-.
    apply (IH (k, v) Hvin); [apply (Hwm (k, v) Hvin)|apply (Hwn (k, w) Hin)|done].
Qed.

Lemma py_eq_in_sym x y : wf_doc x -> wf_doc y -> py_eq_in x y = py_eq_in y x.
Proof.
  intros Hx Hy. destruct (py_eq_in x y) eqn:E1, (py_eq_in y x) eqn:E2; try done.
  - by rewrite (py_eq_in_sym_1 x Hx y Hy E1) in E2.
  - by rewrite (py_eq_in_sym_1 y Hy x Hx E2) in E1.
Qed.

Lemma py_eq_in_nan x y : py_eq_in x y = true -> is_nan x = is_nan y.
Proof.
  destruct x as [| | |[| | |i]| | |], y as [| | |[| | |j]| | |]; try done.
  all: cbn; unfold float_eq_int; cbn; try done.
  all: by destruct negative.
Qed.

Lemma py_eq_sym x y : wf_doc x -> wf_doc y -> py_eq x y = py_eq y x.
Proof.
  intros Hx Hy. unfold py_eq. rewrite (py_eq_in_sym y x) by done.
  destruct (py_eq_in x y) eqn:E.
  - by rewrite (py_eq_in_nan x y E).
  - by destruct (is_nan x), (is_nan y).
Qed.

Lemma py_eq_refl d : wf_doc d -> py_eq d d = negb (is_nan d).
Proof.
  intros Hwf. unfold py_eq. rewrite py_eq_in_refl by done. by destruct (is_nan d).
Qed.

(** ** More on [diff_json] *)

Lemma diff_json_lookup (a b : entries) (k : string) :
  JSONUtils.diff_json a b !! k
  = if py_eq (JSONUtils.py_get a k) (JSONUtils.py_get b k)
    then None
    else Some (JDict [("old", JSONUtils.py_get a k); ("new", JSONUtils.py_get b k)]).
Proof.
  unfold JSONUtils.diff_json, set_fold. simpl. rewrite diff_fold_lookup.
  destruct (py_eq _ _) eqn:E; simpl; [by rewrite andb_false_r|].
  rewrite andb_true_r, bool_decide_true; [done|].
  apply elem_of_elements, elem_of_key_union.
  destruct (decide (k ∈ dict_keys a)) as [|Ha]; [by left|].
  destruct (decide (k ∈ dict_keys b)) as [|Hb]; [by right|].
  rewrite (py_get_absent Ha), (py_get_absent Hb) in E. done.
Qed.

Lemma py_get_wf (a : entries) (k : string) :
  Forall (fun kv => wf_doc kv.2) a -> wf_doc (JSONUtils.py_get a k).
Proof.
  intros Hwf. unfold JSONUtils.py_get.
  destruct (dict_get k a) as [v|] eqn:Hv; [|done]. cbn.
  apply dict_get_elem_of in Hv. rewrite Forall_forall in Hwf. apply (Hwf (k, v) Hv).
Qed.

(** X6: the difference of a mapping with itself.  [diff_json(a, a)] has an
    entry exactly under the keys whose value is a NaN, which [!=] tells from
    itself: it is empty exactly when no value of [a] is a NaN (a NaN inside a
    value that is a sequence or a mapping is no difference).  In general a
    difference is empty exactly when the two mappings agree under every key
    (a missing key reading as [None]). *)
Theorem diff_json_empty (a b : entries) :
  Forall (fun kv => wf_doc kv.2) a ->
  (forall k,
     JSONUtils.diff_json a a !! k
     = if is_nan (JSONUtils.py_get a k)
       then Some (JDict [("old", JSONUtils.py_get a k); ("new", JSONUtils.py_get a k)])
       else None) /\
  (JSONUtils.diff_json a a = ∅ <-> forall k, is_nan (JSONUtils.py_get a k) = false) /\
  (JSONUtils.diff_json a b = ∅
   <-> forall k, py_eq (JSONUtils.py_get a k) (JSONUtils.py_get b k) = true).
Proof.
  intros Hwf.
  assert (Hself : forall k,
            JSONUtils.diff_json a a !! k
            = if is_nan (JSONUtils.py_get a k)
              then Some (JDict [("old", JSONUtils.py_get a k);
                                ("new", JSONUtils.py_get a k)])
              else None).
  { intros k. rewrite diff_json_lookup, py_eq_refl by (by apply py_get_wf).
    by destruct (is_nan _). }
  split; [exact Hself|]. split; split.
  - intros Hempty k. pose proof (Hself k) as Hk.
    rewrite Hempty, lookup_empty in Hk. by destruct (is_nan _).
  - intros Hall. apply map_eq. intros k. by rewrite Hself, Hall, lookup_empty.
  - intros Hempty k. pose proof (diff_json_lookup a b k) as Hk.
    rewrite Hempty, lookup_empty in Hk. by destruct (py_eq _ _).
  - intros Hall. apply map_eq. intros k.
    by rewrite diff_json_lookup, Hall, lookup_empty.
Qed.

Lemma diff_json_empty_witness :
  let a := [("x", JFloat (FNaN 1)); ("n", JDict [("p", JFloat (FNaN 1))]);
            ("l", JList [JFloat (FNaN 1); JFloat (FFinite false 3 (-1))])] in
  JSONUtils.diff_json a a !! "x"
    = Some (JDict [("old", JFloat (FNaN 1)); ("new", JFloat (FNaN 1))]) /\
  JSONUtils.diff_json a a !! "n" = None /\
  JSONUtils.diff_json a a !! "l" = None.
Proof.
  intros a.
  destruct (diff_json_empty a []) as [Hself _].
  - repeat constructor; apply not_elem_of_nil.
  - rewrite !Hself. repeat split; reflexivity.
Defined.

(** X7: the difference is symmetric in structure: [diff_json b a] has an
    entry under the same keys as [diff_json a b], with old and new
    exchanged. *)
Theorem diff_json_sym (a b : entries) (k : string) :
  Forall (fun kv => wf_doc kv.2) a -> Forall (fun kv => wf_doc kv.2) b ->
  JSONUtils.diff_json b a !! k
  = match JSONUtils.diff_json a b !! k with
    | Some _ => Some (JDict [("old", JSONUtils.py_get b k); ("new", JSONUtils.py_get a k)])
    | None => None
    end.
Proof.
  intros Ha Hb. rewrite !diff_json_lookup.
  rewrite (py_eq_sym (JSONUtils.py_get b k) (JSONUtils.py_get a k))
    by (by apply py_get_wf).
  by destruct (py_eq _ _).
Qed.

Lemma diff_json_sym_witness :
  JSONUtils.diff_json [("x", JInt 2); ("z", JInt 3)] [("x", JInt 1); ("y", JInt 2)] !! "x"
  = Some (JDict [("old", JInt 2); ("new", JInt 1)]).
Proof.
  rewrite (diff_json_sym [("x", JInt 1); ("y", JInt 2)] [("x", JInt 2); ("z", JInt 3)] "x").
  - vm_compute. reflexivity.
  - repeat constructor.
  - repeat constructor.
Defined.

(** X8: after a merge, the difference against the base reports the keys of
    the update whose value differs from the base, with the base value as old
    and the update value as new, and the keys outside the update whose value
    is a NaN, with that value as old and new; no other key. *)
Theorem diff_json_after_merge (a b : entries) (k : string) :
  Forall (fun kv => wf_doc kv.2) a -> NoDup (dict_keys b) ->
  JSONUtils.diff_json a (JSONUtils.merge_json a b) !! k
  = if dict_mem k b
    then if py_eq (JSONUtils.py_get a k) (JSONUtils.py_get b k)
         then None
         else Some (JDict [("old", JSONUtils.py_get a k); ("new", JSONUtils.py_get b k)])
    else if is_nan (JSONUtils.py_get a k)
         then Some (JDict [("old", JSONUtils.py_get a k); ("new", JSONUtils.py_get a k)])
         else None.
Proof.
  intros Ha Hb. rewrite diff_json_lookup.
  assert (Hget : JSONUtils.py_get (JSONUtils.merge_json a b) k
                 = if dict_mem k b then JSONUtils.py_get b k else JSONUtils.py_get a k).
  { unfold JSONUtils.py_get, JSONUtils.merge_json, dict_mem. cbv zeta.
    rewrite dict_get_update by done. by destruct (dict_get k b). }
  rewrite Hget. destruct (dict_mem k b); [done|].
  rewrite py_eq_refl by (by apply py_get_wf). by destruct (is_nan _).
Qed.

Lemma diff_json_after_merge_witness :
  let a := [("x", JInt 1); ("y", JInt 2); ("z", JFloat (FNaN 1))] in
  let b := [("y", JFloat (FFinite false 1 1)); ("x", JInt 5)] in
  JSONUtils.diff_json a (JSONUtils.merge_json a b) !! "x"
    = Some (JDict [("old", JInt 1); ("new", JInt 5)]) /\
  JSONUtils.diff_json a (JSONUtils.merge_json a b) !! "y" = None /\
  JSONUtils.diff_json a (JSONUtils.merge_json a b) !! "z"
    = Some (JDict [("old", JFloat (FNaN 1)); ("new", JFloat (FNaN 1))]).
Proof.
  intros a b.
  assert (Ha : Forall (fun kv : string * doc => wf_doc kv.2) a) by repeat constructor.
  assert (Hb : NoDup (dict_keys b))
    by (apply (bool_decide_unpack _); vm_compute; reflexivity).
  rewrite !(diff_json_after_merge a b _ Ha Hb). repeat split; reflexivity.
Defined.

(** ** More on [search_nested_key] and [flatten_json] *)

(** X9: [search_nested_key] returns on every document, and what it returns
    is, up to the order of discovery, the list of the values stored under the
    key in any mapping of the document, each as often as it occurs: the
    elements of a sequence are searched, and so is a value that was found. *)
Theorem search_nested_key_multiset (data : doc) (key : string) :
  exists found,
    JSONUtils.search_nested_key data key = Some found /\
    found ≡ₚ nested_values key data /\
    length found = length (nested_values key data).
Proof.
  destruct (search_nested_key_spec data key) as (found & Hf & Hp).
  exists found. split; [exact Hf|]. split; [exact Hp|]. by rewrite Hp.
Qed.

Lemma paths_leaves d p v : (p, v) ∈ paths d -> is_scalar v = true.
Proof.
  revert p. induction d as [| | | | | l IH | m IH] using doc_nested_ind; intros p Hin;
    try (apply list_elem_of_singleton in Hin; by injection Hin as -> ->).
  - rewrite paths_list in Hin. apply list_elem_of_bind in Hin as ([i x] & Hin & Hx).
    rewrite elem_of_reverse in Hx. unfold under in Hin. cbn [fst snd] in Hin.
    apply list_elem_of_fmap in Hin as ([q y] & [= -> ->] & Hq).
    rewrite Forall_forall in IH. apply (IH x) with q; [|done].
    unfold JSONUtils.enumerate in Hx. by apply elem_of_zip_r in Hx.
  - apply elem_of_paths_dict in Hin as (k & c & q & -> & Hm & Hq).
    rewrite Forall_forall in IH. by apply (IH (k, c) Hm q).
Qed.

Lemma set_items_NoDup (l acc : entries) :
  NoDup (dict_keys acc) -> NoDup (dict_keys (fold_left set_item l acc)).
Proof.
  revert acc. induction l as [|[k v] l IH]; intros acc Hnd; [done|].
  cbn [fold_left]. apply IH. unfold set_item. by apply NoDup_dict_keys_set.
Qed.

Lemma elem_of_dict_set {A} k (v : A) m k' v' :
  (k', v') ∈ dict_set k v m -> (k', v') = (k, v) \/ (k', v') ∈ m.
Proof.
  induction m as [|[k0 v0] m IH]; cbn.
  - intros ->%list_elem_of_singleton. by left.
  - destruct (String.eqb k k0) eqn:E.
    + apply String.eqb_eq in E. subst k0.
      intros [-> | Hin]%elem_of_cons; [by left|]. right. by apply list_elem_of_further.
    + intros [-> | Hin]%elem_of_cons; [right; apply list_elem_of_here|].
      destruct (IH Hin) as [-> | Hin']; [by left|]. right. by apply list_elem_of_further.
Qed.

Lemma elem_of_set_items (l acc : entries) kv :
  kv ∈ fold_left set_item l acc -> kv ∈ l \/ kv ∈ acc.
Proof.
  revert acc. induction l as [|[k v] l IH]; intros acc Hin; [by right|].
  cbn [fold_left] in Hin. destruct (IH _ Hin) as [Hl | Hacc].
  - left. by apply list_elem_of_further.
  - destruct kv as [k' v']. unfold set_item in Hacc. cbn [fst snd] in Hacc.
    apply elem_of_dict_set in Hacc as [-> | Hacc]; [|by right].
    left. apply list_elem_of_here.
Qed.

(** X10: [flatten_json] returns on every document, for every separator and
    parent key: the result is what writing the leaves of the document, last
    child first, each under the key built along its path, leaves in an empty
    mapping.  Its keys are unique, every item is a leaf of the document under
    the key of its path, and every value is a scalar. *)
Theorem flatten_json_leaves (d : doc) (parent sep : string) :
  exists F,
    JSONUtils.flatten_json d parent sep = Some F /\
    F = fold_left set_item
          ((fun pv => (path_key sep parent pv.1, pv.2)) <$> paths d) [] /\
    NoDup (dict_keys F) /\
    (forall k v, (k, v) ∈ F ->
       is_scalar v = true /\ exists p, (p, v) ∈ paths d /\ k = path_key sep parent p).
Proof.
  eexists. split; [apply flatten_json_spec|]. split; [reflexivity|]. split.
  - apply set_items_NoDup, NoDup_nil_2.
  - intros k v Hin. apply elem_of_set_items in Hin as [Hin | Hin];
      [|by apply elem_of_nil in Hin].
    unfold emitted in Hin. cbn [fst snd] in Hin.
    apply list_elem_of_fmap in Hin as ([p x] & [= -> ->] & Hp).
    split; [by eapply paths_leaves|]. by exists p.
Qed.

(** ** Sequences come back as mappings *)


Lemma as_mappings_list l :
  as_mappings (JList l) = JDict (indexed 0 (as_mappings <$> l)).
Proof.
  cbn [as_mappings]. f_equal. unfold indexed. generalize 0%nat as i.
  induction l as [|v l IH]; intros i; [done|].
  cbn. f_equal. apply IH.
Qed.

Lemma as_mappings_dict m :
  as_mappings (JDict m) = JDict ((fun kv => (kv.1, as_mappings kv.2)) <$> m).
Proof.
  cbn [as_mappings]. f_equal. induction m as [|[k v] m IH]; [done|].
  cbn. f_equal. apply IH.
Qed.

Lemma paths_indexed i (l : list doc) :
  paths (JDict (indexed i l))
  = reverse (zip (seq i (length l)) l) ≫= (fun iv => under (str_of_nat iv.1) (paths iv.2)).
Proof.
  rewrite paths_dict. unfold indexed. revert i.
  induction l as [|v l IH]; intros i; [done|].
  cbn [length seq fmap list_fmap zip zip_with].
  rewrite !reverse_cons, !bind_app. f_equal. apply IH.
Qed.

Lemma paths_as_mappings d : paths (as_mappings d) = paths d.
Proof.
  induction d as [| | | | | l IH | m IH] using doc_nested_ind; try done.
  - rewrite as_mappings_list, paths_indexed, paths_list. unfold JSONUtils.enumerate.
    rewrite length_fmap. generalize 0%nat as i.
    induction l as [|v l IHl]; intros i; [done|].
    apply Forall_cons in IH as [Hv IH].
    cbn [length seq fmap list_fmap zip zip_with combine].
    rewrite !reverse_cons, !bind_app. f_equal; [by apply IHl|].
    cbn. by rewrite Hv.
  - rewrite as_mappings_dict, !paths_dict, <- fmap_reverse.
    rewrite Forall_forall in IH.
    induction m as [|[k v] m IHm]; [done|].
    cbn [fmap list_fmap]. rewrite !reverse_cons, fmap_app, !bind_app.
    f_equal.
    + apply IHm. intros kv Hkv. apply IH. by apply list_elem_of_further.
    + pose proof (IH (k, v) (list_elem_of_here _ _)) as Hv. cbn in Hv.
      cbn. by rewrite Hv.
Qed.

(** X11: [flatten_json] does not tell a sequence from the mapping that binds
    each index, written as a string, to the element at that index: both
    flatten to the same result, for every separator and parent key. *)
Theorem flatten_json_sequence_as_mapping (d : doc) (parent sep : string) :
  JSONUtils.flatten_json d parent sep
  = JSONUtils.flatten_json (as_mappings d) parent sep /\
  forall l : list doc,
    JSONUtils.flatten_json (JList l) parent sep
    = JSONUtils.flatten_json (JDict (indexed 0 l)) parent sep.
Proof.
  split.
  - rewrite !flatten_json_spec. unfold emitted. cbn [fst snd].
    by rewrite paths_as_mappings.
  - intros l. rewrite !flatten_json_spec. unfold emitted. cbn [fst snd].
    by rewrite paths_indexed, paths_list.
Qed.

(** Indices as strings *)

Lemma string_of_uint_no_dot d : no_dot (NilEmpty.string_of_uint d) = true.
Proof. induction d; cbn; done. Qed.

Lemma to_uint_nonnil n : Nat.to_uint n <> Decimal.Nil.
Proof.
  rewrite <- (DecimalNat.Unsigned.of_to n) at 1.
  rewrite DecimalNat.Unsigned.to_of. unfold Decimal.unorm.
  by destruct (Decimal.nzhead (Nat.to_uint n)).
Qed.

Lemma str_of_nat_segment i : segment (str_of_nat i) = true.
Proof.
  unfold segment, str_of_nat. rewrite string_of_uint_no_dot, andb_true_r.
  apply negb_true_iff, String.eqb_neq.
  pose proof (to_uint_nonnil i) as Hne. by destruct (Nat.to_uint i).
Qed.

Lemma str_of_nat_inj i j : str_of_nat i = str_of_nat j -> i = j.
Proof.
  unfold str_of_nat. intros Heq. apply DecimalNat.Unsigned.to_uint_inj.
  pose proof (NilEmpty.usu (Nat.to_uint i)) as Hi.
  pose proof (NilEmpty.usu (Nat.to_uint j)) as Hj.
  rewrite Heq in Hi. congruence.
Qed.

Lemma dict_keys_indexed {A} i (l : list A) :
  dict_keys (indexed i l) = str_of_nat <$> seq i (length l).
Proof.
  unfold indexed, dict_keys. change (map fst ?x) with (fst <$> x).
  apply fst_zip. by rewrite length_fmap, length_seq.
Qed.

Lemma NoDup_dict_keys_indexed {A} i (l : list A) : NoDup (dict_keys (indexed i l)).
Proof.
  rewrite dict_keys_indexed. apply NoDup_fmap_2; [|apply NoDup_seq].
  intros x y. apply str_of_nat_inj.
Qed.

Lemma values_indexed {A} i (l : list A) : (indexed i l).*2 = l.
Proof.
  unfold indexed. apply snd_zip. by rewrite length_fmap, length_seq.
Qed.

Lemma Forall_indexed {A} (P : string * A -> Prop) i (l : list A) :
  (forall j x, x ∈ l -> P (str_of_nat j, x)) -> Forall P (indexed i l).
Proof.
  intros HP. unfold indexed. revert i. induction l as [|x l IH]; intros i.
  - apply Forall_nil_2.
  - cbn. apply Forall_cons_2.
    + apply HP, list_elem_of_here.
    + apply IH. intros j y Hy. apply HP. by apply list_elem_of_further.
Qed.

Lemma seq_value_rt d : seq_value d = true -> rt_value (as_mappings d) = true.
Proof.
  induction d as [| | | | | l IH | m IH] using doc_nested_ind; intros Hs; try done.
  - rewrite as_mappings_list, rt_value_dict. cbn [seq_value] in Hs.
    apply andb_true_iff in Hs as [Hne Hall]. apply andb_true_iff. split.
    { by destruct l. }
    unfold rt_entries. apply forallb_forall. intros kv Hkv.
    apply list_elem_of_In in Hkv. revert kv Hkv. apply Forall_forall.
    apply Forall_indexed. intros j x Hx. cbn [fst snd].
    rewrite (segment_no_dot _ (str_of_nat_segment j)). cbn [andb].
    apply list_elem_of_fmap in Hx as (y & -> & Hy).
    rewrite Forall_forall in IH. apply (IH y Hy).
    clear Hne IH. induction l as [|z l IHl]; [by apply elem_of_nil in Hy|].
    apply andb_true_iff in Hall as [Hz Hall].
    apply elem_of_cons in Hy as [-> | Hy]; [done|by apply IHl].
  - rewrite as_mappings_dict, rt_value_dict. cbn [seq_value] in Hs.
    apply andb_true_iff in Hs as [Hne Hall]. apply andb_true_iff. split.
    { by destruct m. }
    clear Hne. unfold rt_entries. induction m as [|[k v] m IHm]; [done|].
    apply Forall_cons in IH as [Hv IH]. cbn [snd] in Hv.
    apply andb_true_iff in Hall as [[Hk Hsv]%andb_true_iff Hall].
    cbn [fmap list_fmap forallb fst snd].
    rewrite (segment_no_dot k Hk), (Hv Hsv). cbn [andb]. by apply IHm.
Qed.

Lemma seq_doc_rt d : seq_doc d = true -> rt_doc (as_mappings d) = true.
Proof.
  destruct d as [| | | | | l | m]; try done. cbn [seq_doc]. intros Hs.
  rewrite as_mappings_dict. apply rt_doc_dict.
  rewrite forallb_forall in Hs. split.
  - unfold rt_entries. apply forallb_forall. intros kv Hin.
    apply list_elem_of_In, list_elem_of_fmap in Hin as ([k v] & -> & Hin).
    apply list_elem_of_In, Hs in Hin. cbn [fst snd] in *.
    apply andb_true_iff in Hin as [Hk Hsv].
    by rewrite (segment_no_dot k Hk), (seq_value_rt v Hsv).
  - apply Forall_fmap, Forall_forall. intros [k v] Hin Hk. cbn [fst snd] in *.
    apply list_elem_of_In, Hs in Hin. cbn [fst snd] in Hin.
    apply andb_true_iff in Hin as [Hseg _]. by apply segment_nonempty in Hseg.
Qed.

Lemma as_mappings_wf d : wf_doc d -> wf_doc (as_mappings d).
Proof.
  induction d as [| | | | | l IH | m IH] using doc_nested_ind; intros Hwf; try done.
  - rewrite as_mappings_list. apply wf_doc_list in Hwf. apply wf_doc_dict.
    split; [apply NoDup_dict_keys_indexed|].
    apply Forall_indexed. intros j x Hx. cbn [snd].
    apply list_elem_of_fmap in Hx as (y & -> & Hy).
    rewrite Forall_forall in IH. rewrite Forall_forall in Hwf.
    by apply (IH y Hy), Hwf.
  - rewrite as_mappings_dict. apply wf_doc_dict in Hwf as [Hnd Hwf].
    apply wf_doc_dict. split.
    + unfold dict_keys in *. change (map fst ?x) with (fst <$> x).
      by rewrite <- list_fmap_compose.
    + apply Forall_fmap. rewrite Forall_forall in IH. rewrite Forall_forall in Hwf.
      apply Forall_forall. intros kv Hkv. cbn. by apply (IH kv Hkv), Hwf.
Qed.

Lemma forallb_false {A} (f : A -> bool) (l : list A) x :
  x ∈ l -> f x = false -> forallb f l = false.
Proof.
  intros Hx Hf. destruct (forallb f l) eqn:E; [|done].
  rewrite forallb_forall in E. apply list_elem_of_In, E in Hx. congruence.
Qed.

Lemma has_list_dict m :
  has_list (JDict m) = true -> exists k v, (k, v) ∈ m /\ has_list v = true.
Proof.
  cbn [has_list]. induction m as [|[k v] m IH]; [done|].
  intros [Hv | Hm]%orb_true_iff.
  - exists k, v. split; [apply list_elem_of_here|done].
  - destruct (IH Hm) as (k' & v' & Hin & Hv'). exists k', v'.
    split; [by apply list_elem_of_further|done].
Qed.

(** A document that holds a sequence differs from what comes back. *)
Lemma py_eq_in_mirror_has_list d :
  wf_doc d -> has_list d = true -> py_eq_in (mirror (as_mappings d)) d = false.
Proof.
  induction d as [| | | | | l IH | m IH] using doc_nested_ind; intros Hwf Hl; try done.
  apply wf_doc_dict in Hwf as [Hnd Hwf].
  destruct (has_list_dict m Hl) as (k & v & Hin & Hv).
  rewrite as_mappings_dict, mirror_dict, py_eq_in_dict.
  apply andb_false_iff. right.
  apply (forallb_false _ _ (k, mirror (as_mappings v))).
  - unfold mirror_entries. rewrite elem_of_reverse, <- list_fmap_compose.
    apply list_elem_of_fmap. by exists (k, v).
  - cbn [fst snd]. rewrite (elem_of_dict_get k v m Hnd Hin).
    rewrite Forall_forall in IH. rewrite Forall_forall in Hwf.
    exact (IH (k, v) Hin (Hwf (k, v) Hin) Hv).
Qed.

(** X12: the round trip of a document with sequences.  For a mapping with
    unique keys whose keys are non-empty and free of ["."], without an empty
    mapping or an empty sequence below the root, flattening and then
    unflattening returns the document with every sequence replaced by the
    mapping from its indices, as strings, to its elements; when the document
    holds a sequence, that is not the document. *)
Theorem unflatten_flatten_sequences (D : doc) :
  seq_doc D = true -> wf_doc D ->
  exists F U,
    JSONUtils.flatten_json D "" "." = Some F /\
    JSONUtils.unflatten_json F "." = Some U /\
    py_eq U (as_mappings D) = true /\
    (has_list D = true -> py_eq U D = false).
Proof.
  intros Hs Hwf.
  pose proof (seq_doc_rt D Hs) as Hrt. pose proof (as_mappings_wf D Hwf) as Hwf'.
  exists (flat_rows (paths (as_mappings D))), (mirror (as_mappings D)).
  split.
  { rewrite <- (flatten_json_rt _ Hrt Hwf'), !flatten_json_spec.
    unfold emitted. cbn [fst snd]. by rewrite paths_as_mappings. }
  split; [|split].
  2: { apply py_eq_mirror; [|done]. by destruct (as_mappings D). }
  2: { intros Hl. destruct D as [| | | | | |m]; try done.
       rewrite as_mappings_dict, mirror_dict, py_eq_dict_in.
       rewrite <- mirror_dict, <- as_mappings_dict.
       by apply py_eq_in_mirror_has_list. }
  destruct (rt_doc_cases _ Hrt) as [Heq | [Hd Hv]].
  { by rewrite Heq. }
  rewrite unflatten_json_rows by (by apply rt_paths_valid).
  destruct (as_mappings D) as [| | | | | |m] eqn:HD; try done.
  apply (put_all_paths_mirror (JDict m) m); [done| |done].
  rewrite rt_value_dict in Hv. by apply andb_true_iff in Hv as [_ Hv].
Qed.

Lemma unflatten_flatten_sequences_witness :
  let D := JDict [("a", JList [JInt 1; JDict [("b", JNull)]])] in
  (JSONUtils.flatten_json D "" "." ≫= fun F => JSONUtils.unflatten_json F ".")
    = Some (JDict [("a", JDict [("1", JDict [("b", JNull)]); ("0", JInt 1)])]) /\
  exists F U,
    JSONUtils.flatten_json D "" "." = Some F /\
    JSONUtils.unflatten_json F "." = Some U /\
    py_eq U (as_mappings D) = true /\
    (has_list D = true -> py_eq U D = false).
Proof.
  intros D. split; [reflexivity|].
  apply (unflatten_flatten_sequences D).
  - vm_compute. reflexivity.
  - simpl. repeat split; apply (bool_decide_unpack _); vm_compute; reflexivity.
Defined.

(** ** [unflatten_json]: separator, shape, lookups and conflicts *)

Lemma unflatten_from_None sep F : unflatten_from sep F None = None.
Proof. induction F as [|kv F IH]; [done|]. exact IH. Qed.

Lemma unflatten_from_app sep F1 F2 d :
  unflatten_from sep (F1 ++ F2) d = unflatten_from sep F2 (unflatten_from sep F1 d).
Proof. apply fold_left_app. Qed.

Lemma unflatten_from_cons sep k v F d :
  unflatten_from sep ((k, v) :: F) (Some d)
  = unflatten_from sep F (JSONUtils.unflatten_step sep d (k, v)).
Proof. reflexivity. Qed.

Lemma unflatten_json_from F sep :
  JSONUtils.unflatten_json F sep = unflatten_from sep F (Some (JDict [])).
Proof. reflexivity. Qed.

Lemma unflatten_step_put sep d k v p :
  py_split k sep = Some p -> JSONUtils.unflatten_step sep d (k, v) = put d p v.
Proof. intros Hp. unfold JSONUtils.unflatten_step, put. by rewrite Hp. Qed.

Lemma unflatten_step_Some sep d k v d' :
  JSONUtils.unflatten_step sep d (k, v) = Some d' ->
  exists keys last_key,
    py_split k sep = Some (keys ++ [last_key]) /\
    JSONUtils.set_path d keys last_key v = Some d'.
Proof.
  unfold JSONUtils.unflatten_step. destruct (py_split k sep) as [p|] eqn:Hp; [|done].
  cbn [mbind option_bind]. destruct (last p) as [l|] eqn:Hl; [|done].
  cbn [mbind option_bind]. intros Hset. exists (removelast p), l. split; [|done].
  f_equal. destruct p as [|x p] using rev_ind; [done|].
  rewrite last_snoc in Hl. injection Hl as ->. by rewrite removelast_last.
Qed.

Lemma put_snoc d keys last_key v :
  put d (keys ++ [last_key]) v = JSONUtils.set_path d keys last_key v.
Proof. unfold put. by rewrite last_snoc, removelast_last. Qed.

Lemma set_path_dict d keys last_key v d' :
  JSONUtils.set_path d keys last_key v = Some d' -> is_dict d = true /\ is_dict d' = true.
Proof.
  destruct keys as [|key keys]; destruct d as [| | | | | |m]; try (by cbn);
    cbn [JSONUtils.set_path].
  - by intros [= <-].
  - destruct (dict_get key _) as [c|]; [|done]. cbn [mbind option_bind].
    destruct (JSONUtils.set_path c keys last_key v); [|done]. by intros [= <-].
Qed.

Lemma Forall_dict_set {A} (P : string * A -> Prop) k v (m : list (string * A)) :
  P (k, v) -> Forall P m -> Forall P (dict_set k v m).
Proof.
  intros Hv. induction 1 as [|[k' v'] m Hx Hm IH]; cbn [dict_set].
  - by apply Forall_singleton.
  - destruct (String.eqb k k') eqn:E.
    + apply String.eqb_eq in E as ->. by apply Forall_cons_2.
    + by apply Forall_cons_2.
Qed.

Lemma wf_doc_dict_set k v m :
  wf_doc (JDict m) -> wf_doc v -> wf_doc (JDict (dict_set k v m)).
Proof.
  rewrite !wf_doc_dict. intros [Hnd Hm] Hv. split.
  - by apply NoDup_dict_keys_set.
  - by apply Forall_dict_set.
Qed.

Lemma wf_doc_dict_get k v m : wf_doc (JDict m) -> dict_get k m = Some v -> wf_doc v.
Proof.
  rewrite wf_doc_dict. intros [_ Hm] Hg. apply dict_get_elem_of in Hg.
  rewrite Forall_forall in Hm. apply (Hm (k, v) Hg).
Qed.

Lemma set_path_wf keys : forall d last_key v d',
  wf_doc d -> wf_doc v ->
  JSONUtils.set_path d keys last_key v = Some d' -> wf_doc d'.
Proof.
  induction keys as [|key keys IH]; intros d last_key v d' Hd Hv;
    destruct d as [| | | | | |m]; try (by cbn); cbn [JSONUtils.set_path].
  - intros [= <-]. by apply wf_doc_dict_set.
  - set (m1 := if dict_mem key m then m else dict_set key (JDict []) m).
    assert (wf_doc (JDict m1)) as Hm1.
    { unfold m1. destruct (dict_mem key m); [done|].
      apply wf_doc_dict_set; [done|]. cbn. split; [apply NoDup_nil_2|done]. }
    destruct (dict_get key m1) as [c|] eqn:Hc; [|done]. cbn [mbind option_bind].
    destruct (JSONUtils.set_path c keys last_key v) as [c'|] eqn:Hc'; [|done].
    intros [= <-]. apply wf_doc_dict_set; [done|].
    apply (IH c last_key v c'); [|done|done]. by apply (wf_doc_dict_get key c m1).
Qed.

Lemma set_path_get keys : forall d last_key v d',
  JSONUtils.set_path d keys last_key v = Some d' ->
  get_path d' (keys ++ [last_key]) = Some v.
Proof.
  induction keys as [|key keys IH]; intros d last_key v d';
    destruct d as [| | | | | |m]; try (by cbn); cbn [JSONUtils.set_path].
  - intros [= <-]. cbn. by rewrite dict_get_set_eq.
  - destruct (dict_get key _) as [c|]; [|done]. cbn [mbind option_bind].
    destruct (JSONUtils.set_path c keys last_key v) as [c'|] eqn:Hc'; [|done].
    intros [= <-]. cbn [app get_path]. rewrite dict_get_set_eq. cbn [mbind option_bind].
    by apply (IH c).
Qed.

Lemma set_path_blocks keys : forall d last_key v d' q,
  JSONUtils.set_path d keys last_key v = Some d' ->
  is_dict v = false -> q <> [] ->
  blocked d' ((keys ++ [last_key]) ++ q) = true.
Proof.
  induction keys as [|key keys IH]; intros d last_key v d' q;
    destruct d as [| | | | | |m]; try (by cbn); cbn [JSONUtils.set_path].
  - intros [= <-] Hv Hq. cbn [app blocked]. rewrite dict_get_set_eq.
    destruct q; [done|]. by destruct v.
  - destruct (dict_get key _) as [c|]; [|done]. cbn [mbind option_bind].
    destruct (JSONUtils.set_path c keys last_key v) as [c'|] eqn:Hc'; [|done].
    intros [= <-] Hv Hq. cbn [app blocked]. rewrite dict_get_set_eq.
    by apply (IH c last_key v c').
Qed.

Lemma blocked_set_path keys : forall d last_key v,
  blocked d (keys ++ [last_key]) = true ->
  JSONUtils.set_path d keys last_key v = None.
Proof.
  induction keys as [|key keys IH]; intros d last_key v;
    destruct d as [| | | | | |m]; try (by cbn); cbn [app blocked JSONUtils.set_path].
  - by destruct (dict_get last_key m).
  - destruct (dict_get key m) as [c|] eqn:Hc; [|done]. intros Hb.
    assert (dict_mem key m = true) as Hm by (unfold dict_mem; by rewrite Hc).
    rewrite Hm, Hc. cbn [mbind option_bind].
    by rewrite (IH c last_key v Hb).
Qed.

Lemma blocked_preserved keys : forall d last_key v d' path,
  blocked d path = true -> is_dict v = false ->
  JSONUtils.set_path d keys last_key v = Some d' ->
  blocked d' path = true.
Proof.
  induction keys as [|key keys IH]; intros d last_key v d' path;
    destruct d as [| | | | | |m]; try (by cbn);
    destruct path as [|k0 path]; try (by cbn); cbn [blocked JSONUtils.set_path];
    destruct (dict_get k0 m) as [c|] eqn:Hc; try done; intros Hb Hv.
  - intros [= <-]. cbn [blocked]. rewrite dict_get_set.
    destruct (String.eqb last_key k0); [|by rewrite Hc].
    destruct path; [done|]. by destruct v.
  - set (m1 := if dict_mem key m then m else dict_set key (JDict []) m).
    destruct (dict_get key m1) as [c1|] eqn:Hc1; [|done]. cbn [mbind option_bind].
    destruct (JSONUtils.set_path c1 keys last_key v) as [c'|] eqn:Hc'; [|done].
    intros [= <-]. cbn [blocked]. rewrite dict_get_set.
    destruct (String.eqb key k0) eqn:E.
    + apply String.eqb_eq in E as ->. apply (IH c1 last_key v c'); [|done|done].
      unfold m1, dict_mem in Hc1. rewrite Hc in Hc1. congruence.
    + assert (dict_get k0 m1 = Some c) as ->; [|done].
      unfold m1. destruct (dict_mem key m); [done|].
      rewrite dict_get_set_ne; [done|]. by apply String.eqb_neq.
Qed.

Lemma unflatten_from_blocked sep F : forall d path,
  Forall (fun kv => is_dict kv.2 = false) F ->
  blocked d path = true ->
  match unflatten_from sep F (Some d) with
  | Some d' => blocked d' path = true
  | None => True
  end.
Proof.
  induction F as [|[k v] F IH]; intros d path HF Hb; [done|].
  apply Forall_cons in HF as [Hv HF]. rewrite unflatten_from_cons.
  destruct (JSONUtils.unflatten_step sep d (k, v)) as [d1|] eqn:Hstep.
  - apply IH; [done|]. apply unflatten_step_Some in Hstep as (keys & l & _ & Hset).
    by apply (blocked_preserved keys d l v d1).
  - by rewrite unflatten_from_None.
Qed.

Lemma unflatten_from_shape sep F : forall d U,
  unflatten_from sep F (Some d) = Some U ->
  (is_dict d = true -> is_dict U = true) /\
  (wf_doc d -> Forall (fun kv => wf_doc kv.2) F -> wf_doc U).
Proof.
  induction F as [|[k v] F IH]; intros d U.
  - intros [= <-]. done.
  - rewrite unflatten_from_cons.
    destruct (JSONUtils.unflatten_step sep d (k, v)) as [d1|] eqn:Hstep;
      [|by rewrite unflatten_from_None].
    intros HU. destruct (IH d1 U HU) as [Hdict Hwf].
    apply unflatten_step_Some in Hstep as (keys & l & _ & Hset). split.
    + intros _. apply Hdict. by apply set_path_dict in Hset as [_ ?].
    + intros Hd [Hv HF]%Forall_cons. apply Hwf; [|done].
      by apply (set_path_wf keys d l v d1).
Qed.

(** X13: an empty separator.  [unflatten_json] with [sep = ""] raises as soon
    as there is one item, whatever its key and whatever follows; on an empty
    mapping it returns the empty mapping. *)
Theorem unflatten_json_empty_separator (F : entries) :
  JSONUtils.unflatten_json F ""
  = match F with [] => Some (JDict []) | _ :: _ => None end.
Proof.
  destruct F as [|[k v] F]; [done|].
  rewrite unflatten_json_from, unflatten_from_cons.
  apply unflatten_from_None.
Qed.

(** X14: what [unflatten_json] returns.  Whenever it returns, the result is
    a mapping; when the values of the flat mapping have unique keys at every
    level, so has the result. *)
Theorem unflatten_json_shape (F : entries) (sep : string) (U : doc) :
  JSONUtils.unflatten_json F sep = Some U ->
  is_dict U = true /\ (Forall (fun kv => wf_doc kv.2) F -> wf_doc U).
Proof.
  rewrite unflatten_json_from. intros HU.
  destruct (unflatten_from_shape sep F (JDict []) U HU) as [Hd Hwf].
  split; [by apply Hd|]. apply Hwf. cbn. split; [apply NoDup_nil_2|done].
Qed.

Lemma unflatten_json_shape_witness :
  let F := [("a.b", JInt 1); ("a.c", JDict [("x", JNull)]); ("d", JList [])] in
  let U := JDict [("a", JDict [("b", JInt 1); ("c", JDict [("x", JNull)])]); ("d", JList [])] in
  is_dict U = true /\ (Forall (fun kv => wf_doc kv.2) F -> wf_doc U).
Proof.
  intros F U. apply (unflatten_json_shape F "." U). reflexivity.
Defined.

(** X15: the last item is found where its key points.  When [unflatten_json]
    returns, following the pieces of the key of the last item of the flat
    mapping through the result leads to the value of that item. *)
Theorem unflatten_json_last_item (F : entries) (k : string) (v : doc)
    (sep : string) (p : list string) (U : doc) :
  JSONUtils.unflatten_json (F ++ [(k, v)]) sep = Some U ->
  py_split k sep = Some p ->
  get_path U p = Some v.
Proof.
  rewrite unflatten_json_from, unflatten_from_app. intros HU Hp.
  destruct (unflatten_from sep F (Some (JDict []))) as [d|]; [|done].
  cbn [unflatten_from fold_left mbind option_bind] in HU.
  apply unflatten_step_Some in HU as (keys & l & Hp' & Hset).
  rewrite Hp in Hp'. injection Hp' as ->. by apply (set_path_get keys d).
Qed.

Lemma unflatten_json_last_item_witness :
  get_path (JDict [("a", JDict [("b", JInt 1); ("c", JInt 2)])]) ["a"; "c"]
  = Some (JInt 2).
Proof.
  apply (unflatten_json_last_item [("a.b", JInt 1)] "a.c" (JInt 2) "."); reflexivity.
Defined.

(** X16: a key that continues an earlier key.  When the flat mapping binds a
    key to a value that is not a mapping and a later key has the pieces of
    that key followed by further pieces, [unflatten_json] raises, provided
    the values in between are not mappings either. *)
Theorem unflatten_json_prefix_conflict (F1 F2 F3 : entries) (k k' : string)
    (v v' : doc) (sep : string) (p q : list string) :
  is_dict v = false ->
  Forall (fun kv => is_dict kv.2 = false) F2 ->
  py_split k sep = Some p ->
  py_split k' sep = Some (p ++ q) ->
  q <> [] ->
  JSONUtils.unflatten_json (F1 ++ (k, v) :: F2 ++ (k', v') :: F3) sep = None.
Proof.
  intros Hv HF2 Hp Hpq Hq.
  rewrite unflatten_json_from, unflatten_from_app.
  destruct (unflatten_from sep F1 (Some (JDict []))) as [d1|];
    [|apply unflatten_from_None].
  rewrite unflatten_from_cons, unflatten_from_app.
  destruct (JSONUtils.unflatten_step sep d1 (k, v)) as [d2|] eqn:Hstep;
    [|by rewrite !unflatten_from_None].
  apply unflatten_step_Some in Hstep as (keys & l & Hp' & Hset).
  rewrite Hp in Hp'. injection Hp' as ->.
  pose proof (set_path_blocks keys d1 l v d2 q Hset Hv Hq) as Hb.
  pose proof (unflatten_from_blocked sep F2 d2 _ HF2 Hb) as Hb2.
  destruct (unflatten_from sep F2 (Some d2)) as [d3|]; [|apply unflatten_from_None].
  rewrite unflatten_from_cons, (unflatten_step_put sep d3 k' v' _ Hpq).
  destruct ((keys ++ [l]) ++ q) as [|x r] eqn:Hr using rev_ind.
  { by destruct keys. }
  rewrite put_snoc, blocked_set_path; [apply unflatten_from_None|done].
Qed.

Lemma unflatten_json_prefix_conflict_witness :
  JSONUtils.unflatten_json
    ([("z", JDict [])] ++ ("a.b", JInt 1) :: [("c", JNull)] ++ ("a.b.c.d", JInt 2) :: []) "."
  = None.
Proof.
  apply (unflatten_json_prefix_conflict _ _ _ _ _ _ _ "." ["a"; "b"] ["c"; "d"]);
    try reflexivity; try done.
  repeat constructor.
Defined.

(** X17: keys without the separator.  On a flat mapping with unique keys none
    of which holds ["."], [unflatten_json] returns the mapping itself,
    whatever its values. *)
Theorem unflatten_json_flat_keys (F : entries) :
  NoDup (dict_keys F) ->
  Forall (fun kv => no_dot kv.1 = true) F ->
  JSONUtils.unflatten_json F "." = Some (JDict F).
Proof.
  intros Hnd Hk. rewrite unflatten_json_from.
  change (Some (JDict F)) with (Some (JDict ([] ++ F))).
  assert (forall k, k ∈ dict_keys (@nil (string * doc)) -> k ∉ dict_keys F) as Hfresh.
  { intros k Hk'. by apply elem_of_nil in Hk'. }
  revert Hfresh. generalize (@nil (string * doc)) as m. revert Hnd Hk.
  induction F as [|[k v] F IH]; intros Hnd Hk m Hfresh.
  - by rewrite app_nil_r.
  - apply NoDup_cons in Hnd as [Hk1 Hnd]. apply Forall_cons in Hk as [Hk0 Hk].
    cbn [fst] in Hk0. rewrite unflatten_from_cons.
    rewrite (unflatten_step_put "." _ k v [k]).
    + rewrite put_single, dict_set_fresh.
      * rewrite (IH Hnd Hk (m ++ [(k, v)])); [by rewrite <- app_assoc|].
        intros k2. unfold dict_keys. rewrite map_app, elem_of_app.
        intros [Hk2 | Hk2].
        -- apply Hfresh in Hk2. cbn in Hk2. by apply not_elem_of_cons in Hk2 as [_ ?].
        -- cbn in Hk2. apply list_elem_of_singleton in Hk2 as ->. exact Hk1.
      * intros Hin. apply Hfresh in Hin. apply Hin. apply list_elem_of_here.
    + unfold py_split. cbn [String.eqb]. by rewrite split_go_no_dot.
Qed.

Lemma unflatten_json_flat_keys_witness :
  JSONUtils.unflatten_json [("a", JList [JInt 1]); ("", JDict [("x.y", JNull)])] "."
  = Some (JDict [("a", JList [JInt 1]); ("", JDict [("x.y", JNull)])]).
Proof.
  apply unflatten_json_flat_keys.
  - apply (bool_decide_unpack _). vm_compute. reflexivity.
  - repeat constructor.
Defined.

(** ** [normalize_keys_to_string] *)

Lemma normalize_dict {K} (str : K -> string) m :
  JSONUtils.normalize_keys_to_string str (RDict m)
  = JDict (dict_update [] (normalized_items str m)).
Proof.
  cbn [JSONUtils.normalize_keys_to_string]. f_equal.
  unfold dict_update, normalized_items. generalize (@nil (string * doc)) as acc.
  induction m as [|[k v] m IH]; intros acc; [done|]. cbn. apply IH.
Qed.

Lemma normalize_list {K} (str : K -> string) l :
  JSONUtils.normalize_keys_to_string str (RList l)
  = JList (JSONUtils.normalize_keys_to_string str <$> l).
Proof.
  reflexivity.
Qed.

Lemma raw_of_doc_dict m :
  raw_of_doc (JDict m) = RDict ((fun kv => (kv.1, raw_of_doc kv.2)) <$> m).
Proof.
  cbn [raw_of_doc]. f_equal. induction m as [|[k v] m IH]; [done|]. cbn. by rewrite IH.
Qed.

Lemma raw_of_doc_list l : raw_of_doc (JList l) = RList (raw_of_doc <$> l).
Proof.
  reflexivity.
Qed.

Lemma Forall_dict_update {A} (P : string * A -> Prop) (m m2 : list (string * A)) :
  Forall P m -> Forall P m2 -> Forall P (dict_update m m2).
Proof.
  unfold dict_update. revert m. induction m2 as [|[k v] m2 IH]; intros m Hm Hm2; [done|].
  apply Forall_cons in Hm2 as [Hv Hm2]. cbn [fold_left fst snd].
  apply IH; [|done]. by apply Forall_dict_set.
Qed.

Lemma dict_get_update_last {A} k (v : A) m m2 m3 :
  k ∉ dict_keys m3 ->
  dict_get k (dict_update m (m2 ++ (k, v) :: m3)) = Some v.
Proof.
  intros Hk. unfold dict_update. rewrite fold_left_app. cbn [fold_left fst snd].
  generalize (fold_left (fun acc kv => dict_set kv.1 kv.2 acc) m2 m) as acc. intros acc.
  assert (dict_get k (dict_set k v acc) = Some v) as Hget by apply dict_get_set_eq.
  revert Hget. generalize (dict_set k v acc) as acc'. clear acc.
  induction m3 as [|[k' v'] m3 IH]; intros acc Hget; [done|].
  cbn in Hk. apply not_elem_of_cons in Hk as [Hne Hk].
  cbn [fold_left fst snd]. apply IH; [done|].
  rewrite dict_get_set_ne; [done|]. congruence.
Qed.

Lemma normalize_wf {K} (str : K -> string) (r : raw K) :
  wf_doc (JSONUtils.normalize_keys_to_string str r).
Proof.
  induction r as [| | | | | l IH | m IH] using raw_nested_ind; try done.
  - rewrite normalize_list. apply wf_doc_list. by apply Forall_fmap.
  - rewrite normalize_dict. apply wf_doc_dict. split.
    + apply NoDup_dict_keys_update, NoDup_nil_2.
    + apply Forall_dict_update; [done|]. unfold normalized_items. by apply Forall_fmap.
Qed.

Lemma normalize_no_collision {K} (str : K -> string) m :
  NoDup (str <$> m.*1) ->
  JSONUtils.normalize_keys_to_string str (RDict m) = JDict (normalized_items str m).
Proof.
  intros Hnd. rewrite normalize_dict. f_equal.
  rewrite dict_update_fresh; [done|]. cbn [app].
  unfold dict_keys, normalized_items. change (map fst ?x) with (fst <$> x).
  by rewrite <- !list_fmap_compose in *.
Qed.

Lemma normalize_strings d :
  wf_doc d -> JSONUtils.normalize_keys_to_string id (raw_of_doc d) = d.
Proof.
  induction d as [| | | | | l IH | m IH] using doc_nested_ind; intros Hwf; try done.
  - apply wf_doc_list in Hwf. rewrite raw_of_doc_list, normalize_list. f_equal.
    rewrite <- list_fmap_compose. induction l as [|x l IHl]; [done|].
    apply Forall_cons in IH as [Hx IH]. apply Forall_cons in Hwf as [Hwx Hwf].
    cbn. by rewrite (Hx Hwx), (IHl IH Hwf).
  - apply wf_doc_dict in Hwf as [Hnd Hwf]. rewrite raw_of_doc_dict.
    rewrite normalize_no_collision.
    + f_equal. unfold normalized_items. rewrite <- list_fmap_compose. clear Hnd.
      induction m as [|[k v] m IHm]; [done|].
      apply Forall_cons in IH as [Hv IH]. apply Forall_cons in Hwf as [Hwv Hwf].
      cbn in *. by rewrite (Hv Hwv), (IHm IH Hwf).
    + rewrite <- !list_fmap_compose. unfold dict_keys in Hnd.
      change (map fst m) with (fst <$> m) in Hnd.
      exact Hnd.
Qed.

(** X18: the keys of the result.  Whatever the keys of the data and their
    strings, the result of [normalize_keys_to_string] has unique keys at
    every level; the keys of a normalised mapping are the strings of the
    keys of the data. *)
Theorem normalize_keys_to_string_keys {K} (str : K -> string) (r : raw K)
    (m : list (K * raw K)) :
  wf_doc (JSONUtils.normalize_keys_to_string str r) /\
  exists m', JSONUtils.normalize_keys_to_string str (RDict m) = JDict m' /\
    forall s, s ∈ dict_keys m' <-> exists k, k ∈ m.*1 /\ str k = s.
Proof.
  split; [apply normalize_wf|]. rewrite normalize_dict.
  eexists. split; [done|]. intros s. rewrite elem_of_dict_keys_update.
  unfold dict_keys at 1. cbn [map]. rewrite elem_of_nil.
  unfold dict_keys, normalized_items. change (map fst ?x) with (fst <$> x).
  rewrite <- list_fmap_compose, !list_elem_of_fmap. split.
  - intros [[]|([k v] & -> & Hin)]. exists k. split; [|done].
    apply list_elem_of_fmap. by exists (k, v).
  - intros (k & ([k' v] & -> & Hin)%list_elem_of_fmap & <-). right. by exists (k', v).
Qed.

(** X19: keys whose strings differ.  When the strings of the keys of a
    mapping are pairwise different, [normalize_keys_to_string] keeps its
    items one for one and in their order, each key replaced by its string
    and each value normalised. *)
Theorem normalize_keys_to_string_items {K} (str : K -> string)
    (m : list (K * raw K)) :
  NoDup (str <$> m.*1) ->
  JSONUtils.normalize_keys_to_string str (RDict m) = JDict (normalized_items str m).
Proof. apply normalize_no_collision. Qed.

Lemma normalize_keys_to_string_items_witness :
  JSONUtils.normalize_keys_to_string str_of_nat
    (RDict [(10%nat, RList [RDict [(7%nat, RNull)]]); (2%nat, RInt 5)])
  = JDict [("10", JList [JDict [("7", JNull)]]); ("2", JInt 5)].
Proof.
  apply (normalize_keys_to_string_items str_of_nat
           [(10%nat, RList [RDict [(7%nat, RNull)]]); (2%nat, RInt 5)]).
  apply (bool_decide_unpack _). vm_compute. reflexivity.
Defined.

(** X20: keys with the same string.  Of the items of a mapping whose keys
    have the same string, the value of the last one is the value of that
    string in the result. *)
Theorem normalize_keys_to_string_collision {K} (str : K -> string)
    (m1 m2 : list (K * raw K)) (k : K) (v : raw K) :
  (forall k', k' ∈ m2.*1 -> str k' <> str k) ->
  exists m', JSONUtils.normalize_keys_to_string str (RDict (m1 ++ (k, v) :: m2)) = JDict m' /\
    dict_get (str k) m' = Some (JSONUtils.normalize_keys_to_string str v).
Proof.
  intros Hlast. rewrite normalize_dict. eexists. split; [done|].
  unfold normalized_items. rewrite fmap_app, fmap_cons. cbn [fst snd].
  apply dict_get_update_last. unfold dict_keys. change (map fst ?x) with (fst <$> x).
  rewrite <- list_fmap_compose. intros ([k' v'] & Heq & Hin)%list_elem_of_fmap.
  cbn in Heq. apply (Hlast k'); [|done]. apply list_elem_of_fmap. by exists (k', v').
Qed.

Lemma normalize_keys_to_string_collision_witness :
  exists m',
    JSONUtils.normalize_keys_to_string (fun b : bool => "k")
      (RDict ([(true, RInt 1)] ++ (false, RInt 2) :: [])) = JDict m' /\
    dict_get "k" m' = Some (JInt 2).
Proof.
  apply (normalize_keys_to_string_collision (fun b : bool => "k") [(true, RInt 1)] []
           false (RInt 2)).
  intros k' Hk'. by apply elem_of_nil in Hk'.
Defined.

(** X21: data whose keys are strings.  A document with unique keys at every
    level, given to [normalize_keys_to_string] with the identity for [str]
    (Python's [str] on a string), is returned as it is. *)
Theorem normalize_keys_to_string_strings (d : doc) :
  wf_doc d -> JSONUtils.normalize_keys_to_string id (raw_of_doc d) = d.
Proof. apply normalize_strings. Qed.

Lemma normalize_keys_to_string_strings_witness :
  let d := JDict [("a", JList [JDict [("b", JNull); ("c", JInt 1)]]); ("", JStr "x")] in
  JSONUtils.normalize_keys_to_string id (raw_of_doc d) = d.
Proof.
  intros d. apply (normalize_keys_to_string_strings d).
  simpl. repeat split; apply (bool_decide_unpack _); vm_compute; reflexivity.
Defined.

(** X22: normalising twice.  Whatever the keys of the data,
    [normalize_keys_to_string] applied to its own result returns that
    result. *)
Theorem normalize_keys_to_string_idempotent {K} (str : K -> string) (r : raw K) :
  JSONUtils.normalize_keys_to_string id
    (raw_of_doc (JSONUtils.normalize_keys_to_string str r))
  = JSONUtils.normalize_keys_to_string str r.
Proof. apply normalize_strings, normalize_wf. Qed.

(** ** Batches: any paths, any number of failures *)

Lemma async_load_dom (w : World) (file_paths : list string) :
  dom (JSONUtilsAsync.load_multiple_json_files w file_paths) = list_to_set file_paths.
Proof.
  rewrite async_load_unfold, fold_insert_dom, dom_empty_L. apply (right_id_L ∅ (∪)).
Qed.

Lemma list_to_set_remove_dups_str (l : list string) :
  list_to_set (C := gset string) (remove_dups l) = list_to_set l.
Proof. apply set_eq. intros x. by rewrite !elem_of_list_to_set, elem_of_remove_dups. Qed.

Lemma length_remove_dups_le {A} `{EqDecision A} (l : list A) :
  (length (remove_dups l) <= length l)%nat.
Proof.
  induction l as [|x l IH]; [done|]. cbn [remove_dups].
  destruct (decide_rel elem_of x l); cbn [length]; lia.
Qed.

(** X23: a batch load over any paths.  With a path given more than once the
    three strategies still return the same map: it has an entry for a path
    exactly when the path is among those given, and as many entries as there
    are different paths. *)
Theorem batch_load_entries (w : World) (file_paths : list string)
    (max_workers workers : Z) (order : list nat) :
  (0 < max_workers)%Z -> (1 <= workers)%Z ->
  order ≡ₚ seq 0 (length file_paths) ->
  exists results,
    JSONUtils.load_multiple_json_files w file_paths max_workers order = Some results /\
    JSONUtilsProcess.load_multiple_json_files w file_paths workers = Some results /\
    JSONUtilsAsync.load_multiple_json_files w file_paths = results /\
    (forall p, is_Some (results !! p) <-> p ∈ file_paths) /\
    size results = length (remove_dups file_paths) /\
    (size results <= length file_paths)%nat.
Proof.
  intros Hmw Hwk Hord. exists (JSONUtilsAsync.load_multiple_json_files w file_paths).
  split; [by apply thread_load_eq|]. split; [by apply process_load_eq|].
  split; [done|].
  assert (size (JSONUtilsAsync.load_multiple_json_files w file_paths)
          = length (remove_dups file_paths)) as Hsize.
  { rewrite <- size_dom, async_load_dom, <- list_to_set_remove_dups_str.
    apply size_list_to_set, NoDup_remove_dups. }
  split; [|split; [done|]].
  - intros p. rewrite async_load_lookup. case_bool_decide as Hp.
    + split; [done|]. intros _. by eexists.
    + split; [by intros [? ?]|done].
  - rewrite Hsize. apply length_remove_dups_le.
Qed.

Lemma batch_load_entries_witness :
  let w := disk [("a.json", JInt 1)] [] in
  exists results,
    JSONUtils.load_multiple_json_files w ["a.json"; "b.json"; "a.json"] 2 [2; 0; 1]%nat
      = Some results /\
    size results = 2%nat.
Proof.
  intros w.
  destruct (batch_load_entries w ["a.json"; "b.json"; "a.json"] 2 1 [2; 0; 1]%nat)
    as (results & Ht & _ & _ & _ & Hsize & _).
  - lia.
  - lia.
  - apply (bool_decide_unpack _). vm_compute. reflexivity.
  - exists results. split; [exact Ht|exact Hsize].
Defined.

(** X24: the files of a directory.  [load_all_json_files_from_dir] never
    fails to set up its pool: it returns a map with an entry for every path
    the scan of the directory finds and for no other path; the entry is the
    document of the file, or [None] when the file cannot be read or
    decoded. *)
Theorem load_all_json_files_from_dir_spec (w : World)
    (scan : string -> bool -> list string) (directory : string) (recursive : bool)
    (order : list nat) :
  order ≡ₚ seq 0 (length (scan directory recursive)) ->
  exists results,
    JSONUtils.load_all_json_files_from_dir w scan directory recursive order
      = Some results /\
    dom results = list_to_set (scan directory recursive) /\
    forall p, p ∈ scan directory recursive ->
      results !! p = Some (default JNull (read_json w p)).
Proof.
  intros Hord. unfold JSONUtils.load_all_json_files_from_dir. cbv zeta.
  rewrite thread_load_eq by (lia || done). eexists. split; [done|].
  split; [apply async_load_dom|]. intros p Hp. by apply async_load_entry.
Qed.

Lemma load_all_json_files_from_dir_spec_witness :
  let w := disk [("d/a.json", JInt 1); ("d/s/b.json", JNull)] [] in
  let scan := fun (directory : string) (recursive : bool) =>
    if recursive then ["d/a.json"; "d/s/b.json"; "d/s/c.json"] else ["d/a.json"] in
  exists results,
    JSONUtils.load_all_json_files_from_dir w scan "d" true [1; 2; 0]%nat = Some results /\
    results !! "d/s/c.json" = Some JNull /\
    results !! "d/a.json" = Some (JInt 1).
Proof.
  intros w scan.
  destruct (load_all_json_files_from_dir_spec w scan "d" true [1; 2; 0]%nat)
    as (results & Hr & _ & Hentry).
  - apply (bool_decide_unpack _). vm_compute. reflexivity.
  - exists results. split; [exact Hr|]. split.
    + apply (Hentry "d/s/c.json"). apply (bool_decide_unpack _). vm_compute. reflexivity.
    + apply (Hentry "d/a.json"). apply (bool_decide_unpack _). vm_compute. reflexivity.
Defined.






(** ** Objects: what a call touches, and what a copy shares *)

(** X26: [update_json_key] and [remove_json_key] work on the object they are
    given.  Each returns the location it was given; no location is added to
    or dropped from the store, and every other object is as it was before
    the call.  Removing a key that is not in the mapping leaves the whole
    store as it was. *)
Theorem update_remove_in_place (h : gmap Store.loc Store.object) (a : Store.loc)
    (ma : list (string * Store.value)) (key : string) (v : Store.value) :
  Store.get_dict h a = Some ma ->
  (exists h',
     Store.update_json_key h a key v = Some (h', a) /\
     dom h' = dom h /\
     forall l, l <> a -> h' !! l = h !! l) /\
  (exists h',
     Store.remove_json_key h a key = Some (h', a) /\
     dom h' = dom h /\
     (forall l, l <> a -> h' !! l = h !! l) /\
     (key ∉ dict_keys ma -> h' = h)).
Proof.
  intros Ha. pose proof Ha as Hl. apply get_dict_Some in Hl.
  assert (forall o, dom (<[a := o]> h) = dom h) as Hdom.
  { intros o. rewrite dom_insert_L. apply elem_of_dom_2 in Hl. set_solver. }
  split.
  - unfold Store.update_json_key. rewrite Ha. cbn [mbind option_bind].
    eexists. split; [done|]. split; [apply Hdom|].
    intros l Hne. by rewrite lookup_insert_ne.
  - unfold Store.remove_json_key. rewrite Ha. cbn [mbind option_bind].
    destruct (dict_mem key ma) eqn:Hmem; eexists; (split; [done|]).
    + split; [apply Hdom|]. split; [intros l Hne; by rewrite lookup_insert_ne|].
      intros Hk. by apply dict_mem_false in Hk; congruence.
    + done.
Qed.

Lemma update_remove_in_place_witness :
  let h : gmap Store.loc Store.object :=
    {[ 1%positive := Store.ODict [("x", Store.VRef 2%positive)];
       2%positive := Store.ODict [("p", Store.VInt 1)] ]} in
  exists h',
    Store.update_json_key h 2%positive "q" (Store.VInt 5) = Some (h', 2%positive) /\
    dom h' = dom h /\
    h' !! 1%positive = h !! 1%positive.
Proof.
  intros h.
  destruct (update_remove_in_place h 2%positive [("p", Store.VInt 1)] "q" (Store.VInt 5))
    as [(h' & Hu & Hdom & Hframe) _].
  - vm_compute. reflexivity.
  - exists h'. split; [exact Hu|]. split; [exact Hdom|]. by apply Hframe.
Defined.

(** X27: the copy of [merge_json] is shallow.  A nested object of the second
    mapping is not copied: the result refers to the same object, so a later
    [update_json_key] on that object changes what the result refers to,
    while the entries of the result itself are what they were. *)
Theorem merge_json_shares_nested (h : gmap Store.loc Store.object)
    (a b n : Store.loc) (ma mb mn : list (string * Store.value))
    (k key : string) (v : Store.value) :
  Store.get_dict h a = Some ma -> Store.get_dict h b = Some mb ->
  Store.get_dict h n = Some mn ->
  NoDup (dict_keys mb) -> dict_get k mb = Some (Store.VRef n) ->
  exists h1 r h2,
    Store.merge_json h a b = Some (h1, r) /\
    Store.update_json_key h1 n key v = Some (h2, n) /\
    r <> n /\
    Store.get_dict h2 r = Some (dict_update ma mb) /\
    dict_get k (dict_update ma mb) = Some (Store.VRef n) /\
    Store.get_dict h2 n = Some (dict_set key v mn).
Proof.
  intros Ha Hb Hn Hnd Hk.
  pose proof (alloc_fresh h (Store.ODict ma)) as Hfresh.
  unfold Store.merge_json, Store.alloc in *. rewrite Ha. cbn [mbind option_bind] in *.
  cbn [fst snd] in Hfresh.
  set (r := fresh (dom h)) in *.
  assert (r <> b) as Hrb. { intros Heq. apply get_dict_Some in Hb. congruence. }
  assert (r <> n) as Hrn. { intros Heq. apply get_dict_Some in Hn. congruence. }
  assert (Store.get_dict (<[r := Store.ODict ma]> h) b = Some mb) as Hb1.
  { apply get_dict_Some. rewrite lookup_insert_ne by done. by apply get_dict_Some. }
  assert (Store.get_dict (<[r := Store.ODict ma]> h) r = Some ma) as Hr1.
  { apply get_dict_Some. by rewrite lookup_insert_eq. }
  rewrite Hb1. cbn [mbind option_bind]. rewrite Hr1. cbn [mbind option_bind].
  set (h1 := <[r := Store.ODict (dict_update ma mb)]> (<[r := Store.ODict ma]> h)).
  assert (Store.get_dict h1 n = Some mn) as Hn1.
  { apply get_dict_Some. unfold h1. rewrite !lookup_insert_ne by done.
    by apply get_dict_Some. }
  exists h1, r. unfold Store.update_json_key. rewrite Hn1. cbn [mbind option_bind].
  eexists. split; [done|]. split; [done|]. split; [done|].
  split; [|split].
  - apply get_dict_Some. rewrite lookup_insert_ne by done.
    unfold h1. by rewrite lookup_insert_eq.
  - by rewrite dict_get_update, Hk.
  - apply get_dict_Some. by rewrite lookup_insert_eq.
Qed.

Lemma merge_json_shares_nested_witness :
  let h : gmap Store.loc Store.object :=
    {[ 1%positive := Store.ODict [("x", Store.VInt 1)];
       2%positive := Store.ODict [("n", Store.VRef 3%positive)];
       3%positive := Store.ODict [("p", Store.VInt 1)] ]} in
  exists h1 r h2,
    Store.merge_json h 1%positive 2%positive = Some (h1, r) /\
    Store.update_json_key h1 3%positive "p" (Store.VInt 9) = Some (h2, 3%positive) /\
    Store.get_dict h2 r
      = Some (dict_update [("x", Store.VInt 1)] [("n", Store.VRef 3%positive)]) /\
    Store.get_dict h2 3%positive = Some [("p", Store.VInt 9)].
Proof.
  intros h.
  destruct (merge_json_shares_nested h 1%positive 2%positive 3%positive
              [("x", Store.VInt 1)] [("n", Store.VRef 3%positive)] [("p", Store.VInt 1)]
              "n" "p" (Store.VInt 9))
    as (h1 & r & h2 & Hm & Hu & _ & Hr & _ & Hn).
  - vm_compute. reflexivity.
  - vm_compute. reflexivity.
  - vm_compute. reflexivity.
  - apply (bool_decide_unpack _). vm_compute. reflexivity.
  - reflexivity.
  - exists h1, r, h2. split; [exact Hm|]. split; [exact Hu|]. split; [exact Hr|exact Hn].
Defined.
